(** * Shallow embedding of the mcu-class-1 firmware core

    The three modules the specification is about are embedded from the C
    sources:

    - [Tmr]  : [src/modules/tmr/tmr.c]   (software timers, millisecond clock)
    - [Ttys] : [src/modules/ttys/ttys.c] (interrupt driven serial port, rings)
    - [Cmd]  : [src/modules/cmd/cmd.c]   (command registry, dispatch, parsing)

    Around them:

    - [TtysIo]  : [_write], [_read] and [fd_to_instance] of [ttys.c]
    - [Stat]    : [src/modules/stat/stat.c]       (duration statistics)
    - [Console] : [src/modules/console/console.c] (command line editor; the
      results of its calls of [ttys_getc] are an input)
    - [TmrExt], [TtysExt], [CmdExt] : predicates and example states for
      further properties of the three modules

    Conventions.  A [uintN_t] object is a [Z] kept in [0, 2^N) with the
    wrap-around written out ([u32], [u16], [u8]).  A C array is a [list],
    indexed with stdpp's lookup [l !! i] and updated with [<[i:=x]> l].
    Module level (static) variables are the fields of one record per module
    and every function takes that record and returns the new one.  What a
    function prints on the console is returned as a list of [console_out]
    events.  Function pointers are code addresses ([nat]); what the pointed-to
    code does is a [Variable] of the corresponding [Section]. *)

From Stdlib Require Import ZArith Lia List Bool Ascii String.
From stdpp Require Import base option list strings pretty gmap.

Local Open Scope Z_scope.

(** ** [module.h] *)

Definition MOD_ERR_ARG : Z := -1.
Definition MOD_ERR_RESOURCE : Z := -2.
Definition MOD_ERR_STATE : Z := -3.
Definition MOD_ERR_BAD_CMD : Z := -4.
Definition MOD_ERR_BUF_OVERRUN : Z := -5.
Definition MOD_ERR_BAD_INSTANCE : Z := -6.

Definition UINT16_MAX : Z := 65535.

(** Conversions to the unsigned C types. *)
Definition u8 (z : Z) : Z := z mod 2 ^ 8.
Definition u16 (z : Z) : Z := z mod 2 ^ 16.
Definition u32 (z : Z) : Z := z mod 2 ^ 32.

(** [#define INC_SAT_U16(a) do { (a) += ((a) == UINT16_MAX ? 0 : 1); } while (0)] *)
Definition INC_SAT_U16 (a : Z) : Z :=
  u16 (a + (if a =? UINT16_MAX then 0 else 1)).

(** ** [log.h] *)

Definition LOG_OFF : Z := 0.
Definition LOG_ERROR : Z := 1.
Definition LOG_WARNING : Z := 2.
Definition LOG_INFO : Z := 3.
Definition LOG_DEBUG : Z := 4.
Definition LOG_TRACE : Z := 5.
Definition LOG_DEFAULT : Z := LOG_INFO.

(** The newline character of the C string literals. *)
Definition nl : string := String (Ascii.ascii_of_nat 10) EmptyString.

Definition LOG_LEVEL_NAMES : string := "off, error, warning, info, debug, trace".
Definition LOG_LEVEL_NAMES_CSV : list string :=
  ["off"; "error"; "warning"; "info"; "debug"; "trace"]%string.

(** Console output.  [printf] with its arguments already substituted is
    [Printf]; [LogPrintf] is a call of [log_printf], which prints a time
    stamp read from the millisecond clock and then the text. *)
Inductive console_out : Type :=
  | Printf (text : string)
  | LogPrintf (text : string).

(** ** The timer module, [tmr.c] *)

Module Tmr.

Definition TMR_NUM_INST : Z := 5.

Inductive tmr_state : Type :=
  | TMR_UNUSED
  | TMR_STOPPED
  | TMR_RUNNING
  | TMR_EXPIRED.

Inductive tmr_cb_action : Type :=
  | TMR_CB_NONE
  | TMR_CB_RESTART.

Definition tmr_state_eqb (a b : tmr_state) : bool :=
  match a, b with
  | TMR_UNUSED, TMR_UNUSED | TMR_STOPPED, TMR_STOPPED
  | TMR_RUNNING, TMR_RUNNING | TMR_EXPIRED, TMR_EXPIRED => true
  | _, _ => false
  end.

(** [struct tmr_inst_info].  [cb_func] is [None] for a [NULL] pointer. *)
Record tmr_inst_info : Type := mk_tmr_inst_info {
  period_ms : Z;
  start_time : Z;
  state : tmr_state;
  cb_func : option nat;
  cb_user_data : Z
}.

(** The static variables of [tmr.c], the function-static [last_ms] of
    [tmr_run], and [_log_active] of [log.c], which the logging macros read. *)
Record tmr_mod : Type := mk_tmr_mod {
  tick_ms_ctr : Z;
  tmrs : list tmr_inst_info;
  log_level : Z;
  last_ms : Z;
  _log_active : bool
}.

Definition set_tmrs (l : list tmr_inst_info) (m : tmr_mod) : tmr_mod :=
  mk_tmr_mod (tick_ms_ctr m) l (log_level m) (last_ms m) (_log_active m).

Definition set_last_ms (v : Z) (m : tmr_mod) : tmr_mod :=
  mk_tmr_mod (tick_ms_ctr m) (tmrs m) (log_level m) v (_log_active m).

Definition set_tick_ms_ctr (v : Z) (m : tmr_mod) : tmr_mod :=
  mk_tmr_mod v (tmrs m) (log_level m) (last_ms m) (_log_active m).

(** [tmrs[idx] = ti] *)
Definition put_tmr (idx : nat) (ti : tmr_inst_info) (m : tmr_mod) : tmr_mod :=
  set_tmrs (<[idx := ti]> (tmrs m)) m.

Definition set_state (s : tmr_state) (ti : tmr_inst_info) : tmr_inst_info :=
  mk_tmr_inst_info (period_ms ti) (start_time ti) s (cb_func ti) (cb_user_data ti).

Definition set_period_ms (v : Z) (ti : tmr_inst_info) : tmr_inst_info :=
  mk_tmr_inst_info v (start_time ti) (state ti) (cb_func ti) (cb_user_data ti).

Definition set_start_time (v : Z) (ti : tmr_inst_info) : tmr_inst_info :=
  mk_tmr_inst_info (period_ms ti) v (state ti) (cb_func ti) (cb_user_data ti).

Definition set_cb (f : option nat) (d : Z) (ti : tmr_inst_info) : tmr_inst_info :=
  mk_tmr_inst_info (period_ms ti) (start_time ti) (state ti) f d.

(** [memset(&tmrs, 0, sizeof(tmrs))] *)
Definition tmr_zero : tmr_inst_info := mk_tmr_inst_info 0 0 TMR_UNUSED None 0.

Definition tmr_init (m : tmr_mod) : Z * tmr_mod :=
  (0, set_tmrs (replicate (Z.to_nat TMR_NUM_INST) tmr_zero) m).

Definition tmr_get_ms (m : tmr_mod) : Z := tick_ms_ctr m.

(** [tick_ms_ctr++] on a [uint32_t]. *)
Definition tmr_SysTick_Handler (m : tmr_mod) : tmr_mod :=
  set_tick_ms_ctr (u32 (tick_ms_ctr m + 1)) m.

(** [log_error(fmt)]: prints when logging is active and the module's level
    allows it. *)
Definition log_error (m : tmr_mod) (text : string) : list console_out :=
  if _log_active m && (LOG_ERROR <=? log_level m)
  then [LogPrintf ("ERR  " +:+ text)]
  else [].

(** The body of the [for] loop of [tmr_inst_get], for the indices still to
    visit: the first [TMR_UNUSED] slot is set up and its index returned.
    Here and below, [tmrs m !! idx] is [None] only when [tmrs] is shorter
    than the array of [tmr.c], which has [TMR_NUM_INST] slots ([pool_wf]). *)
Fixpoint tmr_inst_get_loop (idxs : list nat) (ms : Z) (m : tmr_mod)
  : option (Z * tmr_mod) :=
  match idxs with
  | [] => None
  | idx :: rest =>
      match tmrs m !! idx with
      | Some ti =>
          if tmr_state_eqb (state ti) TMR_UNUSED then
            let ti1 := set_period_ms ms ti in
            let ti2 :=
              if ms =? 0 then set_state TMR_STOPPED ti1
              else set_state TMR_RUNNING (set_start_time (tmr_get_ms m) ti1) in
            Some (Z.of_nat idx, put_tmr idx (set_cb None 0 ti2) m)
          else tmr_inst_get_loop rest ms m
      | None => tmr_inst_get_loop rest ms m
      end
  end.

Definition tmr_inst_get (ms : Z) (m : tmr_mod) : Z * tmr_mod * list console_out :=
  match tmr_inst_get_loop (seq 0 (Z.to_nat TMR_NUM_INST)) ms m with
  | Some (idx, m') => (idx, m', [])
  | None => (MOD_ERR_RESOURCE, m, log_error m ("Out of timers" +:+ nl))
  end.

Definition tmr_inst_get_cb (ms : Z) (cb : option nat) (user_data : Z) (m : tmr_mod)
  : Z * tmr_mod * list console_out :=
  let '(tmr_id, m1, out) := tmr_inst_get ms m in
  if 0 <=? tmr_id then
    match tmrs m1 !! Z.to_nat tmr_id with
    | Some ti => (tmr_id, put_tmr (Z.to_nat tmr_id) (set_cb cb user_data ti) m1, out)
    | None => (tmr_id, m1, out)
    end
  else (tmr_id, m1, out).

Definition tmr_inst_start (tmr_id : Z) (ms : Z) (m : tmr_mod) : Z * tmr_mod :=
  if (0 <=? tmr_id) && (tmr_id <? TMR_NUM_INST) then
    match tmrs m !! Z.to_nat tmr_id with
    | Some ti =>
        if negb (tmr_state_eqb (state ti) TMR_UNUSED) then
          let ti1 := set_period_ms ms ti in
          let ti2 :=
            if ms =? 0 then set_state TMR_STOPPED ti1
            else set_state TMR_RUNNING (set_start_time (tmr_get_ms m) ti1) in
          (0, put_tmr (Z.to_nat tmr_id) ti2 m)
        else (MOD_ERR_STATE, m)
    | None => (MOD_ERR_STATE, m)
    end
  else (MOD_ERR_ARG, m).

Definition tmr_inst_release (tmr_id : Z) (m : tmr_mod) : Z * tmr_mod :=
  if (0 <=? tmr_id) && (tmr_id <? TMR_NUM_INST) then
    match tmrs m !! Z.to_nat tmr_id with
    | Some ti => (0, put_tmr (Z.to_nat tmr_id) (set_state TMR_UNUSED ti) m)
    | None => (0, m)
    end
  else (MOD_ERR_ARG, m).

Definition tmr_inst_is_expired (tmr_id : Z) (m : tmr_mod) : Z :=
  if (0 <=? tmr_id) && (tmr_id <? TMR_NUM_INST) then
    match tmrs m !! Z.to_nat tmr_id with
    | Some ti => if tmr_state_eqb (state ti) TMR_EXPIRED then 1 else 0
    | None => 0
    end
  else MOD_ERR_ARG.

(** A callback that [tmr_run] invoked: slot, code address, user data and the
    action the callback returned. *)
Record cb_call : Type := mk_cb_call {
  call_idx : nat;
  call_func : nat;
  call_user_data : Z;
  call_result : tmr_cb_action
}.

Section Run.

(** What the code behind a callback pointer does: it runs in the main loop,
    may call any function of the module and takes time, during which the tick
    interrupt advances the clock; so it maps the module's variables to new
    ones and returns its directive. *)
Variable cb_run : nat -> Z -> Z -> tmr_mod -> tmr_cb_action * tmr_mod.

(** The local variables of [tmr_run] that live across loop iterations, the
    module's variables, and the callbacks made so far. *)
Record run_st : Type := mk_run_st {
  now_ms : Z;
  run_mod : tmr_mod;
  run_calls : list cb_call
}.

(** One iteration of the [for] loop of [tmr_run]. *)
Definition tmr_run_slot (idx : nat) (st : run_st) : run_st :=
  let m := run_mod st in
  match tmrs m !! idx with
  | None => st
  | Some ti =>
      if tmr_state_eqb (state ti) TMR_RUNNING then
        if period_ms ti <=? u32 (now_ms st - start_time ti) then
          let m1 := put_tmr idx (set_state TMR_EXPIRED ti) m in
          match cb_func ti with
          | None => mk_run_st (now_ms st) m1 (run_calls st)
          | Some f =>
              let '(result, m2) := cb_run f (Z.of_nat idx) (cb_user_data ti) m1 in
              let calls := run_calls st ++ [mk_cb_call idx f (cb_user_data ti) result] in
              let now := tmr_get_ms m2 in
              match result with
              | TMR_CB_RESTART =>
                  match tmrs m2 !! idx with
                  | Some ti2 =>
                      let ti3 := set_state TMR_RUNNING ti2 in
                      let ti4 := set_start_time (u32 (start_time ti3 + period_ms ti3)) ti3 in
                      mk_run_st now (put_tmr idx ti4 m2) calls
                  | None => mk_run_st now m2 calls
                  end
              | TMR_CB_NONE => mk_run_st now m2 calls
              end
          end
        else st
      else st
  end.

Definition tmr_run_loop (idxs : list nat) (st : run_st) : run_st :=
  foldl (fun s idx => tmr_run_slot idx s) st idxs.

Definition tmr_run (m : tmr_mod) : Z * tmr_mod * list cb_call :=
  let now := tmr_get_ms m in
  if now =? last_ms m then (0, m, [])
  else
    let st := tmr_run_loop (seq 0 (Z.to_nat TMR_NUM_INST))
                (mk_run_st now (set_last_ms now m) []) in
    (0, run_mod st, run_calls st).

(** What reaches the timer module while the super loop of [app_main.c]
    runs: the tick interrupt, and the loop's call of [tmr_run]. *)
Inductive loop_event : Type :=
  | SysTick
  | MainLoopRun.

(** The module's variables after a sequence of such events, and the
    callbacks made on the way. *)
Fixpoint run_events (evs : list loop_event) (m : tmr_mod) : tmr_mod * list cb_call :=
  match evs with
  | [] => (m, [])
  | SysTick :: rest => run_events rest (tmr_SysTick_Handler m)
  | MainLoopRun :: rest =>
      let '(_, m1, calls1) := tmr_run m in
      let '(m2, calls2) := run_events rest m1 in
      (m2, calls1 ++ calls2)
  end.

End Run.

(** The number of callbacks of slot [idx] among [calls] that asked for a
    restart. *)
Fixpoint restarts (idx : nat) (calls : list cb_call) : Z :=
  match calls with
  | [] => 0
  | c :: rest =>
      (match call_result c with
       | TMR_CB_RESTART => if (call_idx c =? idx)%nat then 1 else 0
       | TMR_CB_NONE => 0
       end) + restarts idx rest
  end.

(** The pool has its [TMR_NUM_INST] slots. *)
Definition pool_wf (m : tmr_mod) : Prop :=
  length (tmrs m) = Z.to_nat TMR_NUM_INST.

(** The schedule of slot [idx]: its period and its scheduled start. *)
Definition sched (idx : nat) (m : tmr_mod) : option (Z * Z) :=
  match tmrs m !! idx with
  | Some ti => Some (period_ms ti, start_time ti)
  | None => None
  end.

(** No callback rearms slot [idx]: whatever else a callback does to the
    module and however long it takes, the period and the start time of that
    slot are the same after it as before. *)
Definition keeps_sched (cb_run : nat -> Z -> Z -> tmr_mod -> tmr_cb_action * tmr_mod)
    (idx : nat) : Prop :=
  forall f i d m, sched idx (snd (cb_run f i d m)) = sched idx m.

(** *** Example states *)

(** A pool with every slot taken, the clock at 1000 and [tmr_run] last run
    at 1000; the schedules of slots 3 and 4 are due. *)
Definition busy_pool : tmr_mod :=
  mk_tmr_mod 1000
    [mk_tmr_inst_info 10 995 TMR_RUNNING None 0;
     mk_tmr_inst_info 0 0 TMR_STOPPED (Some 3%nat) 7;
     mk_tmr_inst_info 20 900 TMR_EXPIRED None 0;
     mk_tmr_inst_info 100 800 TMR_RUNNING (Some 4%nat) 0;
     mk_tmr_inst_info 1 999 TMR_RUNNING None 0]
    LOG_DEFAULT 1000 true.

(** The same pool when [tmr_run] last ran at 990. *)
Definition due_pool : tmr_mod := set_last_ms 990 busy_pool.

(** A callback like [test_cb_func] of [tmr.c], which asks for a restart when
    its user data is 0, and during which three ticks pass. *)
Definition slow_cb (f : nat) (tmr_id user_data : Z) (m : tmr_mod)
  : tmr_cb_action * tmr_mod :=
  (if user_data =? 0 then TMR_CB_RESTART else TMR_CB_NONE,
   tmr_SysTick_Handler (tmr_SysTick_Handler (tmr_SysTick_Handler m))).

(** A callback that rearms the timer it is called for with a period of
    50 ms, through [tmr_inst_start], and asks for a restart. *)
Definition rearm_cb (f : nat) (tmr_id user_data : Z) (m : tmr_mod)
  : tmr_cb_action * tmr_mod :=
  (TMR_CB_RESTART, (tmr_inst_start tmr_id 50 m).2).

End Tmr.

(** ** The serial port module, [ttys.c] *)

Module Ttys.

(** [enum ttys_instance_id]: three instances, then [TTYS_NUM_INSTANCES]. *)
Definition TTYS_INSTANCE_UART1 : nat := 0.
Definition TTYS_INSTANCE_UART2 : nat := 1.
Definition TTYS_INSTANCE_UART3 : nat := 2.
Definition TTYS_NUM_INSTANCES : nat := 3.

Definition TTYS_RX_BUF_SIZE : Z := 80.
Definition TTYS_TX_BUF_SIZE : Z := 1024.

(** [enum ttys_u16_pms], the indices into [cnts_u16]. *)
Definition CNT_RX_UART_ORE : nat := 0.
Definition CNT_RX_UART_NE : nat := 1.
Definition CNT_RX_UART_FE : nat := 2.
Definition CNT_RX_UART_PE : nat := 3.
Definition CNT_TX_BUF_OVERRUN : nat := 4.
Definition CNT_RX_BUF_OVERRUN : nat := 5.
Definition NUM_U16_PMS : nat := 6.

Record ttys_cfg : Type := mk_ttys_cfg {
  create_stream : bool;
  send_cr_after_nl : bool
}.

(** [struct ttys_state].  A [char] is a [Z] in [0, 256) (plain [char] is
    unsigned on the target).  [uart_reg_base] and [stream] are [None] for
    [NULL]. *)
Record ttys_state : Type := mk_ttys_state {
  cfg : ttys_cfg;
  stream : option nat;
  fd : Z;
  uart_reg_base : option nat;
  rx_buf_get_idx : Z;
  rx_buf_put_idx : Z;
  tx_buf_get_idx : Z;
  tx_buf_put_idx : Z;
  tx_buf : list Z;
  rx_buf : list Z
}.

(** What the code does to the peripheral of an instance: the values written
    to the data register, in order, the TXE interrupt enable bit, and whether
    the interrupt line is enabled in the interrupt controller. *)
Record usart_io : Type := mk_usart_io {
  DR_written : list Z;
  TXEIE : bool;
  irq_enabled : bool
}.

(** The static variables of [ttys.c] and the peripherals. *)
Record ttys_mod : Type := mk_ttys_mod {
  ttys_states : list ttys_state;
  log_level : Z;
  cnts_u16 : list Z;
  usart : list usart_io
}.

Definition set_ttys_states (l : list ttys_state) (w : ttys_mod) : ttys_mod :=
  mk_ttys_mod l (log_level w) (cnts_u16 w) (usart w).

Definition set_cnts_u16 (l : list Z) (w : ttys_mod) : ttys_mod :=
  mk_ttys_mod (ttys_states w) (log_level w) l (usart w).

Definition set_usart (l : list usart_io) (w : ttys_mod) : ttys_mod :=
  mk_ttys_mod (ttys_states w) (log_level w) (cnts_u16 w) l.

(** [ttys_states[instance_id] = st] *)
Definition put_state (instance_id : nat) (st : ttys_state) (w : ttys_mod) : ttys_mod :=
  set_ttys_states (<[instance_id := st]> (ttys_states w)) w.

(** [INC_SAT_U16(cnts_u16[pm])] *)
Definition inc_cnt (pm : nat) (w : ttys_mod) : ttys_mod :=
  match cnts_u16 w !! pm with
  | Some a => set_cnts_u16 (<[pm := INC_SAT_U16 a]> (cnts_u16 w)) w
  | None => w
  end.

Definition set_tx_put (buf : list Z) (put : Z) (st : ttys_state) : ttys_state :=
  mk_ttys_state (cfg st) (stream st) (fd st) (uart_reg_base st)
    (rx_buf_get_idx st) (rx_buf_put_idx st) (tx_buf_get_idx st) put
    buf (rx_buf st).

Definition set_tx_get (get : Z) (st : ttys_state) : ttys_state :=
  mk_ttys_state (cfg st) (stream st) (fd st) (uart_reg_base st)
    (rx_buf_get_idx st) (rx_buf_put_idx st) get (tx_buf_put_idx st)
    (tx_buf st) (rx_buf st).

Definition set_rx_put (buf : list Z) (put : Z) (st : ttys_state) : ttys_state :=
  mk_ttys_state (cfg st) (stream st) (fd st) (uart_reg_base st)
    (rx_buf_get_idx st) put (tx_buf_get_idx st) (tx_buf_put_idx st)
    (tx_buf st) buf.

Definition set_rx_get (get : Z) (st : ttys_state) : ttys_state :=
  mk_ttys_state (cfg st) (stream st) (fd st) (uart_reg_base st)
    get (rx_buf_put_idx st) (tx_buf_get_idx st) (tx_buf_put_idx st)
    (tx_buf st) (rx_buf st).

(** [LL_USART_EnableIT_TXE] / [LL_USART_DisableIT_TXE] on the peripheral of
    an instance. *)
Definition set_TXEIE (instance_id : nat) (b : bool) (w : ttys_mod) : ttys_mod :=
  match usart w !! instance_id with
  | Some io =>
      set_usart (<[instance_id := mk_usart_io (DR_written io) b (irq_enabled io)]> (usart w)) w
  | None => w
  end.

(** [st->uart_reg_base->DR = c] *)
Definition write_DR (instance_id : nat) (c : Z) (w : ttys_mod) : ttys_mod :=
  match usart w !! instance_id with
  | Some io =>
      set_usart (<[instance_id := mk_usart_io (DR_written io ++ [c]) (TXEIE io) (irq_enabled io)]> (usart w)) w
  | None => w
  end.

(** [NVIC_DisableIRQ(irq_type)] *)
Definition NVIC_DisableIRQ (instance_id : nat) (w : ttys_mod) : ttys_mod :=
  match usart w !! instance_id with
  | Some io =>
      set_usart (<[instance_id := mk_usart_io (DR_written io) (TXEIE io) false]> (usart w)) w
  | None => w
  end.

Definition ttys_putc (instance_id : nat) (c : Z) (w : ttys_mod) : Z * ttys_mod :=
  if (TTYS_NUM_INSTANCES <=? instance_id)%nat then (MOD_ERR_BAD_INSTANCE, w)
  else
    match ttys_states w !! instance_id with
    | None => (MOD_ERR_BAD_INSTANCE, w)
    | Some st =>
        let next_put_idx := u16 (tx_buf_put_idx st + 1) in
        let next_put_idx :=
          if TTYS_TX_BUF_SIZE <=? next_put_idx then 0 else next_put_idx in
        if next_put_idx =? tx_buf_get_idx st then
          (MOD_ERR_BUF_OVERRUN, inc_cnt CNT_TX_BUF_OVERRUN w)
        else
          let st' :=
            set_tx_put (<[Z.to_nat (tx_buf_put_idx st) := c]> (tx_buf st))
              next_put_idx st in
          let w1 := put_state instance_id st' w in
          let w2 :=
            match uart_reg_base st' with
            | Some _ => set_TXEIE instance_id true w1
            | None => w1
            end in
          (0, w2)
    end.

(** The character stored through the pointer [c] is the second component;
    [None] when nothing is stored. *)
Definition ttys_getc (instance_id : nat) (w : ttys_mod) : Z * option Z * ttys_mod :=
  if (TTYS_NUM_INSTANCES <=? instance_id)%nat then (MOD_ERR_BAD_INSTANCE, None, w)
  else
    match ttys_states w !! instance_id with
    | None => (MOD_ERR_BAD_INSTANCE, None, w)
    | Some st =>
        if rx_buf_get_idx st =? rx_buf_put_idx st then (0, None, w)
        else
          let next_get_idx := rx_buf_get_idx st + 1 in
          let next_get_idx :=
            if TTYS_RX_BUF_SIZE <=? next_get_idx then 0 else next_get_idx in
          let c := default 0 (rx_buf st !! Z.to_nat (rx_buf_get_idx st)) in
          (1, Some c, put_state instance_id (set_rx_get next_get_idx st) w)
    end.

(** The status register bits of [stm32f4xx_ll_usart.h], which is not part of
    the repository sources: the handler is embedded for any assignment. *)
Record usart_sr_bits : Type := mk_usart_sr_bits {
  LL_USART_SR_RXNE : Z;
  LL_USART_SR_TXE : Z;
  LL_USART_SR_ORE : Z;
  LL_USART_SR_NE : Z;
  LL_USART_SR_FE : Z;
  LL_USART_SR_PE : Z
}.

(** The assignment of the STM32F4 reference manual (USART_SR). *)
Definition stm32f4_sr_bits : usart_sr_bits :=
  mk_usart_sr_bits 0x20 0x80 0x08 0x04 0x02 0x01.

Section Interrupt.

Variable bits : usart_sr_bits.

Definition sr_flag (sr mask : Z) : bool := negb (Z.land sr mask =? 0).

(** The [RXNE] branch of [ttys_interrupt]. *)
Definition ttys_interrupt_rx (instance_id : nat) (DR : Z) (w : ttys_mod) : ttys_mod :=
  match ttys_states w !! instance_id with
  | None => w
  | Some st =>
      let next_rx_put_idx := u16 (rx_buf_put_idx st + 1) in
      let rx_data := u8 DR in
      let next_rx_put_idx :=
        if TTYS_RX_BUF_SIZE <=? next_rx_put_idx then 0 else next_rx_put_idx in
      if next_rx_put_idx =? rx_buf_get_idx st then inc_cnt CNT_RX_BUF_OVERRUN w
      else
        put_state instance_id
          (set_rx_put (<[Z.to_nat (rx_buf_put_idx st) := rx_data]> (rx_buf st))
             next_rx_put_idx st) w
  end.

(** The [TXE] branch of [ttys_interrupt]. *)
Definition ttys_interrupt_tx (instance_id : nat) (w : ttys_mod) : ttys_mod :=
  match ttys_states w !! instance_id with
  | None => w
  | Some st =>
      if tx_buf_get_idx st =? tx_buf_put_idx st then set_TXEIE instance_id false w
      else
        let w1 :=
          write_DR instance_id
            (default 0 (tx_buf st !! Z.to_nat (tx_buf_get_idx st))) w in
        let get :=
          if tx_buf_get_idx st <? TTYS_TX_BUF_SIZE - 1
          then u16 (tx_buf_get_idx st + 1) else 0 in
        put_state instance_id (set_tx_get get st) w1
  end.

(** The error branch of [ttys_interrupt]. *)
Definition ttys_interrupt_err (sr : Z) (w : ttys_mod) : ttys_mod :=
  let w1 := if sr_flag sr (LL_USART_SR_ORE bits) then inc_cnt CNT_RX_UART_ORE w else w in
  let w2 := if sr_flag sr (LL_USART_SR_NE bits) then inc_cnt CNT_RX_UART_NE w1 else w1 in
  let w3 := if sr_flag sr (LL_USART_SR_FE bits) then inc_cnt CNT_RX_UART_FE w2 else w2 in
  if sr_flag sr (LL_USART_SR_PE bits) then inc_cnt CNT_RX_UART_PE w3 else w3.

(** [ttys_interrupt].  [SR] and [DR] are the values the reads of the status
    and data registers return. *)
Definition ttys_interrupt (instance_id : nat) (SR DR : Z) (w : ttys_mod) : ttys_mod :=
  if (TTYS_NUM_INSTANCES <=? instance_id)%nat then w
  else
    match ttys_states w !! instance_id with
    | None => w
    | Some st =>
        match uart_reg_base st with
        | None => NVIC_DisableIRQ instance_id w
        | Some _ =>
            let sr := u8 SR in
            let w1 :=
              if sr_flag sr (LL_USART_SR_RXNE bits)
              then ttys_interrupt_rx instance_id DR w else w in
            let w2 :=
              if sr_flag sr (LL_USART_SR_TXE bits)
              then ttys_interrupt_tx instance_id w1 else w1 in
            if sr_flag sr
                 (Z.lor (LL_USART_SR_ORE bits)
                    (Z.lor (LL_USART_SR_NE bits)
                       (Z.lor (LL_USART_SR_FE bits) (LL_USART_SR_PE bits))))
            then ttys_interrupt_err sr w2 else w2
        end
    end.

(** A sequence of interrupts of one instance; each element gives what the
    reads of the status and data registers return in that interrupt. *)
Fixpoint interrupt_seq (instance_id : nat) (reads : list (Z * Z)) (w : ttys_mod)
  : ttys_mod :=
  match reads with
  | [] => w
  | (SR, DR) :: rest => interrupt_seq instance_id rest (ttys_interrupt instance_id SR DR w)
  end.

End Interrupt.

(** A sequence of calls of [ttys_putc], one per character, as in the loop of
    [_write]; the return values are collected. *)
Fixpoint putc_seq (instance_id : nat) (cs : list Z) (w : ttys_mod) : list Z * ttys_mod :=
  match cs with
  | [] => ([], w)
  | c :: rest =>
      let '(r, w1) := ttys_putc instance_id c w in
      let '(rs, w2) := putc_seq instance_id rest w1 in
      (r :: rs, w2)
  end.

(** [n] calls of [ttys_getc]; the return values and the characters are
    collected. *)
Fixpoint getc_seq (instance_id : nat) (n : nat) (w : ttys_mod)
  : list (Z * option Z) * ttys_mod :=
  match n with
  | O => ([], w)
  | S n' =>
      let '(r, c, w1) := ttys_getc instance_id w in
      let '(rs, w2) := getc_seq instance_id n' w1 in
      ((r, c) :: rs, w2)
  end.

(** The characters written so far to the data register of an instance. *)
Definition tx_line (instance_id : nat) (w : ttys_mod) : list Z :=
  match usart w !! instance_id with
  | Some io => DR_written io
  | None => []
  end.

(** The counter [pm] as the code running for instance [instance_id] reaches
    it.  [ttys.c] has one array for the module ("Currently these are common to
    all instances"), indexed by the counter alone. *)
Definition port_cnt (instance_id : nat) (pm : nat) (w : ttys_mod) : Z :=
  default 0 (cnts_u16 w !! pm).

(** The indices of an instance are inside their buffers, which have their
    declared sizes. *)
Definition state_wf (st : ttys_state) : bool :=
  (Z.of_nat (length (tx_buf st)) =? TTYS_TX_BUF_SIZE)
  && (Z.of_nat (length (rx_buf st)) =? TTYS_RX_BUF_SIZE)
  && (0 <=? tx_buf_get_idx st) && (tx_buf_get_idx st <? TTYS_TX_BUF_SIZE)
  && (0 <=? tx_buf_put_idx st) && (tx_buf_put_idx st <? TTYS_TX_BUF_SIZE)
  && (0 <=? rx_buf_get_idx st) && (rx_buf_get_idx st <? TTYS_RX_BUF_SIZE)
  && (0 <=? rx_buf_put_idx st) && (rx_buf_put_idx st <? TTYS_RX_BUF_SIZE).

(** The arrays of the module have their declared sizes, the counters are
    [uint16_t] values and every instance is well formed. *)
Definition ttys_wf (w : ttys_mod) : bool :=
  (length (ttys_states w) =? TTYS_NUM_INSTANCES)%nat
  && (length (usart w) =? TTYS_NUM_INSTANCES)%nat
  && (length (cnts_u16 w) =? NUM_U16_PMS)%nat
  && forallb (fun a => (0 <=? a) && (a <=? UINT16_MAX)) (cnts_u16 w)
  && forallb state_wf (ttys_states w).

(** *** Ring buffer invariants *)

(** The index after [i] in a ring of [C] slots, wrapping at the end of the
    array. *)
Definition ring_next (C : Z) (i : Z) : Z := if C <=? i + 1 then 0 else i + 1.

(** The ring [buf] of [C] slots with indices [get] and [put] holds the
    characters [l], oldest first: each is read at [get], which then moves on,
    until [get] meets [put]. *)
Fixpoint ring_holds (C : Z) (buf : list Z) (get put : Z) (l : list Z) : Prop :=
  match l with
  | [] => get = put
  | x :: l' =>
      get <> put /\ buf !! Z.to_nat get = Some x
      /\ ring_holds C buf (ring_next C get) put l'
  end.

(** The transmit side of instance [id]: what its ring holds, what has been
    written to its data register, and its register base. *)
Definition tx_inv (id : nat) (w : ttys_mod) (l D : list Z) (u : option nat) : Prop :=
  exists st io,
    ttys_states w !! id = Some st /\ usart w !! id = Some io
    /\ Z.of_nat (length (tx_buf st)) = TTYS_TX_BUF_SIZE
    /\ 0 <= tx_buf_get_idx st < TTYS_TX_BUF_SIZE
    /\ 0 <= tx_buf_put_idx st < TTYS_TX_BUF_SIZE
    /\ ring_holds TTYS_TX_BUF_SIZE (tx_buf st) (tx_buf_get_idx st) (tx_buf_put_idx st) l
    /\ DR_written io = D
    /\ uart_reg_base st = u.

(** The receive side of instance [id]. *)
Definition rx_inv (id : nat) (w : ttys_mod) (l : list Z) (u : option nat) : Prop :=
  exists st,
    ttys_states w !! id = Some st
    /\ Z.of_nat (length (rx_buf st)) = TTYS_RX_BUF_SIZE
    /\ 0 <= rx_buf_get_idx st < TTYS_RX_BUF_SIZE
    /\ 0 <= rx_buf_put_idx st < TTYS_RX_BUF_SIZE
    /\ ring_holds TTYS_RX_BUF_SIZE (rx_buf st) (rx_buf_get_idx st) (rx_buf_put_idx st) l
    /\ uart_reg_base st = u.

(** Instance [B] looks the same in [w'] as in [w]: its [ttys_state] (rings,
    indices, configuration) and its peripheral. *)
Definition same_port (B : nat) (w w' : ttys_mod) : Prop :=
  ttys_states w' !! B = ttys_states w !! B /\ usart w' !! B = usart w !! B.

(** *** Example states *)

(** An instance with both rings empty, the indices at [tx] and [rx]. *)
Definition idle_state (uart : option nat) (tx rx : Z) : ttys_state :=
  mk_ttys_state (mk_ttys_cfg true true) None 1 uart rx rx tx tx
    (replicate (Z.to_nat TTYS_TX_BUF_SIZE) 0) (replicate (Z.to_nat TTYS_RX_BUF_SIZE) 0).

(** An instance whose transmit ring is full: [put] is just behind [get]. *)
Definition full_state (uart : option nat) : ttys_state :=
  mk_ttys_state (mk_ttys_cfg true true) None 1 uart 0 0 6 5
    (replicate (Z.to_nat TTYS_TX_BUF_SIZE) 65) (replicate (Z.to_nat TTYS_RX_BUF_SIZE) 0).

Definition quiet_usart : usart_io := mk_usart_io [] false true.

(** Instance 0 full, instances 1 and 2 idle with their indices about to wrap;
    the transmit overrun counter is one short of its maximum. *)
Definition demo_mod : ttys_mod :=
  mk_ttys_mod
    [full_state (Some 1%nat); idle_state (Some 2%nat) 1022 78; idle_state None 0 0]
    LOG_DEFAULT
    [0; 0; 0; 0; 65534; 0]
    [quiet_usart; quiet_usart; quiet_usart].

End Ttys.

(** ** C library functions used by [cmd.c]

    These are not code of the repository; they follow ISO C ([<ctype.h>] in
    the "C" locale, [<strings.h>], [<stdlib.h>]) for a target whose [long] is
    32 bits wide. *)

Module Libc.

Definition char_code (c : ascii) : Z := Z.of_N (N_of_ascii c).

Definition isspace (c : ascii) : bool :=
  let n := char_code c in (n =? 32) || ((9 <=? n) && (n <=? 13)).

Definition tolower (c : ascii) : Z :=
  let n := char_code c in
  if (65 <=? n) && (n <=? 90) then n + 32 else n.

(** [strcasecmp]: the difference of the first pair of characters that differ
    after conversion to lower case, [0] when there is none. *)
Fixpoint strcasecmp (a b : string) : Z :=
  match a, b with
  | EmptyString, EmptyString => 0
  | EmptyString, String d _ => 0 - tolower d
  | String c _, EmptyString => tolower c
  | String c a', String d b' =>
      if tolower c =? tolower d then strcasecmp a' b' else tolower c - tolower d
  end.

(** [strcmp] *)
Fixpoint strcmp (a b : string) : Z :=
  match a, b with
  | EmptyString, EmptyString => 0
  | EmptyString, String d _ => 0 - char_code d
  | String c _, EmptyString => char_code c
  | String c a', String d b' =>
      if char_code c =? char_code d then strcmp a' b' else char_code c - char_code d
  end.

(** A C string ends at the first NUL character. *)
Fixpoint c_str (s : string) : string :=
  match s with
  | EmptyString => EmptyString
  | String c s' => if char_code c =? 0 then EmptyString else String c (c_str s')
  end.

Definition ULONG_MAX : Z := 2 ^ 32 - 1.
Definition LONG_MAX : Z := 2 ^ 31 - 1.
Definition LONG_MIN : Z := - 2 ^ 31.

(** The value of a digit or letter in a number, for any base up to 36. *)
Definition digit_val (c : ascii) : option Z :=
  let n := char_code c in
  if (48 <=? n) && (n <=? 57) then Some (n - 48)
  else if (97 <=? n) && (n <=? 122) then Some (n - 97 + 10)
  else if (65 <=? n) && (n <=? 90) then Some (n - 65 + 10)
  else None.

Definition is_digit_in (base : Z) (c : ascii) : bool :=
  match digit_val c with
  | Some d => d <? base
  | None => false
  end.

(** The longest run of digits of [base] at the start of [s]: accumulated
    value, whether there was a digit, and the rest of the string. *)
Fixpoint parse_digits (base : Z) (s : string) (acc : Z) (any : bool)
  : Z * bool * string :=
  match s with
  | EmptyString => (acc, any, s)
  | String c s' =>
      match digit_val c with
      | Some d =>
          if d <? base then parse_digits base s' (acc * base + d) true
          else (acc, any, s)
      | None => (acc, any, s)
      end
  end.

Fixpoint skip_space (s : string) : string :=
  match s with
  | String c s' => if isspace c then skip_space s' else s
  | EmptyString => s
  end.

(** The subject sequence of [strtol]/[strtoul]: white space, an optional
    sign, an optional [0x]/[0X] prefix (base 0 or 16, and only when a
    hexadecimal digit follows), then digits.  The result is the sign, the
    magnitude and the unconsumed rest; when there is no digit nothing is
    consumed and the rest is the whole string. *)
Definition strto_subject (nptr : string) (base : Z) : bool * Z * string :=
  let s := skip_space nptr in
  let '(neg, s) :=
    match s with
    | String "-" s' => (true, s')
    | String "+" s' => (false, s')
    | _ => (false, s)
    end in
  let '(base, s) :=
    match s with
    | String "0" (String x (String h s')) =>
        if ((base =? 0) || (base =? 16))
           && ((char_code x =? 120) || (char_code x =? 88))
           && is_digit_in 16 h
        then (16, String h s')
        else if base =? 0 then (8, s) else (base, s)
    | String "0" _ => if base =? 0 then (8, s) else (base, s)
    | _ => if base =? 0 then (10, s) else (base, s)
    end in
  let '(acc, any, rest) := parse_digits base s 0 false in
  if any then (neg, acc, rest) else (false, 0, nptr).

(** [strtoul(nptr, &endptr, base)]: the value and what [endptr] points to. *)
Definition strtoul (nptr : string) (base : Z) : Z * string :=
  let '(neg, acc, rest) := strto_subject nptr base in
  let v :=
    if ULONG_MAX <? acc then ULONG_MAX
    else if neg then u32 (- acc) else acc in
  (v, rest).

(** [strtol(nptr, &endptr, base)] *)
Definition strtol (nptr : string) (base : Z) : Z * string :=
  let '(neg, acc, rest) := strto_subject nptr base in
  let v :=
    if neg then (if - acc <? LONG_MIN then LONG_MIN else - acc)
    else (if LONG_MAX <? acc then LONG_MAX else acc) in
  (v, rest).

End Libc.

(** ** The command module, [cmd.c] *)

Module Cmd.

Import Libc.

Definition CMD_MAX_CLIENTS : Z := 10.
Definition MAX_CMD_TOKENS : Z := 10.

(** [struct cmd_cmd_info]; [func] is the address of the handler. *)
Record cmd_cmd_info : Type := mk_cmd_cmd_info {
  cmd_name : string;
  func : nat;
  help : string
}.

(** [struct cmd_client_info].  [log_level_ptr] is [None] for [NULL];
    [u16_pms] is the address of the first counter. *)
Record cmd_client_info : Type := mk_cmd_client_info {
  name : string;
  num_cmds : Z;
  cmds : list cmd_cmd_info;
  log_level_ptr : option nat;
  num_u16_pms : Z;
  u16_pms : nat;
  u16_pm_names : list string
}.

(** [struct cmd_arg_val]: the type letter and the member of the union that
    was written. *)
Inductive arg_union : Type :=
  | val_p (p : Z)
  | val_i (i : Z)
  | val_u (u : Z)
  | val_s (s : string).

Record cmd_arg_val : Type := mk_cmd_arg_val {
  type : ascii;
  val : arg_union
}.

(** The static variables of [cmd.c], [_log_active] of [log.c], and the
    memory the registered clients lend to the module: their [int32_t] log
    level variables and their [uint16_t] counters, by address. *)
Record cmd_mod : Type := mk_cmd_mod {
  client_info : list (option cmd_client_info);
  log_level : Z;
  _log_active : bool;
  i32_mem : gmap nat Z;
  u16_mem : gmap nat Z
}.

Definition set_client_info (l : list (option cmd_client_info)) (w : cmd_mod) : cmd_mod :=
  mk_cmd_mod l (log_level w) (_log_active w) (i32_mem w) (u16_mem w).

Definition set_i32_mem (mem : gmap nat Z) (w : cmd_mod) : cmd_mod :=
  mk_cmd_mod (client_info w) (log_level w) (_log_active w) mem (u16_mem w).

Definition set_u16_mem (mem : gmap nat Z) (w : cmd_mod) : cmd_mod :=
  mk_cmd_mod (client_info w) (log_level w) (_log_active w) (i32_mem w) mem.

(** [*p] and [*p = v] for a pointer to [int32_t]; [p[i]] and [p[i] = v] for
    a pointer to [uint16_t]. *)
Definition load_i32 (p : nat) (w : cmd_mod) : Z := i32_mem w !!! p.
Definition store_i32 (p : nat) (v : Z) (w : cmd_mod) : cmd_mod :=
  set_i32_mem (<[p := v]> (i32_mem w)) w.
Definition load_u16 (p : nat) (i : nat) (w : cmd_mod) : Z := u16_mem w !!! (p + i)%nat.
Definition store_u16 (p : nat) (i : nat) (v : Z) (w : cmd_mod) : cmd_mod :=
  set_u16_mem (<[(p + i)%nat := v]> (u16_mem w)) w.

(** [memset(client_info, 0, sizeof(client_info))] *)
Definition cmd_init (w : cmd_mod) : Z * cmd_mod :=
  (0, set_client_info (replicate (Z.to_nat CMD_MAX_CLIENTS) None) w).

(** The [for] loop of [cmd_register] over the indices still to visit. *)
Fixpoint cmd_register_loop (idxs : list nat) (_client_info : cmd_client_info)
    (w : cmd_mod) : option cmd_mod :=
  match idxs with
  | [] => None
  | idx :: rest =>
      match client_info w !! idx with
      | Some None =>
          Some (set_client_info (<[idx := Some _client_info]> (client_info w)) w)
      | Some (Some ci) =>
          if strcasecmp (name ci) (name _client_info) =? 0
          then Some (set_client_info (<[idx := Some _client_info]> (client_info w)) w)
          else cmd_register_loop rest _client_info w
      | None => cmd_register_loop rest _client_info w
      end
  end.

Definition cmd_register (_client_info : cmd_client_info) (w : cmd_mod) : Z * cmd_mod :=
  match cmd_register_loop (seq 0 (Z.to_nat CMD_MAX_CLIENTS)) _client_info w with
  | Some w' => (0, w')
  | None => (MOD_ERR_RESOURCE, w)
  end.

(** [log_level_str] *)
Definition log_level_str (level : Z) : string :=
  if (0 <=? level) && (level <? Z.of_nat (length LOG_LEVEL_NAMES_CSV))
  then default "" (LOG_LEVEL_NAMES_CSV !! Z.to_nat level)
  else "INVALID".

(** The [for] loop of [log_level_int] from [level] on. *)
Fixpoint log_level_int_loop (names : list string) (level : Z) (level_name : string) : Z :=
  match names with
  | [] => -1
  | n :: rest =>
      if strcasecmp level_name n =? 0 then level
      else log_level_int_loop rest (level + 1) level_name
  end.

Definition log_level_int (level_name : string) : Z :=
  log_level_int_loop LOG_LEVEL_NAMES_CSV 0 level_name.

(** [log_debug(fmt)] in [cmd.c]. *)
Definition log_debug (w : cmd_mod) (text : string) : list console_out :=
  if _log_active w && (LOG_DEBUG <=? log_level w)
  then [LogPrintf ("DBG  " +:+ text)]
  else [].

(** The outcome of the tokenizer at the head of [cmd_execute]. *)
Inductive tok_result : Type :=
  | TooManyTokens
  | Tokens (tokens : list string).

(** The tokenizer loop of [cmd_execute]: [p] is the text from the current
    position, [tokens] the tokens recorded so far.  The inner [scan] is the
    loop that finds the end of the token whose characters so far are [tok]. *)
Fixpoint tokenize (p : string) (tokens : list string) {struct p} : tok_result :=
  match p with
  | EmptyString => Tokens tokens
  | String c p' =>
      if isspace c then tokenize p' tokens
      else if MAX_CMD_TOKENS <=? Z.of_nat (length tokens) then TooManyTokens
      else
        (fix scan (q : string) (tok : string) {struct q} : tok_result :=
           match q with
           | EmptyString => Tokens (tokens ++ [tok])
           | String d q' =>
               if isspace d then tokenize q' (tokens ++ [tok])
               else scan q' (tok +:+ String d EmptyString)
           end) p' (String c EmptyString)
  end.

(** The registered clients a loop
    [for (idx = 0; idx < CMD_MAX_CLIENTS && client_info[idx] != NULL; idx++)]
    visits: the entries before the first [NULL]. *)
Fixpoint clients_upto_null (l : list (option cmd_client_info)) : list cmd_client_info :=
  match l with
  | Some ci :: rest => ci :: clients_upto_null rest
  | _ => []
  end.

Definition registered (w : cmd_mod) : list cmd_client_info :=
  clients_upto_null (take (Z.to_nat CMD_MAX_CLIENTS) (client_info w)).

(** The commands [for (idx2 = 0; idx2 < ci->num_cmds; idx2++)] visits. *)
Definition client_cmds (ci : cmd_client_info) : list cmd_cmd_info :=
  take (Z.to_nat (num_cmds ci)) (cmds ci).

(** [tokens[i]] *)
Definition token (tokens : list string) (i : nat) : string :=
  default "" (tokens !! i).

(** A call of a command handler: its address, [argc] and [argv]. *)
Record func_call : Type := mk_func_call {
  call_func : nat;
  call_argc : Z;
  call_argv : list string
}.

(** What [cmd_execute] does: the return value, the new variables, the console
    output and the handlers that were called. *)
Record exec_result : Type := mk_exec_result {
  rc : Z;
  world : cmd_mod;
  out : list console_out;
  calls : list func_call
}.

Definition mk_result (r : Z) (w : cmd_mod) (o : list console_out) : exec_result :=
  mk_exec_result r w o [].

(** The client loop of the wild card [log] command, for the clients still to
    visit; [set] is [Some level] when a level is being set ([num_tokens == 3])
    and [None] when the levels are printed. *)
Fixpoint wildcard_log_loop (cis : list cmd_client_info) (set : option Z)
    (w : cmd_mod) (o : list console_out) : cmd_mod * list console_out :=
  match cis with
  | [] => (w, o)
  | ci :: rest =>
      match log_level_ptr ci with
      | Some p =>
          match set with
          | Some log_level => wildcard_log_loop rest set (store_i32 p log_level w) o
          | None =>
              wildcard_log_loop rest set w
                (o ++ [Printf ("Log level for " +:+ name ci +:+ " = "
                               +:+ log_level_str (load_i32 p w) +:+ nl)])
          end
      | None => wildcard_log_loop rest set w o
      end
  end.

(** The branch of [cmd_execute] for a first token ["*"]. *)
Definition cmd_execute_wildcard (tokens : list string) (w : cmd_mod) : exec_result :=
  let num_tokens := Z.of_nat (length tokens) in
  if num_tokens <? 2 then
    mk_result MOD_ERR_BAD_CMD w [Printf ("Wildcard missing command" +:+ nl)]
  else if strcasecmp (token tokens 1) "log" =? 0 then
    if (num_tokens =? 3) && (log_level_int (token tokens 2) <? 0) then
      mk_result MOD_ERR_ARG w
        [Printf ("Invalid log level: " +:+ token tokens 2 +:+ nl)]
    else if negb (num_tokens =? 3) && (3 <? num_tokens) then
      mk_result MOD_ERR_ARG w [Printf ("Invalid arguments" +:+ nl)]
    else
      let set :=
        if num_tokens =? 3 then Some (log_level_int (token tokens 2)) else None in
      let '(w', o) := wildcard_log_loop (registered w) set w [] in
      mk_result 0 w' o
  else mk_result 0 w [].

(** [idx2 == 0 ? "" : ", "] *)
Definition sep (idx2 : Z) : string := if idx2 =? 0 then "" else ", ".

(** The value of [idx2] after [for (idx2 = 0; idx2 < num_cmds; idx2++)]. *)
Definition idx2_after (ci : cmd_client_info) : Z := Z.max 0 (num_cmds ci).

(** What the top-level help prints for one client. *)
Definition help_client (ci : cmd_client_info) : list console_out :=
  if num_cmds ci =? 0 then []
  else
    [Printf (name ci +:+ " (")]
    ++ imap (fun idx2 cci => Printf (sep (Z.of_nat idx2) +:+ cmd_name cci)) (client_cmds ci)
    ++ (if log_level_ptr ci is Some _ then [Printf (sep (idx2_after ci) +:+ "log")] else [])
    ++ (if 0 <? num_u16_pms ci then [Printf (sep (idx2_after ci) +:+ "pm")] else [])
    ++ [Printf (")" +:+ nl)].

(** The branch of [cmd_execute] for a first token [help] or [?]. *)
Definition cmd_execute_help (w : cmd_mod) : exec_result :=
  mk_result 0 w
    (concat (map help_client (registered w))
     ++ [Printf (nl +:+ "Log levels are: " +:+ LOG_LEVEL_NAMES +:+ nl)]).

(** The counter loop of the [pm] command, for the indices still to visit. *)
Fixpoint pm_loop (idxs : list nat) (ci : cmd_client_info) (clear : bool)
    (w : cmd_mod) (o : list console_out) : cmd_mod * list console_out :=
  match idxs with
  | [] => (w, o)
  | idx2 :: rest =>
      if clear then pm_loop rest ci clear (store_u16 (u16_pms ci) idx2 0 w) o
      else
        pm_loop rest ci clear w
          (o ++ [Printf ("  " +:+ default "" (u16_pm_names ci !! idx2) +:+ ": "
                         +:+ pretty (load_u16 (u16_pms ci) idx2 w) +:+ nl)])
  end.

Section Execute.

(** What the code behind a handler pointer does when called with [argc] and
    [argv]: its return value, its effect on the variables and its output. *)
Variable func_run : nat -> Z -> list string -> cmd_mod -> Z * cmd_mod * list console_out.

(** The command loop [for (idx2 = 0; idx2 < ci->num_cmds; idx2++)] at the
    end of the client branch, for the commands still to visit. *)
Fixpoint find_cmd (ccis : list cmd_cmd_info) (num_tokens : Z) (tokens : list string)
    (w : cmd_mod) : exec_result :=
  match ccis with
  | [] =>
      mk_result MOD_ERR_BAD_CMD w
        [Printf ("No such command (" +:+ token tokens 0 +:+ " " +:+ token tokens 1
                 +:+ ")" +:+ nl)]
  | cci :: rest =>
      if strcasecmp (token tokens 1) (cmd_name cci) =? 0 then
        let '(_, w', o) := func_run (func cci) num_tokens tokens w in
        mk_exec_result 0 w' (log_debug w ("Handle command" +:+ nl) ++ o)
          [mk_func_call (func cci) num_tokens tokens]
      else find_cmd rest num_tokens tokens w
  end.

(** The body of the client loop of [cmd_execute] once the first token
    matched the name of [ci]. *)
Definition cmd_execute_client (ci : cmd_client_info) (tokens0 : list string)
    (w : cmd_mod) : exec_result :=
  let num_tokens := Z.of_nat (length tokens0) in
  (* If there is no command, create a dummy. *)
  let tokens := if num_tokens =? 1 then tokens0 ++ [""] else tokens0 in
  if (strcasecmp (token tokens 1) "help" =? 0) || (strcasecmp (token tokens 1) "?" =? 0)
  then
    mk_result 0 w
      (log_debug w ("Handle client help" +:+ nl)
       ++ map (fun cci =>
                 Printf (name ci +:+ " " +:+ cmd_name cci +:+ ": " +:+ help cci +:+ nl))
            (client_cmds ci)
       ++ (if log_level_ptr ci is Some _
           then [Printf (name ci +:+ " log: set or get log level, args: [level]" +:+ nl)]
           else [])
       ++ (if 0 <? num_u16_pms ci
           then [Printf (name ci +:+ " pm: get or clear performance measurements, "
                         +:+ "args: [clear]" +:+ nl)]
           else [])
       ++ (if log_level_ptr ci is Some _
           then [Printf (nl +:+ "Log levels are: " +:+ LOG_LEVEL_NAMES +:+ nl)]
           else []))
  else if strcasecmp (token tokens 1) "log" =? 0 then
    let dbg := log_debug w ("Handle command log" +:+ nl) in
    match log_level_ptr ci with
    | Some p =>
        if num_tokens <? 3 then
          mk_result 0 w
            (dbg ++ [Printf ("Log level for " +:+ name ci +:+ " = "
                             +:+ log_level_str (load_i32 p w) +:+ nl)])
        else
          let log_level := log_level_int (token tokens 2) in
          if log_level <? 0 then
            mk_result MOD_ERR_ARG w
              (dbg ++ [Printf ("Invalid log level: " +:+ token tokens 2 +:+ nl)])
          else mk_result 0 (store_i32 p log_level w) dbg
    | None => mk_result 0 w dbg
    end
  else if strcasecmp (token tokens 1) "pm" =? 0 then
    let clear := (3 <=? num_tokens) && (strcasecmp (token tokens 2) "clear" =? 0) in
    if 0 <? num_u16_pms ci then
      let hdr :=
        if clear
        then Printf ("Clearing performance measurements for " +:+ name ci +:+ nl)
        else Printf (name ci +:+ ":" +:+ nl) in
      let '(w', o) := pm_loop (seq 0 (Z.to_nat (num_u16_pms ci))) ci clear w [hdr] in
      mk_result 0 w' o
    else mk_result 0 w []
  else find_cmd (client_cmds ci) num_tokens tokens w.

(** The client loop of [cmd_execute], for the clients still to visit. *)
Fixpoint find_client (cis : list cmd_client_info) (tokens : list string)
    (w : cmd_mod) : exec_result :=
  match cis with
  | [] =>
      mk_result MOD_ERR_BAD_CMD w
        [Printf ("No such command (" +:+ token tokens 0 +:+ ")" +:+ nl)]
  | ci :: rest =>
      if negb (strcasecmp (token tokens 0) (name ci) =? 0)
      then find_client rest tokens w
      else cmd_execute_client ci tokens w
  end.

Definition cmd_execute (bfr : string) (w : cmd_mod) : exec_result :=
  match tokenize (c_str bfr) [] with
  | TooManyTokens => mk_result MOD_ERR_BAD_CMD w [Printf ("Too many tokens" +:+ nl)]
  | Tokens tokens =>
      let num_tokens := Z.of_nat (length tokens) in
      if num_tokens =? 0 then mk_result 0 w []
      else if strcmp "*" (token tokens 0) =? 0 then cmd_execute_wildcard tokens w
      else if (strcasecmp "help" (token tokens 0) =? 0)
              || (strcasecmp "?" (token tokens 0) =? 0)
      then cmd_execute_help w
      else find_client (registered w) tokens w
  end.

End Execute.

(** What [cmd_parse_args] does: the return value, the entries of [arg_vals]
    it completed, and the console output. *)
Record parse_result : Type := mk_parse_result {
  parse_rc : Z;
  arg_vals : list cmd_arg_val;
  parse_out : list console_out
}.

Definition parse_error (r : Z) (vals : list cmd_arg_val) (text : string) : parse_result :=
  mk_parse_result r vals [Printf text].

(** The [while] loop over [fmt] of [cmd_parse_args] and the check after it.
    [argv] is the array from the current position of the pointer; reading it
    past its end is taken as reading [NULL]. *)
Fixpoint cmd_parse_args_loop (fmt : string) (argc : Z) (argv : list string)
    (arg_cnt : Z) (opt_args : bool) (vals : list cmd_arg_val) : parse_result :=
  match fmt with
  | EmptyString =>
      if arg_cnt <? argc
      then parse_error MOD_ERR_BAD_CMD vals ("Too many arguments" +:+ nl)
      else mk_parse_result arg_cnt vals []
  | String c fmt' =>
      if Ascii.eqb c "[" then cmd_parse_args_loop fmt' argc argv arg_cnt true vals
      else if Ascii.eqb c "]" then cmd_parse_args_loop fmt' argc argv arg_cnt opt_args vals
      else if argc <=? arg_cnt then
        if opt_args then mk_parse_result arg_cnt vals []
        else parse_error MOD_ERR_BAD_CMD vals ("Insufficient arguments" +:+ nl)
      else
        match argv with
        | [] | EmptyString :: _ =>
            parse_error MOD_ERR_BAD_CMD vals ("Invalid empty arguments" +:+ nl)
        | arg :: argv' =>
            let next v :=
              cmd_parse_args_loop fmt' argc argv' (arg_cnt + 1) false
                (vals ++ [mk_cmd_arg_val c v]) in
            if Ascii.eqb c "i" then
              let '(v, endptr) := strtol arg 0 in
              if negb (String.eqb endptr "") then
                parse_error MOD_ERR_ARG vals
                  ("Argument '" +:+ arg +:+ "' not a valid integer" +:+ nl)
              else next (val_i v)
            else if Ascii.eqb c "u" then
              let '(v, endptr) := strtoul arg 0 in
              if negb (String.eqb endptr "") then
                parse_error MOD_ERR_ARG vals
                  ("Argument '" +:+ arg +:+ "' not a valid unsigned integer" +:+ nl)
              else next (val_u v)
            else if Ascii.eqb c "p" then
              let '(v, endptr) := strtoul arg 16 in
              if negb (String.eqb endptr "") then
                parse_error MOD_ERR_ARG vals
                  ("Argument '" +:+ arg +:+ "' not a valid pointer" +:+ nl)
              else next (val_p v)
            else if Ascii.eqb c "s" then next (val_s arg)
            else
              parse_error MOD_ERR_ARG vals
                ("Bad argument format '" +:+ String c EmptyString +:+ "'" +:+ nl)
        end
  end.

Definition cmd_parse_args (argc : Z) (argv : list string) (fmt : string) : parse_result :=
  cmd_parse_args_loop fmt argc argv 0 false [].

(** The client at which the client loop of [cmd_execute] stops for a first
    token [tok0]: the first registered one whose name matches it. *)
Fixpoint first_client (cis : list cmd_client_info) (tok0 : string)
  : option cmd_client_info :=
  match cis with
  | [] => None
  | ci :: rest =>
      if strcasecmp tok0 (name ci) =? 0 then Some ci else first_client rest tok0
  end.

(** The second tokens the client branch of [cmd_execute] handles itself. *)
Definition is_help (tok : string) : bool :=
  (strcasecmp tok "help" =? 0) || (strcasecmp tok "?" =? 0).

Definition intercepted (tok : string) : bool :=
  is_help tok || (strcasecmp tok "log" =? 0) || (strcasecmp tok "pm" =? 0).

(** The tokens [cmd_parse_args] takes for type code [u]: not empty, and
    [strtoul] with base 0 leaves nothing unconsumed. *)
Definition valid_u (arg : string) : bool :=
  negb (String.eqb arg "") && String.eqb (strtoul arg 0).2 "".

(** A decimal numeral: a digit from 1 to 9, then any digits. *)
Definition is_dec_digit (c : ascii) : bool :=
  (48 <=? char_code c) && (char_code c <=? 57).

Fixpoint all_dec_digits (s : string) : bool :=
  match s with
  | EmptyString => true
  | String c s' => is_dec_digit c && all_dec_digits s'
  end.

Definition is_decimal (s : string) : bool :=
  match s with
  | EmptyString => false
  | String c s' => is_dec_digit c && negb (char_code c =? 48) && all_dec_digits s'
  end.

(** The entry of [arg_vals] that type code [u] writes for [arg]. *)
Definition u_val (arg : string) : cmd_arg_val :=
  mk_cmd_arg_val "u" (val_u (strtoul arg 0).1).

(** *** Example states *)

(** The registration of [tmr.c], with its log level at address 7, and a
    client that lends neither a log level nor counters and has commands
    named [log] and [pm]. *)
Definition tmr_client : cmd_client_info :=
  mk_cmd_client_info "tmr" 2
    [mk_cmd_cmd_info "status" 1%nat "Get module status, usage: tmr status";
     mk_cmd_cmd_info "test" 2%nat "Run test, usage: tmr test"]
    (Some 7%nat) 0 0%nat [].

Definition led_client : cmd_client_info :=
  mk_cmd_client_info "led" 3
    [mk_cmd_cmd_info "status" 3%nat "usage: led status";
     mk_cmd_cmd_info "log" 4%nat "usage: led log";
     mk_cmd_cmd_info "pm" 5%nat "usage: led pm"]
    None 0 0%nat [].

Definition demo_cmd : cmd_mod :=
  mk_cmd_mod
    ([Some tmr_client; Some led_client] ++ replicate 8 None)
    LOG_DEFAULT true
    (<[7%nat := LOG_INFO]> ∅)
    ∅.

(** Handlers that print their address and return it. *)
Definition echo_func (f : nat) (argc : Z) (argv : list string) (w : cmd_mod)
  : Z * cmd_mod * list console_out :=
  (Z.of_nat f, w, [Printf (pretty f)]).

End Cmd.

(** ** Timer pool: further definitions *)

Module TmrExt.
Import Tmr.

(** The slot [tmr_inst_get] and [tmr_inst_get_cb] set up. *)
Definition fresh_tmr (ms now : Z) (cb : option nat) (user_data : Z)
    (ti : tmr_inst_info) : tmr_inst_info :=
  mk_tmr_inst_info ms (if ms =? 0 then start_time ti else now)
    (if ms =? 0 then TMR_STOPPED else TMR_RUNNING) cb user_data.

(** Calls of [tmr_inst_get], one per timeout in [mss]; the return values are
    collected. *)
Fixpoint get_seq (mss : list Z) (m : tmr_mod) : list Z * tmr_mod :=
  match mss with
  | [] => ([], m)
  | ms :: rest =>
      let '(r, m1, _) := tmr_inst_get ms m in
      let '(rs, m2) := get_seq rest m1 in
      (r :: rs, m2)
  end.

(** The first [k] slots of the pool are taken and the others are unused. *)
Definition filled (k : nat) (m : tmr_mod) : Prop :=
  pool_wf m
  /\ forall j tj, tmrs m !! j = Some tj ->
       ((j < k)%nat -> state tj <> TMR_UNUSED)
       /\ ((k <= j)%nat -> state tj = TMR_UNUSED).

(** What [tmr_run] does to a slot without a callback when the clock shows
    [now]: a running timer that is due becomes expired. *)
Definition expire_due (now : Z) (ti : tmr_inst_info) : tmr_inst_info :=
  if tmr_state_eqb (state ti) TMR_RUNNING
     && (period_ms ti <=? u32 (now - start_time ti))
  then set_state TMR_EXPIRED ti else ti.

(** Everything but the slots is the same in the two module states. *)
Definition other_vars_eq (m m' : tmr_mod) : Prop :=
  tick_ms_ctr m = tick_ms_ctr m' /\ log_level m = log_level m'
  /\ last_ms m = last_ms m' /\ _log_active m = _log_active m'.

(** [e] tick interrupts in a row. *)
Fixpoint ticks (e : nat) (m : tmr_mod) : tmr_mod :=
  match e with
  | O => m
  | S e' => tmr_SysTick_Handler (ticks e' m)
  end.

(** *** Example states *)

(** [busy_pool] after slot 2 was released. *)
Definition freed_pool : tmr_mod := (tmr_inst_release 2 busy_pool).2.

(** A pool of timers without callbacks, the last slot unused; the clock is
    at 1000 and [tmr_run] last ran at 990. *)
Definition polled_pool : tmr_mod :=
  mk_tmr_mod 1000
    [mk_tmr_inst_info 10 995 TMR_RUNNING None 0;
     mk_tmr_inst_info 0 0 TMR_STOPPED None 0;
     mk_tmr_inst_info 20 900 TMR_EXPIRED None 0;
     mk_tmr_inst_info 100 800 TMR_RUNNING None 0;
     tmr_zero]
    LOG_DEFAULT 990 true.

End TmrExt.

(** ** Serial ports: further definitions *)

Module TtysExt.
Import Ttys.

(** *** One producer and one consumer per ring *)

(** The consumer side of the transmit ring and all of the receive ring of
    [st'] are those of [st]: what [ttys_putc] must leave alone. *)
Definition putc_keeps (st st' : ttys_state) : Prop :=
  tx_buf_get_idx st' = tx_buf_get_idx st
  /\ rx_buf st' = rx_buf st /\ rx_buf_get_idx st' = rx_buf_get_idx st
  /\ rx_buf_put_idx st' = rx_buf_put_idx st.

(** Every field of the instance but the get index of the receive ring: what
    [ttys_getc] must leave alone. *)
Definition getc_keeps (st st' : ttys_state) : Prop :=
  cfg st' = cfg st /\ stream st' = stream st /\ fd st' = fd st
  /\ uart_reg_base st' = uart_reg_base st
  /\ tx_buf st' = tx_buf st /\ tx_buf_get_idx st' = tx_buf_get_idx st
  /\ tx_buf_put_idx st' = tx_buf_put_idx st
  /\ rx_buf st' = rx_buf st /\ rx_buf_put_idx st' = rx_buf_put_idx st.

(** The producer side of the transmit ring and the consumer side of the
    receive ring: what the interrupt handler must leave alone. *)
Definition irq_keeps (st st' : ttys_state) : Prop :=
  tx_buf st' = tx_buf st /\ tx_buf_put_idx st' = tx_buf_put_idx st
  /\ rx_buf_get_idx st' = rx_buf_get_idx st.

(** The status value has the receive flag only, the transmit flag only, or
    neither of them and no error flag. *)
Definition only_rxne (bits : usart_sr_bits) (SR : Z) : Prop :=
  sr_flag (u8 SR) (LL_USART_SR_RXNE bits) = true
  /\ sr_flag (u8 SR) (LL_USART_SR_TXE bits) = false
  /\ sr_flag (u8 SR)
       (Z.lor (LL_USART_SR_ORE bits)
          (Z.lor (LL_USART_SR_NE bits)
             (Z.lor (LL_USART_SR_FE bits) (LL_USART_SR_PE bits)))) = false.

Definition only_txe (bits : usart_sr_bits) (SR : Z) : Prop :=
  sr_flag (u8 SR) (LL_USART_SR_RXNE bits) = false
  /\ sr_flag (u8 SR) (LL_USART_SR_TXE bits) = true
  /\ sr_flag (u8 SR)
       (Z.lor (LL_USART_SR_ORE bits)
          (Z.lor (LL_USART_SR_NE bits)
             (Z.lor (LL_USART_SR_FE bits) (LL_USART_SR_PE bits)))) = false.

(** The flag of the status value [sr] that the error branch tests for the
    counter [pm]. *)
Definition err_flagged (bits : usart_sr_bits) (sr : Z) (pm : nat) : bool :=
  if (pm =? CNT_RX_UART_ORE)%nat then sr_flag sr (LL_USART_SR_ORE bits)
  else if (pm =? CNT_RX_UART_NE)%nat then sr_flag sr (LL_USART_SR_NE bits)
  else if (pm =? CNT_RX_UART_FE)%nat then sr_flag sr (LL_USART_SR_FE bits)
  else if (pm =? CNT_RX_UART_PE)%nat then sr_flag sr (LL_USART_SR_PE bits)
  else false.

(** Whether the interrupt handler, entered with status value [sr] while the
    instance is in state [st], counts in counter [pm]: a received character
    dropped because the receive ring is full, or one of the four error
    flags. *)
Definition irq_counts (bits : usart_sr_bits) (sr : Z) (st : ttys_state) (pm : nat)
  : bool :=
  ((pm =? CNT_RX_BUF_OVERRUN)%nat
   && sr_flag sr (LL_USART_SR_RXNE bits)
   && ((rx_buf_put_idx st + 1) mod TTYS_RX_BUF_SIZE =? rx_buf_get_idx st))
  || err_flagged bits sr pm.

(** *** Example states *)

(** [demo_mod] with the receive ring of instance 1 full. *)
Definition rx_full_mod : ttys_mod :=
  put_state 1
    (mk_ttys_state (mk_ttys_cfg true true) None 1 (Some 2%nat) 5 4 0 0
       (replicate (Z.to_nat TTYS_TX_BUF_SIZE) 0) (replicate (Z.to_nat TTYS_RX_BUF_SIZE) 66))
    demo_mod.

(** An open instance with the characters [cs] waiting in its receive ring,
    and [demo_mod] with instance 1 in that state. *)
Definition holding_state (cs : list Z) : ttys_state :=
  mk_ttys_state (mk_ttys_cfg true true) None 1 (Some 2%nat)
    0 (Z.of_nat (length cs)) 0 0
    (replicate (Z.to_nat TTYS_TX_BUF_SIZE) 0)
    (cs ++ replicate (Z.to_nat TTYS_RX_BUF_SIZE - length cs) 0).

Definition rx_holding (cs : list Z) : ttys_mod :=
  put_state 1 (holding_state cs) demo_mod.

End TtysExt.

(** ** The stdio glue of [ttys.c]: [_write] and [_read] *)

Module TtysIo.

Import Ttys.

Definition UART1_FD : Z := 4.
Definition UART2_FD : Z := 1.
Definition UART6_FD : Z := 3.

(** The values [_write] and [_read] store in [errno]. *)
Inductive errno_code : Type :=
  | EBADF
  | EAGAIN.

Section Fd.

(** [ttys.c] names a third instance [TTYS_INSTANCE_UART6], which the
    [ttys.h] of the repository does not declare; it is left open here. *)
Variable TTYS_INSTANCE_UART6 : nat.

Definition fd_to_instance (fd : Z) : nat :=
  if fd =? UART6_FD then TTYS_INSTANCE_UART6
  else if fd =? UART1_FD then TTYS_INSTANCE_UART1
  else if fd =? UART2_FD then TTYS_INSTANCE_UART2
  else TTYS_NUM_INSTANCES.

(** [ttys_states[instance_id].cfg.send_cr_after_nl] *)
Definition send_cr (instance_id : nat) (w : ttys_mod) : bool :=
  match ttys_states w !! instance_id with
  | Some st => send_cr_after_nl (cfg st)
  | None => false
  end.

(** The [for] loop of [_write] over the characters still to write; 10 is
    the line feed and 13 the carriage return. *)
Fixpoint _write_loop (instance_id : nat) (ptr : list Z) (w : ttys_mod) : ttys_mod :=
  match ptr with
  | [] => w
  | c :: rest =>
      let w1 := (ttys_putc instance_id c w).2 in
      let w2 :=
        if (c =? 10) && send_cr instance_id w1
        then (ttys_putc instance_id 13 w1).2 else w1 in
      _write_loop instance_id rest w2
  end.

(** [_write(file, ptr, len)]: the return value, the value stored in [errno]
    if any, and the module afterwards.  [ptr] holds at least [len]
    characters. *)
Definition _write (file : Z) (ptr : list Z) (len : Z) (w : ttys_mod)
  : Z * option errno_code * ttys_mod :=
  let instance_id := fd_to_instance file in
  if (TTYS_NUM_INSTANCES <=? instance_id)%nat then (-1, Some EBADF, w)
  else (len, None, _write_loop instance_id (take (Z.to_nat len) ptr) w).

(** The [while] loop of [_read] with room for [n] more characters: the
    characters stored through [ptr] and the module afterwards. *)
Fixpoint _read_loop (instance_id : nat) (n : nat) (w : ttys_mod) : list Z * ttys_mod :=
  match n with
  | O => ([], w)
  | S n' =>
      let '(r, c, w1) := ttys_getc instance_id w in
      if r =? 0 then ([], w1)
      else
        let '(cs, w2) := _read_loop instance_id n' w1 in
        (default 0 c :: cs, w2)
  end.

(** [_read(file, ptr, len)]: the return value, the value stored in [errno]
    if any, the characters stored through [ptr], and the module
    afterwards. *)
Definition _read (file : Z) (len : Z) (w : ttys_mod)
  : Z * option errno_code * list Z * ttys_mod :=
  let instance_id := fd_to_instance file in
  if (TTYS_NUM_INSTANCES <=? instance_id)%nat then (-1, Some EBADF, [], w)
  else
    match ttys_states w !! instance_id with
    | None => (-1, Some EBADF, [], w)
    | Some st =>
        if rx_buf_get_idx st =? rx_buf_put_idx st then (-1, Some EAGAIN, [], w)
        else
          let '(cs, w') := _read_loop instance_id (Z.to_nat len) w in
          (Z.of_nat (length cs), None, cs, w')
    end.

End Fd.

(** What [_write] puts in the transmit ring for the characters [cs]: a
    carriage return follows each line feed when [send_cr_after_nl] is set. *)
Fixpoint crlf (cr : bool) (cs : list Z) : list Z :=
  match cs with
  | [] => []
  | c :: rest =>
      if (c =? 10) && cr then c :: 13 :: crlf cr rest else c :: crlf cr rest
  end.

End TtysIo.

(** ** Command interpreter: further definitions *)

Module CmdExt.
Import Libc Cmd.

(** *** The registry *)

(** The registry holds the clients [cis], in this order, in its first slots
    and [NULL] in the others. *)
Definition registry_is (cis : list cmd_client_info) (w : cmd_mod) : Prop :=
  (length cis <= Z.to_nat CMD_MAX_CLIENTS)%nat
  /\ client_info w
     = (Some <$> cis) ++ replicate (Z.to_nat CMD_MAX_CLIENTS - length cis) None.

(** *** Commands that set and show log levels *)

(** The addresses of the log level variables of the clients [cis]. *)
Definition log_level_ptrs (cis : list cmd_client_info) : list nat :=
  omap log_level_ptr cis.

(** *** Commands addressed to one client *)

(** The tokens of a command line that reaches the client loop of
    [cmd_execute] and stops there at client [ci]. *)
Definition addressed_to (w : cmd_mod) (tokens : list string) (ci : cmd_client_info)
  : Prop :=
  tokens <> []
  /\ strcmp "*" (token tokens 0) <> 0
  /\ strcasecmp "help" (token tokens 0) <> 0
  /\ strcasecmp "?" (token tokens 0) <> 0
  /\ first_client (registered w) (token tokens 0) = Some ci.

(** The command at which the command loop stops for a second token [tok1]. *)
Fixpoint first_cmd (ccis : list cmd_cmd_info) (tok1 : string) : option cmd_cmd_info :=
  match ccis with
  | [] => None
  | cci :: rest =>
      if strcasecmp tok1 (cmd_name cci) =? 0 then Some cci else first_cmd rest tok1
  end.

(** [argv] as a handler sees it: with the dummy command when there is none. *)
Definition argv_of (tokens : list string) : list string :=
  if Z.of_nat (length tokens) =? 1 then tokens ++ [""%string] else tokens.

(** The inner loop of [tokenize], which finds the end of a token. *)
Definition tokenize_scan (tokens : list string) : string -> string -> tok_result :=
  fix scan (q : string) (tok : string) {struct q} : tok_result :=
    match q with
    | EmptyString => Tokens (tokens ++ [tok])
    | String d q' =>
        if isspace d then tokenize q' (tokens ++ [tok])
        else scan q' (tok +:+ String d EmptyString)
    end.

(** Text without white space, and text of white space only. *)
Fixpoint no_space (s : string) : bool :=
  match s with
  | EmptyString => true
  | String c s' => negb (isspace c) && no_space s'
  end.

Fixpoint all_space (s : string) : bool :=
  match s with
  | EmptyString => true
  | String c s' => isspace c && all_space s'
  end.

Definition is_word (s : string) : bool :=
  negb (String.eqb s "") && no_space s.

(** A line of words, each after a gap. *)
Fixpoint spaced (ws : list (string * string)) : string :=
  match ws with
  | [] => ""
  | (gap, word) :: rest => gap +:+ word +:+ spaced rest
  end.

(** Every word is one, every gap is white space, and only the first gap may
    be empty. *)
Definition well_spaced (ws : list (string * string)) : Prop :=
  Forall (fun gw => all_space gw.1 = true /\ is_word gw.2 = true) ws
  /\ Forall (fun gw => gw.1 <> ""%string) (tail ws).

(** The type letters of a format: its characters other than the brackets. *)
Fixpoint fmt_letters (fmt : string) : list ascii :=
  match fmt with
  | EmptyString => []
  | String c fmt' =>
      if Ascii.eqb c "[" || Ascii.eqb c "]" then fmt_letters fmt'
      else c :: fmt_letters fmt'
  end.

(** What [cmd_parse_args_loop] achieves from any point on, with [vals] the
    entries written before: entries are only added, with the letters of
    the rest of the format; an error comes with one diagnostic, and success
    with no output and as many entries as there are arguments. *)
Definition parse_ok (argc : Z) (vals : list cmd_arg_val) (fmt : string)
    (r : parse_result) : Prop :=
  (exists more, arg_vals r = vals ++ more
                /\ map type more = take (length more) (fmt_letters fmt))
  /\ (parse_rc r < 0 ->
      (parse_rc r = MOD_ERR_BAD_CMD \/ parse_rc r = MOD_ERR_ARG)
      /\ exists text, parse_out r = [Printf text])
  /\ (0 <= parse_rc r ->
      parse_out r = []
      /\ parse_rc r = Z.of_nat (length (arg_vals r))
      /\ parse_rc r = Z.max 0 argc).

(** *** Example states *)

(** A client that is not registered in [demo_cmd], one whose name differs
    from that of [tmr_client] in case only, and one that lends three
    counters, at addresses 100 to 102. *)
Definition dio_client : cmd_client_info :=
  mk_cmd_client_info "dio" 1
    [mk_cmd_cmd_info "status" 6%nat "Get module status, usage: dio status"]
    None 0 0%nat [].

Definition tmr_client_v2 : cmd_client_info :=
  mk_cmd_client_info "TMR" 0 [] (Some 7%nat) 0 0%nat [].

Definition ttys_client : cmd_client_info :=
  mk_cmd_client_info "ttys" 0 [] None 3 100%nat
    ["uart rx overrun errors"; "uart rx noise errors"; "uart rx frame errors"].

(** A registry without a free slot, and one with [ttys_client] and values in
    its counters. *)
Definition full_cmd : cmd_mod :=
  set_client_info (replicate (Z.to_nat CMD_MAX_CLIENTS) (Some tmr_client)) demo_cmd.

Definition pm_cmd : cmd_mod :=
  mk_cmd_mod
    ([Some ttys_client] ++ replicate 9 None)
    LOG_DEFAULT true
    ∅
    (<[100%nat := 5]> (<[101%nat := 0]> (<[102%nat := 7]> (<[103%nat := 9]> ∅)))).

End CmdExt.

(** ** [stat.c]: duration statistics on the millisecond clock of [tmr.c] *)

Module Stat.
Import Tmr.

Definition UINT32_MAX : Z := 2 ^ 32 - 1.
Definition u64 (z : Z) : Z := z mod 2 ^ 64.

(** [struct stat_dur] *)
Record stat_dur : Type := mk_stat_dur {
  accum_ms : Z;
  start_ms : Z;
  min : Z;
  max : Z;
  samples : Z;
  started : bool
}.

Definition stat_dur_init : stat_dur :=
  mk_stat_dur 0 0 UINT32_MAX 0 0 false.

Definition stat_dur_start (m : tmr_mod) (stat : stat_dur) : stat_dur :=
  mk_stat_dur (accum_ms stat) (tmr_get_ms m) (min stat) (max stat) (samples stat) true.

(** The lines both [stat_dur_end] and [stat_dur_restart] have: record the
    duration [dur]. *)
Definition record_dur (dur : Z) (stat : stat_dur) : stat_dur :=
  mk_stat_dur (u64 (accum_ms stat + dur)) (start_ms stat)
    (if dur <? min stat then dur else min stat)
    (if max stat <? dur then dur else max stat)
    (u32 (samples stat + 1)) (started stat).

Definition set_started (b : bool) (stat : stat_dur) : stat_dur :=
  mk_stat_dur (accum_ms stat) (start_ms stat) (min stat) (max stat) (samples stat) b.

Definition set_start_ms (t : Z) (stat : stat_dur) : stat_dur :=
  mk_stat_dur (accum_ms stat) t (min stat) (max stat) (samples stat) (started stat).

Definition stat_dur_end (m : tmr_mod) (stat : stat_dur) : stat_dur :=
  if (samples stat =? UINT32_MAX) || negb (started stat) then stat
  else
    let stat := set_started false stat in
    let dur := u32 (tmr_get_ms m - start_ms stat) in
    record_dur dur stat.

Definition stat_dur_restart (m : tmr_mod) (stat : stat_dur) : stat_dur :=
  if samples stat =? UINT32_MAX then stat
  else
    let now_ms := tmr_get_ms m in
    let stat :=
      if started stat then record_dur (u32 (now_ms - start_ms stat)) stat
      else stat in
    set_start_ms now_ms (set_started true stat).

Definition stat_dur_avg_us (stat : stat_dur) : Z :=
  if samples stat =? 0 then 0
  else u32 (u64 (accum_ms stat * 1000) / samples stat).

(** The super loop calls [stat_dur_restart] once in each iteration; [es]
    are the numbers of SysTick interrupts before each of the calls. *)
Fixpoint restart_loop (es : list nat) (m : tmr_mod) (stat : stat_dur) : stat_dur :=
  match es with
  | [] => stat
  | e :: rest =>
      restart_loop rest (TmrExt.ticks e m) (stat_dur_restart (TmrExt.ticks e m) stat)
  end.

(** What the fields of a statistic keep between calls. *)
Definition stat_ok (stat : stat_dur) : Prop :=
  0 <= samples stat <= UINT32_MAX
  /\ 0 <= min stat <= UINT32_MAX
  /\ 0 <= max stat <= UINT32_MAX
  /\ 0 <= start_ms stat <= UINT32_MAX
  /\ samples stat * min stat <= accum_ms stat <= samples stat * max stat.

(** *** Example states *)

(** Three samples of 5, 5 and 20 ms, and a measurement started at 1000. *)
Definition loop_stat : stat_dur := mk_stat_dur 30 1000 5 20 3 true.

End Stat.

(** ** [console.c]: the command line editor between [ttys.c] and [cmd.c] *)

Module Console.
Import Libc Cmd.

Definition PROMPT : string := "> ".
Definition CONSOLE_CMD_BFR_SIZE : Z := 80.
(** [LOG_TOGGLE_CHAR] of [log.h], a form feed. *)
Definition LOG_TOGGLE_CHAR : Z := 12.

(** The [char] with a given code, and the characters the code names. *)
Definition char_of (c : Z) : ascii := ascii_of_N (Z.to_N c).
Definition NUL : ascii := char_of 0.
Definition BS : ascii := char_of 8.
Definition BEL : ascii := char_of 7.

(** [isprint] of [<ctype.h>] in the "C" locale. *)
Definition isprint (c : Z) : bool := (32 <=? c) && (c <=? 126).

(** [struct console_state]; of [cfg] the code uses [ttys_instance_id]. *)
Record console_state : Type := mk_console_state {
  ttys_instance_id : nat;
  cmd_bfr : list ascii;
  num_cmd_bfr_chars : Z;
  first_run_done : bool
}.

(** The command line after the tokenizer of [cmd_execute] has run over it in
    place: the white space that ends a token is overwritten with NUL.  [p] is
    the array from the current position; nothing is written once the loop
    ends at a NUL or at the eleventh token. *)
Fixpoint tokenize_bfr (p : list ascii) (num_tokens : Z) {struct p} : list ascii :=
  match p with
  | [] => []
  | c :: p' =>
      if char_code c =? 0 then p
      else if isspace c then c :: tokenize_bfr p' num_tokens
      else if MAX_CMD_TOKENS <=? num_tokens then p
      else
        c :: (fix scan (q : list ascii) : list ascii :=
                match q with
                | [] => []
                | d :: q' =>
                    if char_code d =? 0 then q
                    else if isspace d then NUL :: tokenize_bfr q' (num_tokens + 1)
                    else d :: scan q'
                end) p'
  end.

(** The inner loop of [tokenize_bfr], which finds the end of a token. *)
Definition tokenize_bfr_scan (num_tokens : Z) : list ascii -> list ascii :=
  fix scan (q : list ascii) : list ascii :=
    match q with
    | [] => []
    | d :: q' =>
        if char_code d =? 0 then q
        else if isspace d then NUL :: tokenize_bfr q' (num_tokens + 1)
        else d :: scan q'
    end.

(** What [console_run] works on: its own state, the variables of [cmd.c]
    and [log.c], the calls of [printf] made so far and the command handlers
    called so far.

    The serial ports are not part of it.  [console_run] reaches them through
    [ttys_getc] only, and the results of those calls are an input of the
    model (see [console_run_loop]): nothing is assumed about who else fills
    or empties the receive ring while the loop runs, be it the interrupt
    handler or a command handler.  A call of [printf] is recorded with its
    text; how the C library passes the text on to [_write], and what that
    does to a transmit ring, is not described here. *)
Record console_world : Type := mk_console_world {
  state : console_state;
  cmds : cmd_mod;
  printed : list console_out;
  called : list func_call
}.

Definition printf (text : string) (k : console_world) : console_world :=
  mk_console_world (state k) (cmds k) (printed k ++ [Printf text]) (called k).

Definition set_console_state (st : console_state) (k : console_world) : console_world :=
  mk_console_world st (cmds k) (printed k) (called k).

Definition set_cmd_bfr (b : list ascii) (st : console_state) : console_state :=
  mk_console_state (ttys_instance_id st) b (num_cmd_bfr_chars st) (first_run_done st).

Definition set_num_cmd_bfr_chars (n : Z) (st : console_state) : console_state :=
  mk_console_state (ttys_instance_id st) (cmd_bfr st) n (first_run_done st).

Definition set_first_run_done (b : bool) (st : console_state) : console_state :=
  mk_console_state (ttys_instance_id st) (cmd_bfr st) (num_cmd_bfr_chars st) b.

(** [log_toggle_active] of [log.c]. *)
Definition log_toggle_active (w : cmd_mod) : cmd_mod :=
  mk_cmd_mod (client_info w) (log_level w) (if _log_active w then false else true)
    (i32_mem w) (u16_mem w).

Section Run.

Variable func_run : nat -> Z -> list string -> cmd_mod -> Z * cmd_mod * list console_out.

(** The body of the [while] loop of [console_run] for a character [c]. *)
Definition console_char (c : Z) (k : console_world) : console_world :=
  let st := state k in
  if (c =? 10) || (c =? 13) then
    (* Handle processing completed command line. *)
    let bfr := <[Z.to_nat (num_cmd_bfr_chars st) := NUL]> (cmd_bfr st) in
    let k := printf nl k in
    let r := cmd_execute func_run (string_of_list_ascii bfr) (cmds k) in
    let st := set_num_cmd_bfr_chars 0 (set_cmd_bfr (tokenize_bfr bfr 0) st) in
    printf PROMPT
      (mk_console_world st (world r) (printed k ++ out r) (called k ++ calls r))
  else if (c =? 8) || (c =? 127) then
    (* Handle backspace/delete. *)
    if 0 <? num_cmd_bfr_chars st then
      let k := printf (String BS (String " " (String BS EmptyString))) k in
      set_console_state (set_num_cmd_bfr_chars (u16 (num_cmd_bfr_chars st - 1)) st) k
    else k
  else if c =? LOG_TOGGLE_CHAR then
    (* Handle logging on/off toggle. *)
    let w := log_toggle_active (cmds k) in
    printf (nl +:+ "<Logging " +:+ (if _log_active w then "on" else "off") +:+ ">" +:+ nl)
      (mk_console_world st w (printed k) (called k))
  else if isprint c then
    (* Echo the character back. *)
    if num_cmd_bfr_chars st <? CONSOLE_CMD_BFR_SIZE - 1 then
      let st :=
        set_num_cmd_bfr_chars (u16 (num_cmd_bfr_chars st + 1))
          (set_cmd_bfr (<[Z.to_nat (num_cmd_bfr_chars st) := char_of c]> (cmd_bfr st)) st) in
      printf (String (char_of c) EmptyString) (set_console_state st k)
    else printf (String BEL EmptyString) k
  else k.

(** [while (ttys_getc(state.cfg.ttys_instance_id, &c))], given the results
    [rs] of the successive calls of [ttys_getc]: the value returned, and the
    character stored through [&c] if one is.  [c] is the value of the
    variable [c], which a call that stores nothing leaves as it is.  The
    loop ends at the first result 0; [None] when [rs] has none, that is when
    the calls described do not end the loop. *)
Fixpoint console_run_loop (rs : list (Z * option Z)) (c : Z) (k : console_world)
  : option console_world :=
  match rs with
  | [] => None
  | (r, oc) :: rs' =>
      if r =? 0 then Some k
      else
        let c := default c oc in
        console_run_loop rs' c (console_char c k)
  end.

(** [console_run], given the results [rs] of its calls of [ttys_getc]; [c0]
    is the indeterminate first value of [c]. *)
Definition console_run (rs : list (Z * option Z)) (c0 : Z) (k : console_world)
  : option (Z * console_world) :=
  let k :=
    if first_run_done (state k) then k
    else printf PROMPT (set_console_state (set_first_run_done true (state k)) k) in
  match console_run_loop rs c0 k with
  | Some k' => Some (0, k')
  | None => None
  end.

End Run.

(** The loop bodies for the characters [cs], first to last. *)
Definition console_chars
    (func_run : nat -> Z -> list string -> cmd_mod -> Z * cmd_mod * list console_out)
    (cs : list Z) (k : console_world) : console_world :=
  foldl (fun k c => console_char func_run c k) k cs.

(** The line typed so far. *)
Definition line (st : console_state) : list ascii :=
  take (Z.to_nat (num_cmd_bfr_chars st)) (cmd_bfr st).

(** What the state keeps between characters: the array has its 80 slots,
    the count stays below the last one, and the line is printable. *)
Definition console_ok (st : console_state) : Prop :=
  Z.of_nat (length (cmd_bfr st)) = CONSOLE_CMD_BFR_SIZE
  /\ 0 <= num_cmd_bfr_chars st <= CONSOLE_CMD_BFR_SIZE - 1
  /\ Forall (fun a => isprint (char_code a) = true) (line st).

(** What a character other than a line end does to the line typed so far. *)
Definition edit (c : Z) (ln : list ascii) : list ascii :=
  if (c =? 8) || (c =? 127) then removelast ln
  else if c =? LOG_TOGGLE_CHAR then ln
  else if isprint c then
    if Z.of_nat (length ln) <? CONSOLE_CMD_BFR_SIZE - 1 then ln ++ [char_of c] else ln
  else ln.

(** *** Example states *)

(** What [ttys_getc] returns when it delivers the characters [cs] one by
    one and then finds the receive ring empty. *)
Definition getc_results (cs : list Z) : list (Z * option Z) :=
  ((fun c => (1, Some c)) <$> cs) ++ [(0, None)].

(** The console on instance 1 after its first run, with an empty line and
    the clients of [demo_cmd] registered. *)
Definition typing_console : console_world :=
  mk_console_world
    (mk_console_state 1 (replicate (Z.to_nat CONSOLE_CMD_BFR_SIZE) NUL) 0 true)
    demo_cmd [] [].

(** The console as [console_init] leaves it for instance 1 ([memset] to
    zero, then the configuration), with the clients of [demo_cmd]. *)
Definition fresh_console : console_world :=
  mk_console_world
    (mk_console_state 1 (replicate (Z.to_nat CONSOLE_CMD_BFR_SIZE) NUL) 0 false)
    demo_cmd [] [].

End Console.

(** * Proofs *)

(** Case analysis on the integer comparisons of the goal and the context. *)
Ltac zcase :=
  repeat match goal with
    | |- context [?a <? ?b] => destruct (Z.ltb_spec a b)
    | |- context [?a <=? ?b] => destruct (Z.leb_spec a b)
    | |- context [?a =? ?b] => destruct (Z.eqb_spec a b)
    | H : context [?a <? ?b] |- _ => destruct (Z.ltb_spec a b)
    | H : context [?a <=? ?b] |- _ => destruct (Z.leb_spec a b)
    | H : context [?a =? ?b] |- _ => destruct (Z.eqb_spec a b)
    end.

Module TmrProofs.
Import Tmr.

Lemma tmr_state_eqb_eq a b : tmr_state_eqb a b = true <-> a = b.
Proof. destruct a, b; simpl; split; intro H; try reflexivity; discriminate H. Qed.

Lemma tmr_state_eqb_neq a b : tmr_state_eqb a b = false <-> a <> b.
Proof.
  rewrite <- tmr_state_eqb_eq. destruct (tmr_state_eqb a b); split; intro H;
    try reflexivity; try discriminate H; try (intro Hc; discriminate Hc).
  exfalso; apply H; reflexivity.
Qed.

(** No slot is free: the search loop of [tmr_inst_get] finds nothing. *)
Lemma tmr_inst_get_loop_none idxs ms m :
  Forall (fun ti => state ti <> TMR_UNUSED) (tmrs m) ->
  tmr_inst_get_loop idxs ms m = None.
Proof.
  intros Hall. induction idxs as [|idx rest IH]; simpl; [reflexivity|].
  destruct (tmrs m !! idx) as [ti|] eqn:Hl; [|exact IH].
  assert (Hti : state ti <> TMR_UNUSED).
  { rewrite Forall_forall in Hall. apply Hall. eapply list_elem_of_lookup_2; eauto. }
  apply tmr_state_eqb_neq in Hti. rewrite Hti. exact IH.
Qed.

(** C6.  When no slot of the pool is in state [TMR_UNUSED], [tmr_inst_get]
    returns [MOD_ERR_RESOURCE] and leaves the module's variables as they
    were: every slot keeps its period, start time, state, callback and user
    data.  All it does is log "Out of timers". *)
Theorem tmr_inst_get_pool_exhausted (ms : Z) (m : tmr_mod) :
  Forall (fun ti => state ti <> TMR_UNUSED) (tmrs m) ->
  tmr_inst_get ms m = (MOD_ERR_RESOURCE, m, log_error m ("Out of timers" +:+ nl)).
Proof.
  intros Hall. unfold tmr_inst_get.
  rewrite (tmr_inst_get_loop_none _ ms m Hall). reflexivity.
Qed.

Lemma tmr_inst_get_pool_exhausted_witness :
  tmr_inst_get 50 busy_pool
  = (MOD_ERR_RESOURCE, busy_pool, [LogPrintf ("ERR  Out of timers" +:+ nl)]).
Proof.
  apply (tmr_inst_get_pool_exhausted 50 busy_pool).
  repeat constructor; simpl; discriminate.
Defined.


Lemma pool_lookup m tmr_id :
  pool_wf m -> 0 <= tmr_id < TMR_NUM_INST ->
  exists ti, tmrs m !! Z.to_nat tmr_id = Some ti.
Proof.
  intros Hwf Hr. apply lookup_lt_is_Some_2. rewrite Hwf. lia.
Qed.

(** C8.  [tmr_inst_start tmr_id ms] on a pool of [TMR_NUM_INST] slots: an
    id outside [0, TMR_NUM_INST) gives [MOD_ERR_ARG] and a slot in state
    [TMR_UNUSED] gives [MOD_ERR_STATE], both without any change; otherwise
    the result is 0, and the slot is [TMR_STOPPED] with period 0 when
    [ms = 0], and [TMR_RUNNING] with period [ms] and start time the current
    clock value when [ms <> 0], whatever its schedule was before.  The last
    part reads the module back after the call: the slot holds that record
    (its callback and user data kept), every other slot and every other
    variable of the module is as before. *)
Theorem tmr_inst_start_spec (tmr_id ms : Z) (m : tmr_mod) :
  pool_wf m ->
  (~ (0 <= tmr_id < TMR_NUM_INST) -> tmr_inst_start tmr_id ms m = (MOD_ERR_ARG, m))
  /\ (0 <= tmr_id < TMR_NUM_INST ->
      exists ti, tmrs m !! Z.to_nat tmr_id = Some ti
      /\ (state ti = TMR_UNUSED -> tmr_inst_start tmr_id ms m = (MOD_ERR_STATE, m))
      /\ (state ti <> TMR_UNUSED -> ms = 0 ->
          tmr_inst_start tmr_id ms m
          = (0, put_tmr (Z.to_nat tmr_id)
                  (mk_tmr_inst_info 0 (start_time ti) TMR_STOPPED
                     (cb_func ti) (cb_user_data ti)) m))
      /\ (state ti <> TMR_UNUSED -> ms <> 0 ->
          tmr_inst_start tmr_id ms m
          = (0, put_tmr (Z.to_nat tmr_id)
                  (mk_tmr_inst_info ms (tmr_get_ms m) TMR_RUNNING
                     (cb_func ti) (cb_user_data ti)) m))
      /\ (state ti <> TMR_UNUSED ->
          (tmr_inst_start tmr_id ms m).1 = 0
          /\ tmrs (tmr_inst_start tmr_id ms m).2 !! Z.to_nat tmr_id
             = Some (if ms =? 0
                     then mk_tmr_inst_info 0 (start_time ti) TMR_STOPPED
                            (cb_func ti) (cb_user_data ti)
                     else mk_tmr_inst_info ms (tmr_get_ms m) TMR_RUNNING
                            (cb_func ti) (cb_user_data ti))
          /\ (forall j, j <> Z.to_nat tmr_id ->
                        tmrs (tmr_inst_start tmr_id ms m).2 !! j = tmrs m !! j)
          /\ tick_ms_ctr (tmr_inst_start tmr_id ms m).2 = tick_ms_ctr m
          /\ last_ms (tmr_inst_start tmr_id ms m).2 = last_ms m
          /\ log_level (tmr_inst_start tmr_id ms m).2 = log_level m
          /\ _log_active (tmr_inst_start tmr_id ms m).2 = _log_active m)).
Proof.
  intros Hwf. split.
  - intros Hout. unfold tmr_inst_start.
    destruct (0 <=? tmr_id) eqn:H0; destruct (tmr_id <? TMR_NUM_INST) eqn:H1;
      simpl; try reflexivity.
    exfalso. apply Hout. lia.
  - intros Hin. destruct (pool_lookup m tmr_id Hwf Hin) as [ti Hti].
    exists ti. split; [exact Hti|].
    assert (Hlt : (Z.to_nat tmr_id < length (tmrs m))%nat)
      by (apply lookup_lt_is_Some_1; eauto).
    unfold tmr_inst_start. rewrite Hti.
    replace ((0 <=? tmr_id) && (tmr_id <? TMR_NUM_INST)) with true
      by (symmetry; apply andb_true_iff; split; lia).
    split; [|split; [|split]].
    + intros Hs. apply tmr_state_eqb_eq in Hs. rewrite Hs. reflexivity.
    + intros Hs Hms. apply tmr_state_eqb_neq in Hs. rewrite Hs. subst ms. reflexivity.
    + intros Hs Hms. apply tmr_state_eqb_neq in Hs. rewrite Hs. simpl.
      apply Z.eqb_neq in Hms. rewrite Hms. reflexivity.
    + intros Hs. apply tmr_state_eqb_neq in Hs. rewrite Hs. cbn [negb fst snd].
      split; [reflexivity|]. split.
      { cbn [put_tmr set_tmrs tmrs]. rewrite list_lookup_insert_eq by exact Hlt.
        destruct (Z.eqb_spec ms 0) as [->|_]; reflexivity. }
      split.
      { intros j Hj. cbn [put_tmr set_tmrs tmrs].
        apply list_lookup_insert_ne. congruence. }
      repeat split.
Qed.

Lemma tmr_inst_start_spec_witness :
  tmr_inst_start 1 30 busy_pool
  = (0, put_tmr 1 (mk_tmr_inst_info 30 1000 TMR_RUNNING (Some 3%nat) 7) busy_pool)
  /\ tmrs (tmr_inst_start 1 30 busy_pool).2 !! 1%nat
     = Some (mk_tmr_inst_info 30 1000 TMR_RUNNING (Some 3%nat) 7)
  /\ tmrs (tmr_inst_start 1 30 busy_pool).2 !! 3%nat
     = Some (mk_tmr_inst_info 100 800 TMR_RUNNING (Some 4%nat) 0)
  /\ tmr_inst_start 5 30 busy_pool = (MOD_ERR_ARG, busy_pool).
Proof.
  destruct (tmr_inst_start_spec 1 30 busy_pool eq_refl) as [_ H].
  destruct (H ltac:(unfold TMR_NUM_INST; lia)) as (ti & Hti & _ & _ & Hrun & Hread).
  cbn in Hti. injection Hti as <-.
  destruct (Hread ltac:(discriminate)) as (_ & Hslot & Hothers & _).
  split; [apply Hrun; [discriminate|lia]|].
  split; [exact Hslot|].
  split; [exact (Hothers 3%nat ltac:(discriminate))|].
  destruct (tmr_inst_start_spec 5 30 busy_pool eq_refl) as [H5 _].
  apply H5. unfold TMR_NUM_INST. lia.
Defined.

(** C10.  When the millisecond clock equals [last_ms], the value [tmr_run]
    recorded when it last went through the slots, [tmr_run] returns 0 at
    once: no callback is made and the module's variables, every timer slot
    among them, are unchanged, also when a running timer is due. *)
Theorem tmr_run_fast_exit
    (cb_run : nat -> Z -> Z -> tmr_mod -> tmr_cb_action * tmr_mod) (m : tmr_mod) :
  tmr_get_ms m = last_ms m ->
  tmr_run cb_run m = (0, m, []).
Proof.
  intros Heq. unfold tmr_run. rewrite Heq, Z.eqb_refl. reflexivity.
Qed.


Lemma restarts_app idx a b : restarts idx (a ++ b) = restarts idx a + restarts idx b.
Proof. induction a as [|c a IH]; simpl; [reflexivity|]. rewrite IH. lia. Qed.

Lemma u32_add_l a b : u32 (u32 a + b) = u32 (a + b).
Proof. unfold u32. apply Zplus_mod_idemp_l. Qed.

Section Drift.

Variable cb_run : nat -> Z -> Z -> tmr_mod -> tmr_cb_action * tmr_mod.
Variable idx : nat.

Local Abbreviation sched := (sched idx).
Local Abbreviation keeps_sched := (keeps_sched cb_run idx).

Lemma sched_put_other j ti m : j <> idx -> sched (put_tmr j ti m) = sched m.
Proof.
  intros Hne. unfold sched, put_tmr. simpl.
  rewrite list_lookup_insert_ne by exact Hne. reflexivity.
Qed.

Lemma sched_put_same ti m :
  is_Some (tmrs m !! idx) ->
  sched (put_tmr idx ti m) = Some (period_ms ti, start_time ti).
Proof.
  intros Hs. unfold sched, put_tmr. simpl.
  rewrite list_lookup_insert_eq; [reflexivity|].
  apply lookup_lt_is_Some_1. exact Hs.
Qed.

Lemma sched_put_keep j ti ti' m :
  tmrs m !! j = Some ti ->
  period_ms ti' = period_ms ti -> start_time ti' = start_time ti ->
  sched (put_tmr j ti' m) = sched m.
Proof.
  intros Hl Hp Hst. destruct (decide (j = idx)) as [->|Hne].
  - rewrite sched_put_same by eauto. unfold sched. rewrite Hl. congruence.
  - apply sched_put_other. exact Hne.
Qed.

(** One loop iteration: the schedule of slot [idx] moves by one period for
    each restart of that slot, and not otherwise. *)
Lemma tmr_run_slot_sched j st P start0 n :
  keeps_sched ->
  sched (run_mod st) = Some (P, u32 (start0 + P * n)) ->
  exists c,
    run_calls (tmr_run_slot cb_run j st) = run_calls st ++ c
    /\ sched (run_mod (tmr_run_slot cb_run j st))
       = Some (P, u32 (start0 + P * (n + restarts idx c))).
Proof.
  intros Hk Hs.
  assert (Hnone : exists c, run_calls st = run_calls st ++ c
            /\ sched (run_mod st) = Some (P, u32 (start0 + P * (n + restarts idx c)))).
  { exists []. rewrite app_nil_r. simpl. rewrite Z.add_0_r. auto. }
  unfold tmr_run_slot.
  destruct (tmrs (run_mod st) !! j) as [ti|] eqn:Hj; [|exact Hnone].
  destruct (tmr_state_eqb (state ti) TMR_RUNNING); [|exact Hnone].
  destruct (period_ms ti <=? u32 (now_ms st - start_time ti)); [|exact Hnone].
  clear Hnone.
  assert (Hexp : sched (put_tmr j (set_state TMR_EXPIRED ti) (run_mod st))
                 = Some (P, u32 (start0 + P * n))).
  { rewrite (sched_put_keep j ti) by auto. exact Hs. }
  destruct (cb_func ti) as [f|];
    [|exists []; rewrite app_nil_r; simpl; rewrite Z.add_0_r; auto].
  pose proof (Hk f (Z.of_nat j) (cb_user_data ti)
                (put_tmr j (set_state TMR_EXPIRED ti) (run_mod st))) as Hcb.
  destruct (cb_run f (Z.of_nat j) (cb_user_data ti)
              (put_tmr j (set_state TMR_EXPIRED ti) (run_mod st))) as [result m2].
  simpl in Hcb. rewrite Hexp in Hcb.
  exists [mk_cb_call j f (cb_user_data ti) result].
  destruct result; simpl.
  - split; [reflexivity|]. rewrite Hcb. do 3 f_equal. lia.
  - destruct (tmrs m2 !! j) as [ti2|] eqn:Hj2; simpl.
    + split; [reflexivity|].
      destruct (decide (j = idx)) as [->|Hne].
      * rewrite Nat.eqb_refl.
        rewrite sched_put_same by eauto. simpl.
        unfold sched in Hcb. rewrite Hj2 in Hcb. inversion Hcb as [[Hp Hst]].
        rewrite Hst, u32_add_l. do 3 f_equal. lia.
      * apply Nat.eqb_neq in Hne as Hne'. rewrite Hne'.
        rewrite sched_put_other by exact Hne. rewrite Hcb. do 3 f_equal. lia.
    + split; [reflexivity|].
      destruct (decide (j = idx)) as [->|Hne].
      * unfold sched in Hcb. rewrite Hj2 in Hcb. discriminate Hcb.
      * apply Nat.eqb_neq in Hne as Hne'. rewrite Hne'.
        rewrite Hcb. do 3 f_equal. lia.
Qed.

Lemma tmr_run_loop_sched idxs st P start0 n :
  keeps_sched ->
  sched (run_mod st) = Some (P, u32 (start0 + P * n)) ->
  exists c,
    run_calls (tmr_run_loop cb_run idxs st) = run_calls st ++ c
    /\ sched (run_mod (tmr_run_loop cb_run idxs st))
       = Some (P, u32 (start0 + P * (n + restarts idx c))).
Proof.
  intros Hk. revert st n. induction idxs as [|j rest IH]; intros st n Hs.
  - exists []. rewrite app_nil_r. simpl. rewrite Z.add_0_r. auto.
  - simpl.
    destruct (tmr_run_slot_sched j st P start0 n Hk Hs) as (c1 & Hc1 & Hs1).
    destruct (IH _ _ Hs1) as (c2 & Hc2 & Hs2).
    exists (c1 ++ c2). unfold tmr_run_loop in *. split.
    + rewrite Hc2, Hc1, app_assoc. reflexivity.
    + rewrite Hs2, restarts_app. do 3 f_equal. lia.
Qed.

Lemma tmr_run_sched m P start0 n :
  keeps_sched ->
  sched m = Some (P, u32 (start0 + P * n)) ->
  sched (tmr_run cb_run m).1.2
  = Some (P, u32 (start0 + P * (n + restarts idx (tmr_run cb_run m).2))).
Proof.
  intros Hk Hs. unfold tmr_run.
  destruct (tmr_get_ms m =? last_ms m); simpl.
  - rewrite Z.add_0_r. exact Hs.
  - destruct (tmr_run_loop_sched (seq 0 (Z.to_nat TMR_NUM_INST))
                (mk_run_st (tmr_get_ms m) (set_last_ms (tmr_get_ms m) m) [])
                P start0 n Hk Hs) as (c & Hc & Hs').
    simpl in Hc. rewrite Hc. exact Hs'.
Qed.

Lemma run_events_sched evs m P start0 n :
  keeps_sched ->
  sched m = Some (P, u32 (start0 + P * n)) ->
  sched (run_events cb_run evs m).1
  = Some (P, u32 (start0 + P * (n + restarts idx (run_events cb_run evs m).2))).
Proof.
  intros Hk. revert m n. induction evs as [|[|] rest IH]; intros m n Hs; simpl.
  - rewrite Z.add_0_r. exact Hs.
  - apply IH. exact Hs.
  - pose proof (tmr_run_sched m P start0 n Hk Hs) as H1.
    destruct (tmr_run cb_run m) as [[r m1] c1]. simpl in H1.
    pose proof (IH m1 _ H1) as H2.
    destruct (run_events cb_run rest m1) as [m2 c2]. simpl in *.
    rewrite H2, restarts_app. do 3 f_equal. lia.
Qed.


(** Servicing slot [idx] when its callback asks for a restart. *)
Lemma tmr_run_slot_restart st ti f :
  keeps_sched ->
  tmrs (run_mod st) !! idx = Some ti ->
  state ti = TMR_RUNNING ->
  period_ms ti <= u32 (now_ms st - start_time ti) ->
  cb_func ti = Some f ->
  fst (cb_run f (Z.of_nat idx) (cb_user_data ti)
         (put_tmr idx (set_state TMR_EXPIRED ti) (run_mod st))) = TMR_CB_RESTART ->
  exists ti',
    tmrs (run_mod (tmr_run_slot cb_run idx st)) !! idx = Some ti'
    /\ state ti' = TMR_RUNNING
    /\ period_ms ti' = period_ms ti
    /\ start_time ti' = u32 (start_time ti + period_ms ti).
Proof.
  intros Hk Hl Hst Hdue Hf Hres. unfold tmr_run_slot. rewrite Hl, Hst. simpl.
  apply Z.leb_le in Hdue. rewrite Hdue, Hf.
  pose proof (Hk f (Z.of_nat idx) (cb_user_data ti)
                (put_tmr idx (set_state TMR_EXPIRED ti) (run_mod st))) as Hcb.
  destruct (cb_run f (Z.of_nat idx) (cb_user_data ti)
              (put_tmr idx (set_state TMR_EXPIRED ti) (run_mod st))) as [result m2].
  simpl in Hres, Hcb. subst result.
  rewrite sched_put_same in Hcb by eauto. simpl in Hcb.
  unfold Tmr.sched in Hcb.
  destruct (tmrs m2 !! idx) as [ti2|] eqn:Hl2; [|discriminate Hcb].
  inversion Hcb as [[Hp Hs]].
  eexists. split.
  - simpl. apply list_lookup_insert_eq. apply lookup_lt_is_Some_1. eauto.
  - simpl. rewrite Hp, Hs. auto.
Qed.

End Drift.

(** C3, the claim as stated fails: slot 3 of [due_pool] is running with
    period 100 and start 800 and is due at clock 1000; [tmr_run] services
    it, its callback rearms the timer and returns [TMR_CB_RESTART], and the
    slot is then running with period 50 and start 1050: the start the
    callback set plus the period the callback set, not 800 + 100. *)
Lemma restart_after_rearm_counterexample :
  tmrs due_pool !! 3%nat = Some (mk_tmr_inst_info 100 800 TMR_RUNNING (Some 4%nat) 0)
  /\ tmr_get_ms due_pool = 1000
  /\ (tmr_run rearm_cb due_pool).2 = [mk_cb_call 3 4 0 TMR_CB_RESTART]
  /\ tmrs (tmr_run rearm_cb due_pool).1.2 !! 3%nat
     = Some (mk_tmr_inst_info 50 1050 TMR_RUNNING (Some 4%nat) 0)
  /\ sched 3 (tmr_run rearm_cb due_pool).1.2 <> Some (100, 800 + 100).
Proof. repeat split. discriminate. Qed.

(** C3 as amended.  Provided no callback rearms slot [idx] ([keeps_sched]):
    - when [tmr_run] services slot [idx] (running, due, with a callback) and
      the callback returns [TMR_CB_RESTART], the slot is [TMR_RUNNING] again
      with the same period and its start time advanced by one period, in
      32-bit arithmetic, whatever the clock shows before or after the
      callback;
    - over any sequence of ticks and [tmr_run] passes, with callbacks of any
      duration, after [N] restarts of slot [idx] its scheduled start is
      [start0 + N * P] in 32-bit arithmetic, and exactly [start0 + N * P]
      as long as that does not wrap. *)
Theorem tmr_run_restart_drift_free
    (cb_run : nat -> Z -> Z -> tmr_mod -> tmr_cb_action * tmr_mod) (idx : nat) :
  keeps_sched cb_run idx ->
  (forall st ti f,
      tmrs (run_mod st) !! idx = Some ti ->
      state ti = TMR_RUNNING ->
      period_ms ti <= u32 (now_ms st - start_time ti) ->
      cb_func ti = Some f ->
      fst (cb_run f (Z.of_nat idx) (cb_user_data ti)
             (put_tmr idx (set_state TMR_EXPIRED ti) (run_mod st))) = TMR_CB_RESTART ->
      exists ti',
        tmrs (run_mod (tmr_run_slot cb_run idx st)) !! idx = Some ti'
        /\ state ti' = TMR_RUNNING
        /\ period_ms ti' = period_ms ti
        /\ start_time ti' = u32 (start_time ti + period_ms ti))
  /\ (forall m0 P start0 evs,
        0 <= start0 < 2 ^ 32 ->
        sched idx m0 = Some (P, start0) ->
        let m := (run_events cb_run evs m0).1 in
        let N := restarts idx (run_events cb_run evs m0).2 in
        sched idx m = Some (P, u32 (start0 + N * P))
        /\ (0 <= P -> start0 + N * P < 2 ^ 32 -> sched idx m = Some (P, start0 + N * P))).
Proof.
  intros Hk. split.
  - intros st ti f. apply tmr_run_slot_restart. exact Hk.
  - intros m0 P start0 evs Hr Hs m N.
    assert (H0 : sched idx m0 = Some (P, u32 (start0 + P * 0))).
    { rewrite Hs, Z.mul_0_r, Z.add_0_r. unfold u32.
      rewrite Z.mod_small by exact Hr. reflexivity. }
    pose proof (run_events_sched cb_run idx evs m0 P start0 0 Hk H0) as H.
    simpl in H. fold m N in H.
    assert (HN : 0 <= N).
    { subst N. generalize (run_events cb_run evs m0).2. intros l.
      induction l as [|c l IH]; simpl; [lia|].
      destruct (call_result c); [lia|]. destruct (call_idx c =? idx)%nat; lia. }
    replace (start0 + P * (0 + N)) with (start0 + N * P) in H by lia.
    split; [exact H|].
    intros HP Hlt. rewrite H. unfold u32. rewrite Z.mod_small by nia. reflexivity.
Qed.

Lemma slow_cb_keeps_sched idx : keeps_sched slow_cb idx.
Proof. intros f i d m. reflexivity. Qed.

Lemma tmr_run_restart_drift_free_witness :
  sched 3 (run_events slow_cb [MainLoopRun; SysTick; MainLoopRun] due_pool).1
  = Some (100, 800 + 2 * 100).
Proof.
  destruct (tmr_run_restart_drift_free slow_cb 3 (slow_cb_keeps_sched 3)) as [_ H].
  refine (proj2 (H due_pool 100 800 [MainLoopRun; SysTick; MainLoopRun] _ _) _ _).
  - lia.
  - reflexivity.
  - lia.
  - vm_compute. reflexivity.
Defined.

Lemma tmr_run_fast_exit_witness :
  tmr_run slow_cb busy_pool = (0, busy_pool, []).
Proof. apply (tmr_run_fast_exit slow_cb busy_pool). reflexivity. Defined.

End TmrProofs.

Module TtysProofs.
Import Ttys.

(** *** Ring buffers *)

Section Ring.

Variable C : Z.
Hypothesis C_big : 1 < C.

Local Abbreviation ring_next := (ring_next C).
Local Abbreviation ring_holds := (ring_holds C).

Lemma ring_next_range i : 0 <= i < C -> 0 <= ring_next i < C.
Proof. unfold ring_next. zcase; lia. Qed.

Lemma ring_holds_dist buf l : forall get put,
  0 <= get < C -> ring_holds buf get put l -> Z.of_nat (length l) < C ->
  put = if get + Z.of_nat (length l) <? C
        then get + Z.of_nat (length l) else get + Z.of_nat (length l) - C.
Proof.
  induction l as [|x l IH]; intros get put Hg Hh Hlen;
    cbn [ring_holds length] in *.
  - zcase; lia.
  - destruct Hh as (Hne & _ & Hh).
    specialize (IH (ring_next get) put (ring_next_range get Hg) Hh ltac:(lia)).
    unfold ring_next in IH. zcase; lia.
Qed.

(** The producer step: storing at [put] and advancing it appends. *)
Lemma ring_holds_push buf c l : forall get put,
  0 <= get < C -> 0 <= put < C ->
  ring_holds buf get put l -> Z.of_nat (length l) + 1 < C ->
  Z.of_nat (length buf) = C ->
  ring_holds (<[Z.to_nat put := c]> buf) get (ring_next put) (l ++ [c]).
Proof.
  induction l as [|x l IH]; intros get put Hg Hp Hh Hlen Hbuf;
    cbn [ring_holds length app] in *.
  - subst put. repeat split.
    + unfold ring_next. zcase; lia.
    + apply list_lookup_insert_eq. lia.
  - destruct Hh as (Hne & Hx & Hh).
    pose proof (ring_holds_dist buf l (ring_next get) put
                  (ring_next_range get Hg) Hh ltac:(lia)) as Hd.
    repeat split.
    + unfold ring_next in *. zcase; lia.
    + rewrite list_lookup_insert_ne by lia. exact Hx.
    + apply IH; auto using ring_next_range. lia.
Qed.

(** The transmit ring is full exactly when it holds [C - 1] characters. *)
Lemma ring_holds_not_full buf l get put :
  0 <= get < C -> 0 <= put < C ->
  ring_holds buf get put l -> Z.of_nat (length l) + 1 < C ->
  ring_next put <> get.
Proof.
  intros Hg Hp Hh Hlen.
  pose proof (ring_holds_dist buf l get put Hg Hh ltac:(lia)) as Hd.
  unfold ring_next. zcase; lia.
Qed.

End Ring.


(** *** Well-formed module states *)

Lemma state_wf_inv st :
  state_wf st = true ->
  Z.of_nat (length (tx_buf st)) = TTYS_TX_BUF_SIZE
  /\ Z.of_nat (length (rx_buf st)) = TTYS_RX_BUF_SIZE
  /\ 0 <= tx_buf_get_idx st < TTYS_TX_BUF_SIZE
  /\ 0 <= tx_buf_put_idx st < TTYS_TX_BUF_SIZE
  /\ 0 <= rx_buf_get_idx st < TTYS_RX_BUF_SIZE
  /\ 0 <= rx_buf_put_idx st < TTYS_RX_BUF_SIZE.
Proof.
  unfold state_wf. rewrite !andb_true_iff.
  rewrite !Z.eqb_eq, !Z.leb_le, !Z.ltb_lt. tauto.
Qed.

Lemma ttys_wf_inv w :
  ttys_wf w = true ->
  length (ttys_states w) = TTYS_NUM_INSTANCES
  /\ length (usart w) = TTYS_NUM_INSTANCES
  /\ length (cnts_u16 w) = NUM_U16_PMS
  /\ (forall pm a, cnts_u16 w !! pm = Some a -> 0 <= a <= UINT16_MAX)
  /\ (forall i st, ttys_states w !! i = Some st -> state_wf st = true).
Proof.
  unfold ttys_wf. rewrite !andb_true_iff, !Nat.eqb_eq, !forallb_forall.
  intros ((((H1 & H2) & H3) & H4) & H5).
  split; [exact H1|]. split; [exact H2|]. split; [exact H3|]. split.
  - intros pm a Hl.
    assert (Hin : In a (cnts_u16 w)).
    { apply list_elem_of_In. eapply list_elem_of_lookup_2; eauto. }
    apply H4 in Hin. apply andb_true_iff in Hin. lia.
  - intros i st Hl. apply H5. apply list_elem_of_In.
    eapply list_elem_of_lookup_2; eauto.
Qed.


(** *** Overrun of the transmit ring *)

Lemma INC_SAT_U16_min a :
  0 <= a <= UINT16_MAX -> INC_SAT_U16 a = Z.min (a + 1) UINT16_MAX.
Proof.
  intros Ha. unfold INC_SAT_U16, u16, UINT16_MAX in *.
  destruct (Z.eqb_spec a 65535); rewrite Z.mod_small; lia.
Qed.

(** The wrapped index that [ttys_putc] computes is [(put + 1) mod C]. *)
Lemma tx_next_mod put :
  0 <= put < TTYS_TX_BUF_SIZE ->
  (if TTYS_TX_BUF_SIZE <=? u16 (put + 1) then 0 else u16 (put + 1))
  = (put + 1) mod TTYS_TX_BUF_SIZE.
Proof.
  unfold TTYS_TX_BUF_SIZE, u16. intros Hp.
  rewrite (Z.mod_small (put + 1) (2 ^ 16)) by lia.
  destruct (Z.leb_spec 1024 (put + 1)).
  - replace (put + 1) with 1024 by lia. reflexivity.
  - rewrite Z.mod_small; lia.
Qed.

Lemma set_cnts_u16_id w : set_cnts_u16 (cnts_u16 w) w = w.
Proof. destruct w; reflexivity. Qed.

(** One character offered to a full transmit ring. *)
Lemma ttys_putc_full instance_id c w st a :
  (instance_id < TTYS_NUM_INSTANCES)%nat ->
  ttys_states w !! instance_id = Some st ->
  0 <= tx_buf_put_idx st < TTYS_TX_BUF_SIZE ->
  (tx_buf_put_idx st + 1) mod TTYS_TX_BUF_SIZE = tx_buf_get_idx st ->
  cnts_u16 w !! CNT_TX_BUF_OVERRUN = Some a ->
  0 <= a <= UINT16_MAX ->
  ttys_putc instance_id c w
  = (MOD_ERR_BUF_OVERRUN,
     set_cnts_u16 (<[CNT_TX_BUF_OVERRUN := Z.min (a + 1) UINT16_MAX]> (cnts_u16 w)) w).
Proof.
  intros Hid Hst Hput Hfull Ha Hr. unfold ttys_putc.
  apply Nat.leb_gt in Hid. rewrite Hid, Hst.
  rewrite (tx_next_mod _ Hput), Hfull, Z.eqb_refl.
  unfold inc_cnt. rewrite Ha, (INC_SAT_U16_min a Hr). reflexivity.
Qed.

(** Any number of characters offered to a full transmit ring. *)
Lemma putc_seq_full instance_id cs : forall w st a,
  (instance_id < TTYS_NUM_INSTANCES)%nat ->
  ttys_states w !! instance_id = Some st ->
  0 <= tx_buf_put_idx st < TTYS_TX_BUF_SIZE ->
  (tx_buf_put_idx st + 1) mod TTYS_TX_BUF_SIZE = tx_buf_get_idx st ->
  cnts_u16 w !! CNT_TX_BUF_OVERRUN = Some a ->
  0 <= a <= UINT16_MAX ->
  putc_seq instance_id cs w
  = (replicate (length cs) MOD_ERR_BUF_OVERRUN,
     set_cnts_u16
       (<[CNT_TX_BUF_OVERRUN := Z.min (a + Z.of_nat (length cs)) UINT16_MAX]> (cnts_u16 w)) w).
Proof.
  induction cs as [|c cs IH]; intros w st a Hid Hst Hput Hfull Ha Hr.
  - cbn [putc_seq length replicate]. f_equal.
    replace (Z.min (a + Z.of_nat 0) UINT16_MAX) with a by lia.
    rewrite list_insert_id by exact Ha. symmetry. apply set_cnts_u16_id.
  - cbn [putc_seq length replicate].
    rewrite (ttys_putc_full instance_id c w st a) by assumption.
    assert (Hlt : (CNT_TX_BUF_OVERRUN < length (cnts_u16 w))%nat).
    { apply lookup_lt_is_Some_1. eauto. }
    rewrite (IH _ st (Z.min (a + 1) UINT16_MAX)); try assumption.
    + f_equal. destruct w; unfold set_cnts_u16; cbn.
      rewrite list_insert_insert_eq. do 2 f_equal. lia.
    + destruct w; cbn in *. apply list_lookup_insert_eq. exact Hlt.
    + unfold UINT16_MAX in *. lia.
Qed.

(** C5.  When the transmit ring of an instance is full,
    [(put + 1) mod TTYS_TX_BUF_SIZE = get], [ttys_putc] returns
    [MOD_ERR_BUF_OVERRUN] and changes nothing but the transmit overrun
    counter, which goes up by one and stays at [UINT16_MAX] once there.
    Offering [n] characters to the full ring gives [n] such results, leaves
    the instances (buffers and indices) and the peripherals as they were, and
    takes the counter from [a] to [min (a + n) UINT16_MAX]: up by exactly
    [n] unless it saturates. *)
Theorem ttys_putc_overrun (instance_id : nat) (w : ttys_mod) (st : ttys_state) (a : Z) :
  ttys_wf w = true ->
  ttys_states w !! instance_id = Some st ->
  (tx_buf_put_idx st + 1) mod TTYS_TX_BUF_SIZE = tx_buf_get_idx st ->
  cnts_u16 w !! CNT_TX_BUF_OVERRUN = Some a ->
  (forall c,
      ttys_putc instance_id c w
      = (MOD_ERR_BUF_OVERRUN,
         set_cnts_u16
           (<[CNT_TX_BUF_OVERRUN := Z.min (a + 1) UINT16_MAX]> (cnts_u16 w)) w))
  /\ (forall cs,
        let n := Z.of_nat (length cs) in
        let r := putc_seq instance_id cs w in
        r.1 = replicate (length cs) MOD_ERR_BUF_OVERRUN
        /\ ttys_states r.2 = ttys_states w
        /\ usart r.2 = usart w
        /\ cnts_u16 r.2
           = <[CNT_TX_BUF_OVERRUN := Z.min (a + n) UINT16_MAX]> (cnts_u16 w)
        /\ (a + n <= UINT16_MAX ->
            port_cnt instance_id CNT_TX_BUF_OVERRUN r.2 = a + n)).
Proof.
  intros Hwf Hst Hfull Ha.
  destruct (ttys_wf_inv w Hwf) as (Hlen & _ & _ & Hcnt & Hsts).
  destruct (state_wf_inv st (Hsts _ _ Hst)) as (_ & _ & _ & Hput & _).
  assert (Hid : (instance_id < TTYS_NUM_INSTANCES)%nat).
  { rewrite <- Hlen. apply lookup_lt_is_Some_1. eauto. }
  pose proof (Hcnt _ _ Ha) as Hr.
  split.
  - intros c. apply (ttys_putc_full instance_id c w st a); assumption.
  - intros cs n r. subst r.
    rewrite (putc_seq_full instance_id cs w st a) by assumption.
    cbn [fst snd]. fold n. destruct w; cbn in *.
    repeat split; try reflexivity.
    intros Hle. unfold port_cnt. cbn.
    rewrite list_lookup_insert_eq by (apply lookup_lt_is_Some_1; eauto).
    cbn. lia.
Qed.

Lemma ttys_putc_overrun_witness :
  ttys_putc 0 66 demo_mod
  = (MOD_ERR_BUF_OVERRUN, set_cnts_u16 [0; 0; 0; 0; 65535; 0] demo_mod)
  /\ (putc_seq 0 [66; 67; 68] demo_mod).1
     = [MOD_ERR_BUF_OVERRUN; MOD_ERR_BUF_OVERRUN; MOD_ERR_BUF_OVERRUN]
  /\ ttys_states (putc_seq 0 [66; 67; 68] demo_mod).2 = ttys_states demo_mod
  /\ cnts_u16 (putc_seq 0 [66; 67; 68] demo_mod).2 = [0; 0; 0; 0; 65535; 0].
Proof.
  pose proof (ttys_putc_overrun 0 demo_mod (full_state (Some 1%nat)) 65534
                eq_refl eq_refl eq_refl eq_refl) as [H1 H2].
  split.
  - exact (H1 66).
  - destruct (H2 [66; 67; 68]) as (Hr & Hs & Hu & Hc & _).
    split; [exact Hr|]. split; [exact Hs|exact Hc].
Defined.


(** *** The transmit ring: [ttys_putc] produces, the interrupt consumes *)

Lemma lookup_put_state id st w :
  (id < length (ttys_states w))%nat ->
  ttys_states (put_state id st w) !! id = Some st.
Proof. intros H. unfold put_state. cbn. apply list_lookup_insert_eq. exact H. Qed.

Lemma inc_cnt_states pm w : ttys_states (inc_cnt pm w) = ttys_states w.
Proof. unfold inc_cnt. destruct (cnts_u16 w !! pm); reflexivity. Qed.

Lemma inc_cnt_usart pm w : usart (inc_cnt pm w) = usart w.
Proof. unfold inc_cnt. destruct (cnts_u16 w !! pm); reflexivity. Qed.

Lemma set_TXEIE_states id b w : ttys_states (set_TXEIE id b w) = ttys_states w.
Proof. unfold set_TXEIE. destruct (usart w !! id); reflexivity. Qed.

Lemma set_TXEIE_DR id b w io :
  usart w !! id = Some io ->
  exists io', usart (set_TXEIE id b w) !! id = Some io'
              /\ DR_written io' = DR_written io.
Proof.
  intros Hio. unfold set_TXEIE. rewrite Hio. cbn.
  rewrite list_lookup_insert_eq by (apply lookup_lt_is_Some_1; eauto).
  eexists. split; reflexivity.
Qed.

Lemma tx_ring_next_putc put :
  0 <= put < TTYS_TX_BUF_SIZE ->
  (if TTYS_TX_BUF_SIZE <=? u16 (put + 1) then 0 else u16 (put + 1))
  = ring_next TTYS_TX_BUF_SIZE put.
Proof.
  unfold ring_next, TTYS_TX_BUF_SIZE, u16. intros Hp.
  rewrite (Z.mod_small (put + 1) (2 ^ 16)) by lia. reflexivity.
Qed.

Lemma tx_ring_next_irq get :
  0 <= get < TTYS_TX_BUF_SIZE ->
  (if get <? TTYS_TX_BUF_SIZE - 1 then u16 (get + 1) else 0)
  = ring_next TTYS_TX_BUF_SIZE get.
Proof.
  unfold ring_next, TTYS_TX_BUF_SIZE, u16. intros Hp.
  rewrite (Z.mod_small (get + 1) (2 ^ 16)) by lia. zcase; lia.
Qed.

(** [ttys_putc] on a transmit ring that is not full. *)
Lemma ttys_putc_tx_inv id c w l D u :
  (id < TTYS_NUM_INSTANCES)%nat ->
  tx_inv id w l D u ->
  Z.of_nat (length l) + 1 < TTYS_TX_BUF_SIZE ->
  exists w', ttys_putc id c w = (0, w') /\ tx_inv id w' (l ++ [c]) D u.
Proof.
  intros Hid (st & io & Hst & Hio & Hlen & Hg & Hp & Hring & HD & Hu) Hroom.
  unfold ttys_putc. apply Nat.leb_gt in Hid as Hid'. rewrite Hid', Hst.
  rewrite (tx_ring_next_putc _ Hp).
  pose proof (ring_holds_not_full TTYS_TX_BUF_SIZE ltac:(reflexivity)
                _ _ _ _ Hg Hp Hring Hroom) as Hnf.
  apply Z.eqb_neq in Hnf. rewrite Hnf.
  pose proof (ring_holds_push TTYS_TX_BUF_SIZE ltac:(reflexivity)
                (tx_buf st) c l _ _ Hg Hp Hring Hroom Hlen) as Hpush.
  pose proof (ring_next_range TTYS_TX_BUF_SIZE ltac:(reflexivity)
                (tx_buf_put_idx st) Hp) as Hnr.
  assert (Hlt : (id < length (ttys_states w))%nat)
    by (apply lookup_lt_is_Some_1; eauto).
  eexists. split; [reflexivity|].
  cbn [uart_reg_base set_tx_put].
  set (st' := set_tx_put (<[Z.to_nat (tx_buf_put_idx st):=c]> (tx_buf st))
                (ring_next TTYS_TX_BUF_SIZE (tx_buf_put_idx st)) st).
  assert (Hst' : ttys_states (put_state id st' w) !! id = Some st')
    by (apply lookup_put_state; exact Hlt).
  assert (Hfields : Z.of_nat (length (tx_buf st')) = TTYS_TX_BUF_SIZE
            /\ 0 <= tx_buf_get_idx st' < TTYS_TX_BUF_SIZE
            /\ 0 <= tx_buf_put_idx st' < TTYS_TX_BUF_SIZE
            /\ ring_holds TTYS_TX_BUF_SIZE (tx_buf st') (tx_buf_get_idx st')
                 (tx_buf_put_idx st') (l ++ [c])
            /\ uart_reg_base st' = u).
  { subst st'. cbn. rewrite length_insert. auto. }
  destruct (uart_reg_base st) as [b|] eqn:Hb.
  - destruct (set_TXEIE_DR id true (put_state id st' w) io Hio)
      as (io' & Hio' & HD').
    exists st', io'. rewrite set_TXEIE_states.
    split; [exact Hst'|]. split; [exact Hio'|].
    destruct Hfields as (? & ? & ? & ? & ?). repeat split; try tauto; congruence.
  - exists st', io.
    split; [exact Hst'|]. split; [exact Hio|].
    destruct Hfields as (? & ? & ? & ? & ?). repeat split; try tauto; congruence.
Qed.

Lemma putc_seq_tx_inv id cs : forall w l D u,
  (id < TTYS_NUM_INSTANCES)%nat ->
  tx_inv id w l D u ->
  Z.of_nat (length l) + Z.of_nat (length cs) < TTYS_TX_BUF_SIZE ->
  exists w', putc_seq id cs w = (replicate (length cs) 0, w')
             /\ tx_inv id w' (l ++ cs) D u.
Proof.
  induction cs as [|c cs IH]; intros w l D u Hid Hinv Hroom.
  - exists w. rewrite app_nil_r. split; [reflexivity|exact Hinv].
  - cbn [length] in Hroom.
    destruct (ttys_putc_tx_inv id c w l D u Hid Hinv ltac:(lia)) as (w1 & Hp & Hinv1).
    destruct (IH w1 (l ++ [c]) D u Hid Hinv1) as (w2 & Hs & Hinv2).
    { rewrite length_app. cbn [length]. lia. }
    exists w2. cbn [putc_seq length replicate]. rewrite Hp, Hs.
    split; [reflexivity|]. rewrite <- app_assoc in Hinv2. exact Hinv2.
Qed.


Lemma tx_inv_same_view id w w' l D u :
  tx_inv id w l D u ->
  usart w' = usart w ->
  (forall st, ttys_states w !! id = Some st ->
     exists st', ttys_states w' !! id = Some st'
       /\ tx_buf st' = tx_buf st /\ tx_buf_get_idx st' = tx_buf_get_idx st
       /\ tx_buf_put_idx st' = tx_buf_put_idx st
       /\ uart_reg_base st' = uart_reg_base st) ->
  tx_inv id w' l D u.
Proof.
  intros (st & io & Hst & Hio & Hlen & Hg & Hp & Hring & HD & Hu) Hus Hview.
  destruct (Hview st Hst) as (st' & Hst' & Hb & Hg' & Hp' & Hu').
  exists st', io. rewrite Hus, Hb, Hg', Hp', Hu'. auto 10.
Qed.

Lemma rx_inv_same_view id w w' l u :
  rx_inv id w l u ->
  (forall st, ttys_states w !! id = Some st ->
     exists st', ttys_states w' !! id = Some st'
       /\ rx_buf st' = rx_buf st /\ rx_buf_get_idx st' = rx_buf_get_idx st
       /\ rx_buf_put_idx st' = rx_buf_put_idx st
       /\ uart_reg_base st' = uart_reg_base st) ->
  rx_inv id w' l u.
Proof.
  intros (st & Hst & Hlen & Hg & Hp & Hring & Hu) Hview.
  destruct (Hview st Hst) as (st' & Hst' & Hb & Hg' & Hp' & Hu').
  exists st'. rewrite Hb, Hg', Hp', Hu'. auto 10.
Qed.

(** The error branch touches only the counters. *)
Lemma ttys_interrupt_err_states bits sr w :
  ttys_states (ttys_interrupt_err bits sr w) = ttys_states w
  /\ usart (ttys_interrupt_err bits sr w) = usart w.
Proof.
  unfold ttys_interrupt_err.
  repeat match goal with
         | |- context [if ?b then _ else _] => destruct b
         end;
    rewrite ?inc_cnt_states, ?inc_cnt_usart; auto.
Qed.

(** The receive branch leaves the transmit side alone. *)
Lemma ttys_interrupt_rx_tx_inv id DR w l D u :
  tx_inv id w l D u -> tx_inv id (ttys_interrupt_rx id DR w) l D u.
Proof.
  intros Hinv. apply (tx_inv_same_view id w _ l D u Hinv).
  - unfold ttys_interrupt_rx. destruct (ttys_states w !! id); [|reflexivity].
    match goal with |- context [if ?b then _ else _] => destruct b end.
    + apply inc_cnt_usart.
    + reflexivity.
  - intros st Hst. unfold ttys_interrupt_rx. rewrite Hst.
    match goal with |- context [if ?b then _ else _] => destruct b end.
    + rewrite inc_cnt_states. exists st. auto.
    + eexists. split.
      * apply lookup_put_state. apply lookup_lt_is_Some_1. eauto.
      * cbn. auto.
Qed.

(** The transmit branch leaves the receive side alone. *)
Lemma ttys_interrupt_tx_rx_inv id w l u :
  rx_inv id w l u -> rx_inv id (ttys_interrupt_tx id w) l u.
Proof.
  intros Hinv. apply (rx_inv_same_view id w _ l u Hinv).
  intros st Hst. unfold ttys_interrupt_tx. rewrite Hst.
  match goal with |- context [if ?b then _ else _] => destruct b end.
  - rewrite set_TXEIE_states. exists st. auto.
  - eexists. split.
    + apply lookup_put_state. unfold write_DR.
      destruct (usart w !! id); cbn; apply lookup_lt_is_Some_1; eauto.
    + cbn. auto.
Qed.

(** The transmit branch on a ring that is not empty: the oldest character
    goes to the data register. *)
Lemma ttys_interrupt_tx_pop id w x l D u :
  tx_inv id w (x :: l) D u -> tx_inv id (ttys_interrupt_tx id w) l (D ++ [x]) u.
Proof.
  intros (st & io & Hst & Hio & Hlen & Hg & Hp & Hring & HD & Hu).
  cbn [ring_holds] in Hring. destruct Hring as (Hne & Hx & Hring).
  unfold ttys_interrupt_tx. rewrite Hst.
  apply Z.eqb_neq in Hne. rewrite Hne. rewrite Hx. cbn [default].
  rewrite (tx_ring_next_irq _ Hg).
  set (st' := set_tx_get (ring_next TTYS_TX_BUF_SIZE (tx_buf_get_idx st)) st).
  exists st', (mk_usart_io (DR_written io ++ [x]) (TXEIE io) (irq_enabled io)).
  unfold write_DR. rewrite Hio.
  split.
  { apply lookup_put_state. cbn. apply lookup_lt_is_Some_1. eauto. }
  split.
  { cbn. apply list_lookup_insert_eq. apply lookup_lt_is_Some_1. eauto. }
  subst st'. cbn.
  pose proof (ring_next_range TTYS_TX_BUF_SIZE ltac:(reflexivity) _ Hg).
  repeat split; try tauto; congruence.
Qed.

(** The receive branch on a ring that is not full: the character read from
    the data register is appended. *)
Lemma ttys_interrupt_rx_push id DR w l u :
  rx_inv id w l u ->
  Z.of_nat (length l) + 1 < TTYS_RX_BUF_SIZE ->
  rx_inv id (ttys_interrupt_rx id DR w) (l ++ [u8 DR]) u.
Proof.
  intros (st & Hst & Hlen & Hg & Hp & Hring & Hu) Hroom.
  unfold ttys_interrupt_rx. rewrite Hst.
  assert (Hnext : (if TTYS_RX_BUF_SIZE <=? u16 (rx_buf_put_idx st + 1)
                   then 0 else u16 (rx_buf_put_idx st + 1))
                  = ring_next TTYS_RX_BUF_SIZE (rx_buf_put_idx st)).
  { unfold ring_next, TTYS_RX_BUF_SIZE, u16 in *.
    rewrite (Z.mod_small (rx_buf_put_idx st + 1) (2 ^ 16)) by lia. reflexivity. }
  rewrite Hnext.
  pose proof (ring_holds_not_full TTYS_RX_BUF_SIZE ltac:(reflexivity)
                _ _ _ _ Hg Hp Hring Hroom) as Hnf.
  apply Z.eqb_neq in Hnf. rewrite Hnf.
  pose proof (ring_holds_push TTYS_RX_BUF_SIZE ltac:(reflexivity)
                (rx_buf st) (u8 DR) l _ _ Hg Hp Hring Hroom Hlen) as Hpush.
  pose proof (ring_next_range TTYS_RX_BUF_SIZE ltac:(reflexivity) _ Hp).
  eexists. split.
  { apply lookup_put_state. apply lookup_lt_is_Some_1. eauto. }
  cbn. rewrite length_insert. repeat split; try tauto; congruence.
Qed.


Section Handler.

Variable bits : usart_sr_bits.

Lemma ttys_interrupt_tx_step id SR DR w x l D b :
  (id < TTYS_NUM_INSTANCES)%nat ->
  tx_inv id w (x :: l) D (Some b) ->
  sr_flag (u8 SR) (LL_USART_SR_TXE bits) = true ->
  tx_inv id (ttys_interrupt bits id SR DR w) l (D ++ [x]) (Some b).
Proof.
  intros Hid Hinv Hflag. unfold ttys_interrupt.
  apply Nat.leb_gt in Hid. rewrite Hid.
  destruct Hinv as (st & io & Hst & Hrest).
  rewrite Hst.
  assert (Hinv : tx_inv id w (x :: l) D (Some b)) by (exists st, io; tauto).
  replace (uart_reg_base st) with (Some b) by (symmetry; tauto).
  rewrite Hflag.
  set (w1 := if sr_flag (u8 SR) (LL_USART_SR_RXNE bits)
             then ttys_interrupt_rx id DR w else w).
  assert (H1 : tx_inv id w1 (x :: l) D (Some b)).
  { subst w1. destruct (sr_flag (u8 SR) (LL_USART_SR_RXNE bits)); [|exact Hinv].
    apply ttys_interrupt_rx_tx_inv. exact Hinv. }
  apply ttys_interrupt_tx_pop in H1.
  match goal with |- context [if ?c then _ else _] => destruct c end; [|exact H1].
  destruct (ttys_interrupt_err_states bits (u8 SR) (ttys_interrupt_tx id w1)) as [Hs Hu].
  apply (tx_inv_same_view id _ _ _ _ _ H1 Hu).
  intros st0 Hst0. rewrite Hs. exists st0. auto.
Qed.

Lemma ttys_interrupt_rx_step id SR DR w l b :
  (id < TTYS_NUM_INSTANCES)%nat ->
  rx_inv id w l (Some b) ->
  sr_flag (u8 SR) (LL_USART_SR_RXNE bits) = true ->
  Z.of_nat (length l) + 1 < TTYS_RX_BUF_SIZE ->
  rx_inv id (ttys_interrupt bits id SR DR w) (l ++ [u8 DR]) (Some b).
Proof.
  intros Hid Hinv Hflag Hroom. unfold ttys_interrupt.
  apply Nat.leb_gt in Hid. rewrite Hid.
  destruct Hinv as (st & Hst & Hrest).
  rewrite Hst.
  assert (Hinv : rx_inv id w l (Some b)) by (exists st; tauto).
  replace (uart_reg_base st) with (Some b) by (symmetry; tauto).
  rewrite Hflag.
  pose proof (ttys_interrupt_rx_push id DR w l (Some b) Hinv Hroom) as H1.
  set (w2 := if sr_flag (u8 SR) (LL_USART_SR_TXE bits)
             then ttys_interrupt_tx id (ttys_interrupt_rx id DR w)
             else ttys_interrupt_rx id DR w).
  assert (H2 : rx_inv id w2 (l ++ [u8 DR]) (Some b)).
  { subst w2. destruct (sr_flag (u8 SR) (LL_USART_SR_TXE bits)); [|exact H1].
    apply ttys_interrupt_tx_rx_inv. exact H1. }
  match goal with |- context [if ?c then _ else _] => destruct c end; [|exact H2].
  destruct (ttys_interrupt_err_states bits (u8 SR) w2) as [Hs Hu].
  apply (rx_inv_same_view id _ _ _ _ H2).
  intros st0 Hst0. rewrite Hs. exists st0. auto.
Qed.

Lemma interrupt_seq_tx id b l : forall reads w D,
  (id < TTYS_NUM_INSTANCES)%nat ->
  length reads = length l ->
  Forall (fun r => sr_flag (u8 r.1) (LL_USART_SR_TXE bits) = true) reads ->
  tx_inv id w l D (Some b) ->
  tx_inv id (interrupt_seq bits id reads w) [] (D ++ l) (Some b).
Proof.
  induction l as [|x l IH]; intros reads w D Hid Hlen Hall Hinv.
  - destruct reads; [|discriminate Hlen]. rewrite app_nil_r. exact Hinv.
  - destruct reads as [|[SR DR] reads]; [discriminate Hlen|].
    inversion Hall as [|? ? Hr Hall']; subst. cbn [interrupt_seq].
    replace (D ++ x :: l) with ((D ++ [x]) ++ l) by (rewrite <- app_assoc; reflexivity).
    apply IH; auto.
    apply ttys_interrupt_tx_step; auto.
Qed.

Lemma interrupt_seq_rx id b reads : forall w l,
  (id < TTYS_NUM_INSTANCES)%nat ->
  Forall (fun r => sr_flag (u8 r.1) (LL_USART_SR_RXNE bits) = true) reads ->
  Z.of_nat (length l) + Z.of_nat (length reads) < TTYS_RX_BUF_SIZE ->
  rx_inv id w l (Some b) ->
  rx_inv id (interrupt_seq bits id reads w) (l ++ map (fun r => u8 r.2) reads) (Some b).
Proof.
  induction reads as [|[SR DR] reads IH]; intros w l Hid Hall Hroom Hinv.
  - cbn. rewrite app_nil_r. exact Hinv.
  - inversion Hall as [|? ? Hr Hall']; subst. cbn [interrupt_seq map length] in *.
    replace (l ++ u8 (SR, DR).2 :: map (fun r => u8 r.2) reads)
      with ((l ++ [u8 DR]) ++ map (fun r => u8 r.2) reads)
      by (rewrite <- app_assoc; reflexivity).
    apply IH; auto.
    + rewrite length_app. cbn [length]. lia.
    + apply ttys_interrupt_rx_step; auto. lia.
Qed.

End Handler.

(** [ttys_getc] on a receive ring that is not empty, and on an empty one. *)
Lemma ttys_getc_pop id w x l u :
  (id < TTYS_NUM_INSTANCES)%nat ->
  rx_inv id w (x :: l) u ->
  exists w', ttys_getc id w = (1, Some x, w') /\ rx_inv id w' l u.
Proof.
  intros Hid (st & Hst & Hlen & Hg & Hp & Hring & Hu).
  cbn [ring_holds] in Hring. destruct Hring as (Hne & Hx & Hring).
  unfold ttys_getc. apply Nat.leb_gt in Hid. rewrite Hid, Hst.
  apply Z.eqb_neq in Hne. rewrite Hne, Hx. cbn [default].
  eexists. split; [reflexivity|].
  eexists. split.
  { apply lookup_put_state. apply lookup_lt_is_Some_1. eauto. }
  cbn. fold (ring_next TTYS_RX_BUF_SIZE (rx_buf_get_idx st)).
  pose proof (ring_next_range TTYS_RX_BUF_SIZE ltac:(reflexivity) _ Hg).
  repeat split; try tauto; congruence.
Qed.

Lemma ttys_getc_empty id w u :
  (id < TTYS_NUM_INSTANCES)%nat ->
  rx_inv id w [] u -> ttys_getc id w = (0, None, w).
Proof.
  intros Hid (st & Hst & Hlen & Hg & Hp & Hring & Hu). cbn in Hring.
  unfold ttys_getc. apply Nat.leb_gt in Hid. rewrite Hid, Hst, Hring, Z.eqb_refl.
  reflexivity.
Qed.

Lemma getc_seq_rx id u l : forall w,
  (id < TTYS_NUM_INSTANCES)%nat ->
  rx_inv id w l u ->
  exists w', getc_seq id (length l) w = (map (fun x => (1, Some x)) l, w')
             /\ rx_inv id w' [] u.
Proof.
  induction l as [|x l IH]; intros w Hid Hinv.
  - exists w. split; [reflexivity|exact Hinv].
  - destruct (ttys_getc_pop id w x l u Hid Hinv) as (w1 & Hg & Hinv1).
    destruct (IH w1 Hid Hinv1) as (w2 & Hs & Hinv2).
    exists w2. cbn [getc_seq length map]. rewrite Hg, Hs. auto.
Qed.


(** C4.  Round trip through the rings of an open instance, from any common
    position of the get and put indices.
    Transmit ring: [K <= TTYS_TX_BUF_SIZE - 1] characters given to
    [ttys_putc] are all accepted, and [K] interrupts with TXE set then write
    exactly these characters, in order, to the data register and leave the
    ring empty.
    Receive ring: [K <= TTYS_RX_BUF_SIZE - 1] interrupts with RXNE set store
    the characters read from the data register, and [K] calls of [ttys_getc]
    return them in order; the ring is then empty, and one more call returns
    0. *)
Theorem ring_round_trip (bits : usart_sr_bits) (instance_id : nat)
    (w : ttys_mod) (st : ttys_state) :
  ttys_wf w = true ->
  ttys_states w !! instance_id = Some st ->
  is_Some (uart_reg_base st) ->
  (forall (cs : list Z) (reads : list (Z * Z)),
      tx_buf_get_idx st = tx_buf_put_idx st ->
      Z.of_nat (length cs) <= TTYS_TX_BUF_SIZE - 1 ->
      length reads = length cs ->
      Forall (fun r => sr_flag (u8 r.1) (LL_USART_SR_TXE bits) = true) reads ->
      let p := putc_seq instance_id cs w in
      let w2 := interrupt_seq bits instance_id reads p.2 in
      p.1 = replicate (length cs) 0
      /\ tx_line instance_id w2 = tx_line instance_id w ++ cs
      /\ exists st2, ttys_states w2 !! instance_id = Some st2
                     /\ tx_buf_get_idx st2 = tx_buf_put_idx st2)
  /\ (forall (reads : list (Z * Z)),
        rx_buf_get_idx st = rx_buf_put_idx st ->
        Z.of_nat (length reads) <= TTYS_RX_BUF_SIZE - 1 ->
        Forall (fun r => sr_flag (u8 r.1) (LL_USART_SR_RXNE bits) = true) reads ->
        let w1 := interrupt_seq bits instance_id reads w in
        let g := getc_seq instance_id (length reads) w1 in
        g.1 = map (fun r => (1, Some (u8 r.2))) reads
        /\ (Forall (fun r => 0 <= r.2 < 256) reads ->
            g.1 = map (fun r => (1, Some r.2)) reads)
        /\ ttys_getc instance_id g.2 = (0, None, g.2)
        /\ exists st2, ttys_states g.2 !! instance_id = Some st2
                       /\ rx_buf_get_idx st2 = rx_buf_put_idx st2).
Proof.
  intros Hwf Hst [b Hb].
  destruct (ttys_wf_inv w Hwf) as (Hlen & Hlenu & _ & _ & Hsts).
  destruct (state_wf_inv st (Hsts _ _ Hst)) as (Htl & Hrl & Htg & Htp & Hrg & Hrp).
  assert (Hid : (instance_id < TTYS_NUM_INSTANCES)%nat).
  { rewrite <- Hlen. apply lookup_lt_is_Some_1. eauto. }
  destruct (lookup_lt_is_Some_2 (usart w) instance_id) as [io Hio];
    [rewrite Hlenu; exact Hid|].
  split.
  - intros cs reads Hempty Hroom Hreads Hall p w2.
    assert (Hinv : tx_inv instance_id w [] (DR_written io) (Some b)).
    { exists st, io. cbn [ring_holds]. auto 10. }
    destruct (putc_seq_tx_inv instance_id cs w [] _ _ Hid Hinv) as (w1 & Hp & Hinv1).
    { cbn [length]. lia. }
    subst w2 p. rewrite Hp. cbn [fst snd].
    split; [reflexivity|].
    cbn [app] in Hinv1.
    pose proof (interrupt_seq_tx bits instance_id b cs reads w1 _ Hid Hreads Hall Hinv1)
      as (st2 & io2 & Hst2 & Hio2 & _ & _ & _ & Hring & HD & _).
    split.
    + unfold tx_line. rewrite Hio2, Hio. exact HD.
    + exists st2. split; [exact Hst2|exact Hring].
  - intros reads Hempty Hroom Hall w1 g.
    assert (Hinv : rx_inv instance_id w [] (Some b)).
    { exists st. cbn [ring_holds]. auto 10. }
    pose proof (interrupt_seq_rx bits instance_id b reads w [] Hid Hall) as Hinv1.
    cbn [length app] in Hinv1. specialize (Hinv1 ltac:(lia) Hinv).
    destruct (getc_seq_rx instance_id (Some b) _ w1 Hid Hinv1) as (w2 & Hg & Hinv2).
    rewrite length_map in Hg. subst g. fold w1. rewrite Hg. cbn [fst snd].
    split; [|split; [|split]].
    + rewrite map_map. reflexivity.
    + intros Hbytes. rewrite map_map. apply map_ext_in.
      intros r Hin. rewrite Forall_forall in Hbytes.
      assert (Hr : 0 <= r.2 < 256).
      { apply Hbytes. apply list_elem_of_In. exact Hin. }
      unfold u8. rewrite Z.mod_small by lia. reflexivity.
    + apply (ttys_getc_empty instance_id w2 (Some b) Hid Hinv2).
    + destruct Hinv2 as (st2 & Hst2 & _ & _ & _ & Hring & _).
      exists st2. split; [exact Hst2|exact Hring].
Qed.

Lemma ring_round_trip_witness :
  ((putc_seq 1 [72; 105; 33] demo_mod).1 = [0; 0; 0]
   /\ tx_line 1 (interrupt_seq stm32f4_sr_bits 1 [(0x80, 0); (0xC0, 0); (0x80, 0)]
                   (putc_seq 1 [72; 105; 33] demo_mod).2)
      = [72; 105; 33])
  /\ (getc_seq 1 3
        (interrupt_seq stm32f4_sr_bits 1 [(0x20, 72); (0x20, 105); (0xA0, 33)] demo_mod)).1
     = [(1, Some 72); (1, Some 105); (1, Some 33)].
Proof.
  destruct (ring_round_trip stm32f4_sr_bits 1 demo_mod (idle_state (Some 2%nat) 1022 78)
              eq_refl eq_refl (mk_is_Some _ _ eq_refl)) as [Htx Hrx].
  split.
  - destruct (Htx [72; 105; 33] [(0x80, 0); (0xC0, 0); (0x80, 0)]
                eq_refl ltac:(unfold TTYS_TX_BUF_SIZE; cbn; lia) eq_refl
                ltac:(repeat constructor)) as (H1 & H2 & _).
    split; [exact H1|exact H2].
  - destruct (Hrx [(0x20, 72); (0x20, 105); (0xA0, 33)]
                eq_refl ltac:(unfold TTYS_RX_BUF_SIZE; cbn; lia) ltac:(repeat constructor))
      as (_ & H2 & _).
    apply H2. repeat constructor; cbn; lia.
Defined.


(** *** What an event on one port does to another port *)

Lemma same_port_refl B w : same_port B w w.
Proof. split; reflexivity. Qed.

Lemma same_port_trans B w1 w2 w3 :
  same_port B w1 w2 -> same_port B w2 w3 -> same_port B w1 w3.
Proof. intros [H1 H2] [H3 H4]. split; congruence. Qed.

Lemma same_port_inc_cnt B pm w : same_port B w (inc_cnt pm w).
Proof. split; [rewrite inc_cnt_states|rewrite inc_cnt_usart]; reflexivity. Qed.

Lemma same_port_put_state A B st w : A <> B -> same_port B w (put_state A st w).
Proof.
  intros Hne. split; cbn; [|reflexivity].
  apply list_lookup_insert_ne. exact Hne.
Qed.

Lemma same_port_set_TXEIE A B b w : A <> B -> same_port B w (set_TXEIE A b w).
Proof.
  intros Hne. unfold set_TXEIE. destruct (usart w !! A); [|apply same_port_refl].
  split; cbn; [reflexivity|]. apply list_lookup_insert_ne. exact Hne.
Qed.

Lemma same_port_write_DR A B c w : A <> B -> same_port B w (write_DR A c w).
Proof.
  intros Hne. unfold write_DR. destruct (usart w !! A); [|apply same_port_refl].
  split; cbn; [reflexivity|]. apply list_lookup_insert_ne. exact Hne.
Qed.

Lemma same_port_NVIC_DisableIRQ A B w : A <> B -> same_port B w (NVIC_DisableIRQ A w).
Proof.
  intros Hne. unfold NVIC_DisableIRQ. destruct (usart w !! A); [|apply same_port_refl].
  split; cbn; [reflexivity|]. apply list_lookup_insert_ne. exact Hne.
Qed.

Lemma same_port_ttys_putc A B c w : A <> B -> same_port B w (ttys_putc A c w).2.
Proof.
  intros Hne. unfold ttys_putc.
  destruct (TTYS_NUM_INSTANCES <=? A)%nat; [apply same_port_refl|].
  destruct (ttys_states w !! A) as [st|]; [|apply same_port_refl].
  match goal with |- context [if ?b then _ else _] => destruct b end; cbn [snd].
  - apply same_port_inc_cnt.
  - cbn [uart_reg_base set_tx_put]. destruct (uart_reg_base st).
    + eapply same_port_trans; [apply same_port_put_state|apply same_port_set_TXEIE];
        exact Hne.
    + apply same_port_put_state. exact Hne.
Qed.

Lemma same_port_ttys_interrupt bits A B SR DR w :
  A <> B -> same_port B w (ttys_interrupt bits A SR DR w).
Proof.
  intros Hne. unfold ttys_interrupt.
  destruct (TTYS_NUM_INSTANCES <=? A)%nat; [apply same_port_refl|].
  destruct (ttys_states w !! A) as [st|]; [|apply same_port_refl].
  destruct (uart_reg_base st); [|apply same_port_NVIC_DisableIRQ; exact Hne].
  set (w1 := if sr_flag (u8 SR) (LL_USART_SR_RXNE bits)
             then ttys_interrupt_rx A DR w else w).
  assert (H1 : same_port B w w1).
  { subst w1. destruct (sr_flag (u8 SR) (LL_USART_SR_RXNE bits));
      [|apply same_port_refl].
    unfold ttys_interrupt_rx. destruct (ttys_states w !! A); [|apply same_port_refl].
    match goal with |- context [if ?b then _ else _] => destruct b end.
    - apply same_port_inc_cnt.
    - apply same_port_put_state. exact Hne. }
  set (w2 := if sr_flag (u8 SR) (LL_USART_SR_TXE bits)
             then ttys_interrupt_tx A w1 else w1).
  assert (H2 : same_port B w w2).
  { subst w2. destruct (sr_flag (u8 SR) (LL_USART_SR_TXE bits)); [|exact H1].
    eapply same_port_trans; [exact H1|].
    unfold ttys_interrupt_tx. destruct (ttys_states w1 !! A); [|apply same_port_refl].
    match goal with |- context [if ?b then _ else _] => destruct b end.
    - apply same_port_set_TXEIE. exact Hne.
    - eapply same_port_trans; [apply same_port_write_DR|apply same_port_put_state];
        exact Hne. }
  match goal with |- context [if ?b then _ else _] => destruct b end; [|exact H2].
  eapply same_port_trans; [exact H2|].
  destruct (ttys_interrupt_err_states bits (u8 SR) w2) as [Hs Hu].
  split; congruence.
Qed.

(** *** The counters after an event *)

Import TtysExt.

Lemma rx_next_mod put :
  0 <= put < TTYS_RX_BUF_SIZE ->
  (if TTYS_RX_BUF_SIZE <=? u16 (put + 1) then 0 else u16 (put + 1))
  = (put + 1) mod TTYS_RX_BUF_SIZE.
Proof.
  unfold TTYS_RX_BUF_SIZE, u16. intros Hp.
  rewrite (Z.mod_small (put + 1) (2 ^ 16)) by lia.
  destruct (Z.leb_spec 80 (put + 1)).
  - replace (put + 1) with 80 by lia. reflexivity.
  - rewrite Z.mod_small; lia.
Qed.

Lemma inc_cnt_lookup pm pm' w :
  cnts_u16 (inc_cnt pm w) !! pm'
  = if decide (pm = pm') then INC_SAT_U16 <$> cnts_u16 w !! pm'
    else cnts_u16 w !! pm'.
Proof.
  unfold inc_cnt. destruct (cnts_u16 w !! pm) as [a|] eqn:Ha.
  - cbn. case_decide as Hd.
    + subst. rewrite list_lookup_insert_eq by (apply lookup_lt_is_Some_1; eauto).
      rewrite Ha. reflexivity.
    + apply list_lookup_insert_ne. exact Hd.
  - case_decide; [subst; rewrite Ha|]; reflexivity.
Qed.

Lemma ttys_interrupt_err_lookup bits sr w pm :
  cnts_u16 (ttys_interrupt_err bits sr w) !! pm
  = if err_flagged bits sr pm then INC_SAT_U16 <$> cnts_u16 w !! pm
    else cnts_u16 w !! pm.
Proof.
  unfold ttys_interrupt_err, err_flagged.
  unfold CNT_RX_UART_ORE, CNT_RX_UART_NE, CNT_RX_UART_FE, CNT_RX_UART_PE.
  destruct (sr_flag sr (LL_USART_SR_ORE bits)),
           (sr_flag sr (LL_USART_SR_NE bits)),
           (sr_flag sr (LL_USART_SR_FE bits)),
           (sr_flag sr (LL_USART_SR_PE bits));
    rewrite ?inc_cnt_lookup;
    destruct pm as [|[|[|[|pm]]]]; cbn; reflexivity.
Qed.

Lemma sr_flag_lor sr a b : sr_flag sr (Z.lor a b) = sr_flag sr a || sr_flag sr b.
Proof.
  unfold sr_flag. rewrite Z.land_lor_distr_r.
  destruct (Z.eqb_spec (Z.land sr a) 0) as [Ha|Ha];
    destruct (Z.eqb_spec (Z.land sr b) 0) as [Hb|Hb]; cbn.
  - rewrite Ha, Hb. reflexivity.
  - destruct (Z.eqb_spec (Z.lor (Z.land sr a) (Z.land sr b)) 0) as [H|H];
      [apply Z.lor_eq_0_iff in H; tauto|reflexivity].
  - destruct (Z.eqb_spec (Z.lor (Z.land sr a) (Z.land sr b)) 0) as [H|H];
      [apply Z.lor_eq_0_iff in H; tauto|reflexivity].
  - destruct (Z.eqb_spec (Z.lor (Z.land sr a) (Z.land sr b)) 0) as [H|H];
      [apply Z.lor_eq_0_iff in H; tauto|reflexivity].
Qed.

Lemma cnts_u16_put_state id st w : cnts_u16 (put_state id st w) = cnts_u16 w.
Proof. reflexivity. Qed.

Lemma cnts_u16_set_TXEIE id b w : cnts_u16 (set_TXEIE id b w) = cnts_u16 w.
Proof. unfold set_TXEIE. destruct (usart w !! id); reflexivity. Qed.

Lemma cnts_u16_write_DR id c w : cnts_u16 (write_DR id c w) = cnts_u16 w.
Proof. unfold write_DR. destruct (usart w !! id); reflexivity. Qed.

Lemma cnts_u16_interrupt_tx id w :
  cnts_u16 (ttys_interrupt_tx id w) = cnts_u16 w.
Proof.
  unfold ttys_interrupt_tx. destruct (ttys_states w !! id) as [st|]; [|reflexivity].
  destruct (tx_buf_get_idx st =? tx_buf_put_idx st).
  - apply cnts_u16_set_TXEIE.
  - rewrite cnts_u16_put_state. apply cnts_u16_write_DR.
Qed.

Lemma cnts_u16_interrupt_rx id DR w st pm :
  ttys_states w !! id = Some st ->
  0 <= rx_buf_put_idx st < TTYS_RX_BUF_SIZE ->
  cnts_u16 (ttys_interrupt_rx id DR w) !! pm
  = if (pm =? CNT_RX_BUF_OVERRUN)%nat
       && ((rx_buf_put_idx st + 1) mod TTYS_RX_BUF_SIZE =? rx_buf_get_idx st)
    then INC_SAT_U16 <$> cnts_u16 w !! pm
    else cnts_u16 w !! pm.
Proof.
  intros Hst Hrp. unfold ttys_interrupt_rx. rewrite Hst, (rx_next_mod _ Hrp).
  destruct ((rx_buf_put_idx st + 1) mod TTYS_RX_BUF_SIZE =? rx_buf_get_idx st).
  - rewrite inc_cnt_lookup, andb_true_r.
    destruct (Nat.eqb_spec pm CNT_RX_BUF_OVERRUN) as [->|Hne].
    + rewrite decide_True by reflexivity. reflexivity.
    + rewrite decide_False by congruence. reflexivity.
  - rewrite andb_false_r. reflexivity.
Qed.

(** Every counter after an interrupt of an open port, whatever the status
    value: it is incremented, saturating, exactly when the handler counts
    an event in it. *)
Lemma ttys_interrupt_cnts bits id SR DR w st pm a :
  ttys_wf w = true ->
  ttys_states w !! id = Some st ->
  is_Some (uart_reg_base st) ->
  cnts_u16 w !! pm = Some a ->
  cnts_u16 (ttys_interrupt bits id SR DR w) !! pm
  = Some (if irq_counts bits (u8 SR) st pm then Z.min (a + 1) UINT16_MAX else a).
Proof.
  intros Hwf Hst [b Hb] Ha.
  destruct (ttys_wf_inv w Hwf) as (Hlen & _ & _ & Hcnt & Hsts).
  destruct (state_wf_inv st (Hsts _ _ Hst)) as (_ & _ & _ & _ & _ & Hrp).
  assert (Hid : (id < TTYS_NUM_INSTANCES)%nat).
  { rewrite <- Hlen. apply lookup_lt_is_Some_1. eauto. }
  apply Nat.leb_gt in Hid.
  unfold ttys_interrupt. rewrite Hid, Hst, Hb.
  set (w1 := if sr_flag (u8 SR) (LL_USART_SR_RXNE bits)
             then ttys_interrupt_rx id DR w else w).
  set (w2 := if sr_flag (u8 SR) (LL_USART_SR_TXE bits)
             then ttys_interrupt_tx id w1 else w1).
  assert (H1 : cnts_u16 w1 !! pm
               = Some (if (pm =? CNT_RX_BUF_OVERRUN)%nat
                          && sr_flag (u8 SR) (LL_USART_SR_RXNE bits)
                          && ((rx_buf_put_idx st + 1) mod TTYS_RX_BUF_SIZE
                              =? rx_buf_get_idx st)
                       then Z.min (a + 1) UINT16_MAX else a)).
  { subst w1. destruct (sr_flag (u8 SR) (LL_USART_SR_RXNE bits)).
    - rewrite (cnts_u16_interrupt_rx id DR w st pm Hst Hrp), andb_true_r.
      destruct (_ && _); rewrite Ha; [|reflexivity].
      cbn. rewrite (INC_SAT_U16_min a (Hcnt _ _ Ha)). reflexivity.
    - rewrite andb_false_r. exact Ha. }
  assert (H2 : cnts_u16 w2 !! pm = cnts_u16 w1 !! pm).
  { subst w2. destruct (sr_flag (u8 SR) (LL_USART_SR_TXE bits)); [|reflexivity].
    rewrite cnts_u16_interrupt_tx. reflexivity. }
  assert (Herr : sr_flag (u8 SR)
                   (Z.lor (LL_USART_SR_ORE bits)
                      (Z.lor (LL_USART_SR_NE bits)
                         (Z.lor (LL_USART_SR_FE bits) (LL_USART_SR_PE bits)))) = false ->
                 err_flagged bits (u8 SR) pm = false).
  { rewrite !sr_flag_lor. intros H.
    apply orb_false_iff in H as [Ho H]. apply orb_false_iff in H as [Hn H].
    apply orb_false_iff in H as [Hf Hp].
    unfold err_flagged. rewrite Ho, Hn, Hf, Hp.
    repeat match goal with |- context [if ?c then _ else _] => destruct c end;
      reflexivity. }
  unfold irq_counts.
  assert (Hexcl : (pm =? CNT_RX_BUF_OVERRUN)%nat = true ->
                  err_flagged bits (u8 SR) pm = false).
  { intros H. apply Nat.eqb_eq in H. subst pm. reflexivity. }
  destruct (sr_flag (u8 SR) (Z.lor _ _)) eqn:Hany.
  - rewrite ttys_interrupt_err_lookup, H2, H1.
    destruct (err_flagged bits (u8 SR) pm) eqn:He.
    + destruct ((pm =? CNT_RX_BUF_OVERRUN)%nat) eqn:Hpm;
        [discriminate (Hexcl eq_refl)|].
      cbn. rewrite (INC_SAT_U16_min a (Hcnt _ _ Ha)). reflexivity.
    + rewrite orb_false_r. reflexivity.
  - rewrite (Herr eq_refl), orb_false_r, H2. exact H1.
Qed.

(** C2, the claim as stated fails: ports 0 and 1 are distinct, and an
    overrun of the transmit ring of port 0 takes the transmit overrun counter
    of port 1 from 65534 to 65535. *)
Lemma per_port_counters_counterexample :
  0%nat <> 1%nat
  /\ (ttys_putc 0 66 demo_mod).1 = MOD_ERR_BUF_OVERRUN
  /\ port_cnt 1 CNT_TX_BUF_OVERRUN demo_mod = 65534
  /\ port_cnt 1 CNT_TX_BUF_OVERRUN (ttys_putc 0 66 demo_mod).2 = 65535.
Proof. repeat split. discriminate. Qed.

(** C2 as amended.  The counters are common to the instances.  For distinct
    ports [A] and [B], [ttys_putc] on [A] and an interrupt of [A] leave the
    state of [B] (rings, indices, peripheral) unchanged; but the counters are
    one array for the module, and each counted event on [A] increments,
    saturating at [UINT16_MAX], the counter that is read for [B]:
    - [ttys_putc] on [A] with the transmit ring of [A] full takes the
      transmit overrun counter of [B] from [a] to [min (a + 1) UINT16_MAX]
      and leaves the other counters of [B] as they are;
    - an interrupt of [A], whatever the status value, takes a counter of [B]
      from [a] to [min (a + 1) UINT16_MAX] exactly when the handler counts
      an event in it ([irq_counts]: a received character dropped because
      the receive ring of [A] is full, or a set error flag ORE, NE, FE or
      PE), and leaves it as it is otherwise;
    and whatever the state, [A] and [B] read the same counters. *)
Theorem ttys_counters_common (bits : usart_sr_bits) (A B : nat) (w : ttys_mod) :
  A <> B ->
  (forall c, same_port B w (ttys_putc A c w).2)
  /\ (forall SR DR, same_port B w (ttys_interrupt bits A SR DR w))
  /\ (forall st pm a,
        ttys_wf w = true ->
        ttys_states w !! A = Some st ->
        cnts_u16 w !! pm = Some a ->
        port_cnt B pm w = a
        /\ (forall c,
              (tx_buf_put_idx st + 1) mod TTYS_TX_BUF_SIZE = tx_buf_get_idx st ->
              (ttys_putc A c w).1 = MOD_ERR_BUF_OVERRUN
              /\ port_cnt B pm (ttys_putc A c w).2
                 = if (pm =? CNT_TX_BUF_OVERRUN)%nat
                   then Z.min (a + 1) UINT16_MAX else a)
        /\ (forall SR DR,
              is_Some (uart_reg_base st) ->
              port_cnt B pm (ttys_interrupt bits A SR DR w)
              = if irq_counts bits (u8 SR) st pm
                then Z.min (a + 1) UINT16_MAX else a))
  /\ (forall pm w', port_cnt A pm w' = port_cnt B pm w').
Proof.
  intros Hne. split; [|split; [|split]].
  - intros c. apply same_port_ttys_putc. exact Hne.
  - intros SR DR. apply same_port_ttys_interrupt. exact Hne.
  - intros st pm a Hwf Hst Ha.
    destruct (ttys_wf_inv w Hwf) as (Hlen & _ & _ & Hcnt & Hsts).
    destruct (state_wf_inv st (Hsts _ _ Hst)) as (_ & _ & _ & Hput & _).
    assert (Hid : (A < TTYS_NUM_INSTANCES)%nat).
    { rewrite <- Hlen. apply lookup_lt_is_Some_1. eauto. }
    split; [unfold port_cnt; rewrite Ha; reflexivity|]. split.
    + intros c Hfull. unfold ttys_putc. apply Nat.leb_gt in Hid.
      rewrite Hid, Hst, (tx_next_mod _ Hput), Hfull, Z.eqb_refl. cbn [fst snd].
      split; [reflexivity|]. unfold port_cnt. rewrite inc_cnt_lookup.
      destruct (Nat.eqb_spec pm CNT_TX_BUF_OVERRUN) as [->|Hpm].
      * rewrite decide_True by reflexivity. rewrite Ha. cbn.
        apply INC_SAT_U16_min. exact (Hcnt _ _ Ha).
      * rewrite decide_False by congruence. rewrite Ha. reflexivity.
    + intros SR DR Hopen. unfold port_cnt.
      rewrite (ttys_interrupt_cnts bits A SR DR w st pm a Hwf Hst Hopen Ha).
      reflexivity.
  - intros pm w'. reflexivity.
Qed.

Lemma ttys_counters_common_witness :
  same_port 1 demo_mod (ttys_putc 0 66 demo_mod).2
  /\ same_port 1 demo_mod (ttys_interrupt stm32f4_sr_bits 0 0xA8 66 demo_mod)
  /\ port_cnt 1 CNT_TX_BUF_OVERRUN (ttys_putc 0 66 demo_mod).2 = 65535
  /\ port_cnt 1 CNT_RX_UART_ORE (ttys_interrupt stm32f4_sr_bits 0 0xA8 66 demo_mod) = 1
  /\ port_cnt 1 CNT_RX_UART_NE (ttys_interrupt stm32f4_sr_bits 0 0xA8 66 demo_mod) = 0
  /\ port_cnt 0 CNT_RX_BUF_OVERRUN (ttys_interrupt stm32f4_sr_bits 1 0x20 67 rx_full_mod)
     = 1.
Proof.
  destruct (ttys_counters_common stm32f4_sr_bits 0 1 demo_mod ltac:(discriminate))
    as (H1 & H2 & H3 & _).
  split; [exact (H1 66)|]. split; [exact (H2 0xA8 66)|].
  destruct (H3 (full_state (Some 1%nat)) CNT_TX_BUF_OVERRUN 65534
              ltac:(vm_compute; reflexivity) eq_refl eq_refl) as (_ & Hputc & _).
  split; [exact (proj2 (Hputc 66 eq_refl))|].
  destruct (H3 (full_state (Some 1%nat)) CNT_RX_UART_ORE 0
              ltac:(vm_compute; reflexivity) eq_refl eq_refl) as (_ & _ & Hore).
  split; [exact (Hore 0xA8 66 (mk_is_Some _ _ eq_refl))|].
  destruct (H3 (full_state (Some 1%nat)) CNT_RX_UART_NE 0
              ltac:(vm_compute; reflexivity) eq_refl eq_refl) as (_ & _ & Hn).
  split; [exact (Hn 0xA8 66 (mk_is_Some _ _ eq_refl))|].
  destruct (ttys_counters_common stm32f4_sr_bits 1 0 rx_full_mod ltac:(discriminate))
    as (_ & _ & H3' & _).
  destruct (H3' (mk_ttys_state (mk_ttys_cfg true true) None 1 (Some 2%nat) 5 4 0 0
                   (replicate (Z.to_nat TTYS_TX_BUF_SIZE) 0)
                   (replicate (Z.to_nat TTYS_RX_BUF_SIZE) 66))
              CNT_RX_BUF_OVERRUN 0 ltac:(vm_compute; reflexivity) eq_refl eq_refl)
    as (_ & _ & Hrx).
  exact (Hrx 0x20 67 (mk_is_Some _ _ eq_refl)).
Defined.

End TtysProofs.

Module CmdProofs.
Import Libc Cmd.

Example tokenize_spaces :
  tokenize (c_str "  tmr   status  1 2 ") [] = Tokens ["tmr"; "status"; "1"; "2"]%string.
Proof. reflexivity. Qed.

Example tokenize_eleven :
  tokenize (c_str "* log bogus a b c d e f g h") [] = TooManyTokens.
Proof. reflexivity. Qed.

(** *** The wild card branch *)

Lemma wildcard_log_loop_print cis : forall w o,
  (wildcard_log_loop cis None w o).1 = w.
Proof.
  induction cis as [|ci cis IH]; intros w o; cbn [wildcard_log_loop]; [reflexivity|].
  destruct (log_level_ptr ci); apply IH.
Qed.

Lemma strcmp_star : strcmp "*" "*" = 0.
Proof. reflexivity. Qed.

(** C1, the code at the failing input ["* foo"]: the first token is [*]
    and the second is not [log], and [cmd_execute] returns 0, prints
    nothing, calls no handler and changes nothing, where the claim says
    [MOD_ERR_ARG].  The paths next to it do report: a wild card without a
    command, and an unknown command of a client. *)
Lemma wildcard_unknown_counterexample :
  tokenize (c_str "* foo") [] = Tokens ["*"; "foo"]%string
  /\ strcasecmp "foo" "log" <> 0
  /\ rc (cmd_execute echo_func "* foo" demo_cmd) = 0
  /\ rc (cmd_execute echo_func "* foo" demo_cmd) <> MOD_ERR_ARG
  /\ cmd_execute echo_func "* foo" demo_cmd = mk_result 0 demo_cmd []
  /\ cmd_execute echo_func "*" demo_cmd
     = mk_result MOD_ERR_BAD_CMD demo_cmd [Printf ("Wildcard missing command" +:+ nl)]
  /\ cmd_execute echo_func "tmr foo" demo_cmd
     = mk_result MOD_ERR_BAD_CMD demo_cmd [Printf ("No such command (tmr foo)" +:+ nl)].
Proof. repeat split; vm_compute; discriminate. Qed.

(** C1, what the code does with a wild card line (for the second token the
    claim is not what the code does, as the evaluation above shows; for
    the third token it is).  A line of more than [MAX_CMD_TOKENS] tokens
    is refused with [MOD_ERR_BAD_CMD].  Otherwise, when the first token is
    [*]:
    - with no second token, [cmd_execute] returns [MOD_ERR_BAD_CMD];
    - with a second token other than [log] (in any case), it returns 0,
      prints nothing, calls no handler and changes nothing;
    - with second token [log] and a third token that [log_level_int] does
      not know, it returns [MOD_ERR_ARG] and changes nothing. *)
Theorem cmd_execute_wildcard_spec
    (func_run : nat -> Z -> list string -> cmd_mod -> Z * cmd_mod * list console_out)
    (bfr : string) (w : cmd_mod) :
  let r := cmd_execute func_run bfr w in
  match tokenize (c_str bfr) [] with
  | TooManyTokens => rc r = MOD_ERR_BAD_CMD /\ world r = w
  | Tokens tokens =>
      token tokens 0 = "*"%string ->
      (length tokens = 1%nat -> rc r = MOD_ERR_BAD_CMD /\ world r = w)
      /\ ((2 <= length tokens)%nat ->
          strcasecmp (token tokens 1) "log" <> 0 ->
          rc r = 0 /\ world r = w /\ out r = [] /\ calls r = [])
      /\ ((3 <= length tokens)%nat ->
          strcasecmp (token tokens 1) "log" = 0 ->
          log_level_int (token tokens 2) < 0 ->
          rc r = MOD_ERR_ARG /\ world r = w)
  end.
Proof.
  intros r. subst r. unfold cmd_execute.
  destruct (tokenize (c_str bfr) []) as [|tokens]; [split; reflexivity|].
  intros Hstar. rewrite Hstar, strcmp_star. cbn [Z.eqb].
  assert (Hn0 : (Z.of_nat (length tokens) =? 0) = false).
  { apply Z.eqb_neq. destruct tokens; [discriminate Hstar|cbn [length]; lia]. }
  rewrite Hn0. unfold cmd_execute_wildcard.
  split; [|split].
  - intros Hlen. rewrite Hlen. cbn. split; reflexivity.
  - intros Hlen Hnolog.
    destruct (Z.ltb_spec (Z.of_nat (length tokens)) 2); [lia|].
    apply Z.eqb_neq in Hnolog. rewrite Hnolog. cbn. auto.
  - intros Hlen Hlog Hbad.
    destruct (Z.ltb_spec (Z.of_nat (length tokens)) 2); [lia|].
    rewrite Hlog. cbn [Z.eqb].
    apply Z.ltb_lt in Hbad. rewrite Hbad.
    destruct (Z.eqb_spec (Z.of_nat (length tokens)) 3); cbn [andb negb].
    + split; reflexivity.
    + destruct (Z.ltb_spec 3 (Z.of_nat (length tokens))); [|lia].
      split; reflexivity.
Qed.

Lemma cmd_execute_wildcard_spec_witness :
  rc (cmd_execute echo_func "* log loud" demo_cmd) = MOD_ERR_ARG
  /\ world (cmd_execute echo_func "* log loud" demo_cmd) = demo_cmd.
Proof.
  pose proof (cmd_execute_wildcard_spec echo_func "* log loud" demo_cmd) as H.
  cbv zeta in H.
  change (tokenize (c_str "* log loud") []) with (Tokens ["*"; "log"; "loud"]%string) in H.
  destruct (H eq_refl) as (_ & _ & H3).
  apply H3; [cbn; lia|reflexivity|reflexivity].
Defined.


(** *** The client branch *)

(** Two strings that [strcasecmp] finds equal start with the same letter. *)
Lemma strcasecmp_head a d b :
  strcasecmp a (String d b) = 0 -> tolower d <> 0 ->
  exists c a', a = String c a' /\ tolower c = tolower d.
Proof.
  intros H Hd. destruct a as [|c a']; cbn [strcasecmp] in H; [lia|].
  exists c, a'. split; [reflexivity|].
  destruct (Z.eqb_spec (tolower c) (tolower d)); [assumption|lia].
Qed.

Lemma strcasecmp_head_ne a d b d' b' :
  strcasecmp a (String d b) = 0 -> tolower d <> 0 -> tolower d <> tolower d' ->
  (strcasecmp a (String d' b') =? 0) = false.
Proof.
  intros H Hd Hne. destruct (strcasecmp_head a d b H Hd) as (c & a' & -> & Hc).
  cbn [strcasecmp]. rewrite Hc.
  destruct (Z.eqb_spec (tolower d) (tolower d')); [contradiction|].
  apply Z.eqb_neq. lia.
Qed.

(** The dummy second token does not change what [tokens[i]] reads. *)
Lemma token_dummy tokens0 i :
  token (if Z.of_nat (length tokens0) =? 1 then tokens0 ++ [""%string] else tokens0) i
  = token tokens0 i.
Proof.
  destruct (Z.eqb_spec (Z.of_nat (length tokens0)) 1) as [Hlen|]; [|reflexivity].
  destruct tokens0 as [|t0 [|t1 rest]]; cbn [length] in Hlen; try lia.
  destruct i as [|[|[|i]]]; reflexivity.
Qed.

Lemma find_client_first func_run cis tokens w :
  find_client func_run cis tokens w
  = match first_client cis (token tokens 0) with
    | Some ci => cmd_execute_client func_run ci tokens w
    | None =>
        mk_result MOD_ERR_BAD_CMD w
          [Printf ("No such command (" +:+ token tokens 0 +:+ ")" +:+ nl)]
    end.
Proof.
  induction cis as [|ci cis IH]; cbn [find_client first_client]; [reflexivity|].
  destruct (strcasecmp (token tokens 0) (name ci) =? 0); cbn [negb]; [reflexivity|].
  exact IH.
Qed.

(** The client branch with a second token it handles itself calls no
    handler. *)
Lemma cmd_execute_client_intercepted func_run ci tokens w :
  intercepted (token tokens 1) = true ->
  calls (cmd_execute_client func_run ci tokens w) = [].
Proof.
  unfold intercepted, is_help, cmd_execute_client. intros Hint.
  rewrite !token_dummy.
  destruct (strcasecmp (token tokens 1) "help" =? 0); [reflexivity|].
  destruct (strcasecmp (token tokens 1) "?" =? 0); [reflexivity|].
  destruct (strcasecmp (token tokens 1) "log" =? 0).
  { cbn [orb]. destruct (log_level_ptr ci); [|reflexivity].
    destruct (_ <? 3); [reflexivity|]. destruct (_ <? 0); reflexivity. }
  destruct (strcasecmp (token tokens 1) "pm" =? 0); [|discriminate Hint].
  cbn [orb]. destruct (0 <? num_u16_pms ci); [|reflexivity].
  destruct (pm_loop _ _ _ _ _). reflexivity.
Qed.

Lemma wildcard_calls tokens w : calls (cmd_execute_wildcard tokens w) = [].
Proof.
  unfold cmd_execute_wildcard.
  repeat match goal with
         | |- context [if ?b then _ else _] => destruct b
         end; try reflexivity.
  all: destruct (wildcard_log_loop _ _ _ _); reflexivity.
Qed.


(** A handler that the command loop calls belongs to a command whose name
    matches the second token. *)
Lemma find_cmd_calls func_run ccis num_tokens tokens w c :
  In c (calls (find_cmd func_run ccis num_tokens tokens w)) ->
  exists cci, In cci ccis /\ call_func c = func cci
              /\ strcasecmp (token tokens 1) (cmd_name cci) = 0.
Proof.
  induction ccis as [|cci ccis IH]; cbn [find_cmd]; [intros []|].
  destruct (Z.eqb_spec (strcasecmp (token tokens 1) (cmd_name cci)) 0) as [Heq|].
  - destruct (func_run _ _ _ _) as [[? ?] ?]. cbn [calls].
    intros [<-|[]]. exists cci. cbn. auto.
  - intros Hin. destruct (IH Hin) as (cci' & Hin' & Hf & Hs).
    exists cci'. cbn. auto.
Qed.

Lemma cmd_execute_client_calls func_run ci tokens w c :
  In c (calls (cmd_execute_client func_run ci tokens w)) ->
  exists cci, In cci (client_cmds ci) /\ call_func c = func cci
              /\ strcasecmp (token tokens 1) (cmd_name cci) = 0
              /\ intercepted (token tokens 1) = false.
Proof.
  destruct (intercepted (token tokens 1)) eqn:Hint.
  { rewrite (cmd_execute_client_intercepted _ _ _ _ Hint). intros []. }
  unfold intercepted, is_help in Hint. apply orb_false_iff in Hint as [Hint Hpm].
  apply orb_false_iff in Hint as [Hint Hlog].
  apply orb_false_iff in Hint as [Hhelp Hq].
  unfold cmd_execute_client. rewrite !token_dummy, Hhelp, Hq, Hlog, Hpm. cbn [orb].
  intros Hin. apply find_cmd_calls in Hin. rewrite token_dummy in Hin.
  destruct Hin as (cci & ? & ? & ?). exists cci. auto.
Qed.

(** C9.  For a line of tokens [t0 t1 ...]:
    - when [t1] is [help], [?], [log] or [pm] (in any case), [cmd_execute]
      calls no handler;
    - a handler that is called belongs to a command of the client addressed
      by [t0] whose name matches [t1], and that name is neither [log] nor
      [pm]: a command registered under these names is never dispatched;
    - when the line is for client [ci] ([t0] is not [*], [help] or [?], and
      [ci] is the first registered client whose name matches it): [help] and
      [?] return 0 without a change; [log] returns 0 without a change when
      [ci] has no log level; [pm] returns 0 without a change or output when
      [ci] has no counters. *)
Theorem cmd_execute_intercepts
    (func_run : nat -> Z -> list string -> cmd_mod -> Z * cmd_mod * list console_out)
    (bfr : string) (w : cmd_mod) (tokens : list string) :
  tokenize (c_str bfr) [] = Tokens tokens ->
  let r := cmd_execute func_run bfr w in
  let t0 := token tokens 0 in
  let t1 := token tokens 1 in
  (intercepted t1 = true -> calls r = [])
  /\ (forall c, In c (calls r) ->
      exists ci cci,
        first_client (registered w) t0 = Some ci
        /\ In cci (client_cmds ci) /\ call_func c = func cci
        /\ strcasecmp t1 (cmd_name cci) = 0
        /\ cmd_name cci <> "log"%string /\ cmd_name cci <> "pm"%string)
  /\ (forall ci,
        strcmp "*" t0 <> 0 ->
        strcasecmp "help" t0 <> 0 ->
        strcasecmp "?" t0 <> 0 ->
        first_client (registered w) t0 = Some ci ->
        (is_help t1 = true -> rc r = 0 /\ world r = w)
        /\ (strcasecmp t1 "log" = 0 -> log_level_ptr ci = None ->
            rc r = 0 /\ world r = w)
        /\ (strcasecmp t1 "pm" = 0 -> num_u16_pms ci <= 0 ->
            rc r = 0 /\ world r = w /\ out r = [])).
Proof.
  intros Htok r t0 t1. subst r. unfold cmd_execute. rewrite Htok.
  fold t0. split; [|split].
  - intros Hint.
    destruct (Z.of_nat (length tokens) =? 0); [reflexivity|].
    destruct (strcmp "*" t0 =? 0); [apply wildcard_calls|].
    destruct ((strcasecmp "help" t0 =? 0) || (strcasecmp "?" t0 =? 0)); [reflexivity|].
    rewrite find_client_first. fold t0.
    destruct (first_client (registered w) t0); [|reflexivity].
    apply cmd_execute_client_intercepted. exact Hint.
  - intros c.
    destruct (Z.of_nat (length tokens) =? 0); [intros []|].
    destruct (strcmp "*" t0 =? 0); [rewrite wildcard_calls; intros []|].
    destruct ((strcasecmp "help" t0 =? 0) || (strcasecmp "?" t0 =? 0)); [intros []|].
    rewrite find_client_first. fold t0.
    destruct (first_client (registered w) t0) as [ci|]; [|intros []].
    intros Hin. apply cmd_execute_client_calls in Hin.
    destruct Hin as (cci & Hin & Hf & Hs & Hint).
    exists ci, cci. fold t1 in Hs, Hint. repeat split; auto.
    + intros Hname. rewrite Hname in Hs. unfold intercepted in Hint.
      rewrite Hs in Hint. cbn in Hint. rewrite orb_true_r in Hint. discriminate Hint.
    + intros Hname. rewrite Hname in Hs. unfold intercepted in Hint.
      rewrite Hs in Hint. cbn in Hint. rewrite orb_true_r in Hint. discriminate Hint.
  - intros ci Hstar Hhelp Hq Hfirst.
    apply Z.eqb_neq in Hstar, Hhelp, Hq. rewrite Hstar, Hhelp, Hq. cbn [orb].
    rewrite find_client_first. fold t0. rewrite Hfirst.
    destruct (Z.eqb_spec (Z.of_nat (length tokens)) 0) as [Hlen|Hlen].
    { assert (tokens = []) by (destruct tokens; [reflexivity|cbn in Hlen; lia]).
      subst tokens. subst t1. cbn.
      repeat split; intros; try reflexivity; discriminate. }
    unfold cmd_execute_client. rewrite !token_dummy. fold t1.
    split; [|split].
    + unfold is_help. intros Hh. rewrite Hh. split; reflexivity.
    + intros Hlog Hptr.
      rewrite (strcasecmp_head_ne t1 "l" "og" "h" "elp" Hlog) by (vm_compute; discriminate).
      rewrite (strcasecmp_head_ne t1 "l" "og" "?" "" Hlog) by (vm_compute; discriminate).
      rewrite Hlog, Hptr. cbn. split; reflexivity.
    + intros Hpm Hnum.
      rewrite (strcasecmp_head_ne t1 "p" "m" "h" "elp" Hpm) by (vm_compute; discriminate).
      rewrite (strcasecmp_head_ne t1 "p" "m" "?" "" Hpm) by (vm_compute; discriminate).
      rewrite (strcasecmp_head_ne t1 "p" "m" "l" "og" Hpm) by (vm_compute; discriminate).
      rewrite Hpm. cbn [orb Z.eqb].
      destruct (Z.ltb_spec 0 (num_u16_pms ci)); [lia|]. cbn. auto.
Qed.

Lemma cmd_execute_intercepts_witness :
  calls (cmd_execute echo_func "led LOG debug" demo_cmd) = []
  /\ rc (cmd_execute echo_func "led LOG debug" demo_cmd) = 0
  /\ world (cmd_execute echo_func "led LOG debug" demo_cmd) = demo_cmd.
Proof.
  destruct (cmd_execute_intercepts echo_func "led LOG debug" demo_cmd
              ["led"; "LOG"; "debug"]%string eq_refl) as (H1 & _ & H2).
  split; [exact (H1 eq_refl)|].
  destruct (H2 led_client) as (_ & Hlog & _);
    [vm_compute; discriminate ..|reflexivity|].
  apply Hlog; reflexivity.
Defined.


(** *** Argument parsing *)

Lemma valid_u_inv arg :
  valid_u arg = true -> arg <> ""%string /\ (strtoul arg 0).2 = ""%string.
Proof.
  unfold valid_u. rewrite andb_true_iff, negb_true_iff.
  rewrite String.eqb_neq, String.eqb_eq. tauto.
Qed.

(** Decimal numerals are valid unsigned tokens. *)
Lemma digit_val_dec c :
  is_dec_digit c = true -> digit_val c = Some (char_code c - 48) /\ char_code c - 48 < 10.
Proof.
  unfold is_dec_digit, digit_val. intros H. rewrite H.
  apply andb_true_iff in H. split; [reflexivity|lia].
Qed.

Lemma parse_digits_dec s : forall acc any,
  all_dec_digits s = true ->
  exists v, parse_digits 10 s acc any = (v, any || negb (String.eqb s ""), ""%string).
Proof.
  induction s as [|c s IH]; intros acc any Hall; cbn [parse_digits all_dec_digits] in *.
  - exists acc. rewrite orb_false_r. reflexivity.
  - apply andb_true_iff in Hall as [Hc Hs].
    destruct (digit_val_dec c Hc) as [Hd Hlt]. rewrite Hd.
    apply Z.ltb_lt in Hlt. rewrite Hlt.
    destruct (IH (acc * 10 + (char_code c - 48)) true Hs) as [v Hv].
    exists v. rewrite Hv. cbn. rewrite orb_true_r. reflexivity.
Qed.

Lemma valid_u_decimal s : is_decimal s = true -> valid_u s = true.
Proof.
  destruct s as [|c s]; [discriminate|]. cbn [is_decimal]. intros H.
  apply andb_true_iff in H as [H Hs]. apply andb_true_iff in H as [Hc Hnz].
  destruct (parse_digits_dec (String c s) 0 false) as [v Hv].
  { cbn [all_dec_digits]. rewrite Hc, Hs. reflexivity. }
  unfold valid_u, strtoul, strto_subject.
  assert (Hsp : skip_space (String c s) = String c s).
  { cbn [skip_space]. unfold isspace. unfold is_dec_digit in Hc.
    apply andb_true_iff in Hc.
    destruct (Z.eqb_spec (char_code c) 32); [lia|].
    destruct (Z.leb_spec 9 (char_code c)); destruct (Z.leb_spec (char_code c) 13);
      try lia; reflexivity. }
  rewrite Hsp. clear Hsp.
  destruct c as [b0 b1 b2 b3 b4 b5 b6 b7].
  destruct b0, b1, b2, b3, b4, b5, b6, b7; try discriminate Hc; try discriminate Hnz;
    cbv beta iota zeta; cbn [Z.eqb orb]; rewrite Hv; reflexivity.
Qed.

Example strtoul_hex_rest : strtoul "0x1G" 0 = (1, "G"%string).
Proof. reflexivity. Qed.

Example strtoul_octal : strtoul "017" 0 = (15, ""%string).
Proof. reflexivity. Qed.

Example strtoul_bare_prefix : strtoul "0x" 0 = (0, "x"%string).
Proof. reflexivity. Qed.

Example strtoul_saturates : strtoul "99999999999" 0 = (ULONG_MAX, ""%string).
Proof. reflexivity. Qed.

(** One iteration of the loop of [cmd_parse_args] at type code [u], for an
    argument that is there and not empty. *)
Lemma cmd_parse_args_loop_u fmt' argc arg argv' arg_cnt opt_args vals :
  arg_cnt < argc -> arg <> ""%string ->
  cmd_parse_args_loop (String "u" fmt') argc (arg :: argv') arg_cnt opt_args vals
  = if negb (String.eqb (strtoul arg 0).2 "")
    then parse_error MOD_ERR_ARG vals
           ("Argument '" +:+ arg +:+ "' not a valid unsigned integer" +:+ nl)
    else cmd_parse_args_loop fmt' argc argv' (arg_cnt + 1) false
           (vals ++ [mk_cmd_arg_val "u" (val_u (strtoul arg 0).1)]).
Proof.
  intros Hcnt Harg. cbn [cmd_parse_args_loop].
  change (Ascii.eqb "u" "[") with false. change (Ascii.eqb "u" "]") with false.
  change (Ascii.eqb "u" "i") with false. change (Ascii.eqb "u" "u") with true.
  cbv iota.
  destruct (Z.leb_spec argc arg_cnt); [lia|].
  destruct arg as [|c arg]; [contradiction|].
  destruct (strtoul (String c arg) 0) as [v endptr]. reflexivity.
Qed.

(** C7.  [cmd_parse_args] with format ["u[u"]:
    - one valid unsigned token: count 1; two: count 2;
    - no token: [MOD_ERR_BAD_CMD] ("Insufficient arguments");
    - three or more tokens, the first two valid: [MOD_ERR_BAD_CMD]
      ("Too many arguments");
    - a token, first or second, of which [strtoul] leaves characters
      unconsumed: [MOD_ERR_ARG], with a message that quotes the token;
      ["0x1G"] is one. *)
Theorem cmd_parse_args_u_opt_u :
  (forall t1, valid_u t1 = true ->
     cmd_parse_args 1 [t1] "u[u" = mk_parse_result 1 [u_val t1] [])
  /\ (forall t1 t2, valid_u t1 = true -> valid_u t2 = true ->
      cmd_parse_args 2 [t1; t2] "u[u" = mk_parse_result 2 [u_val t1; u_val t2] [])
  /\ cmd_parse_args 0 [] "u[u"
     = mk_parse_result MOD_ERR_BAD_CMD [] [Printf ("Insufficient arguments" +:+ nl)]
  /\ (forall t1 t2 t3 rest, valid_u t1 = true -> valid_u t2 = true ->
      cmd_parse_args (Z.of_nat (length (t1 :: t2 :: t3 :: rest)))
        (t1 :: t2 :: t3 :: rest) "u[u"
      = mk_parse_result MOD_ERR_BAD_CMD [u_val t1; u_val t2]
          [Printf ("Too many arguments" +:+ nl)])
  /\ (forall t rest, t <> ""%string -> (strtoul t 0).2 <> ""%string ->
      cmd_parse_args (Z.of_nat (length (t :: rest))) (t :: rest) "u[u"
      = mk_parse_result MOD_ERR_ARG []
          [Printf ("Argument '" +:+ t +:+ "' not a valid unsigned integer" +:+ nl)])
  /\ (forall t1 t rest, valid_u t1 = true ->
      t <> ""%string -> (strtoul t 0).2 <> ""%string ->
      cmd_parse_args (Z.of_nat (length (t1 :: t :: rest))) (t1 :: t :: rest) "u[u"
      = mk_parse_result MOD_ERR_ARG [u_val t1]
          [Printf ("Argument '" +:+ t +:+ "' not a valid unsigned integer" +:+ nl)])
  /\ cmd_parse_args 1 ["0x1G"%string] "u[u"
     = mk_parse_result MOD_ERR_ARG []
         [Printf ("Argument '0x1G' not a valid unsigned integer" +:+ nl)].
Proof.
  assert (Hopt : forall fmt' argc argv arg_cnt opt_args vals,
             cmd_parse_args_loop (String "[" fmt') argc argv arg_cnt opt_args vals
             = cmd_parse_args_loop fmt' argc argv arg_cnt true vals)
    by reflexivity.
  assert (Hend : forall argc argv arg_cnt vals,
             argc <= arg_cnt ->
             cmd_parse_args_loop "u" argc argv arg_cnt true vals
             = mk_parse_result arg_cnt vals []).
  { intros argc argv arg_cnt vals Hle. cbn [cmd_parse_args_loop].
    change (Ascii.eqb "u" "[") with false. change (Ascii.eqb "u" "]") with false.
    cbv iota. destruct (Z.leb_spec argc arg_cnt); [reflexivity|lia]. }
  unfold cmd_parse_args.
  split; [|split; [|split; [|split; [|split; [|split]]]]].
  - intros t1 H1. apply valid_u_inv in H1 as [Hne He].
    rewrite cmd_parse_args_loop_u by (lia || assumption).
    rewrite He. cbn [String.eqb negb]. rewrite Hopt, Hend by lia. reflexivity.
  - intros t1 t2 H1 H2. apply valid_u_inv in H1 as [Hne1 He1].
    apply valid_u_inv in H2 as [Hne2 He2].
    rewrite cmd_parse_args_loop_u by (lia || assumption).
    rewrite He1. cbn [String.eqb negb]. rewrite Hopt.
    rewrite cmd_parse_args_loop_u by (lia || assumption).
    rewrite He2. reflexivity.
  - reflexivity.
  - intros t1 t2 t3 rest H1 H2. apply valid_u_inv in H1 as [Hne1 He1].
    apply valid_u_inv in H2 as [Hne2 He2].
    rewrite cmd_parse_args_loop_u by (cbn [length]; lia || assumption).
    rewrite He1. cbn [String.eqb negb]. rewrite Hopt.
    rewrite cmd_parse_args_loop_u by (cbn [length]; lia || assumption).
    rewrite He2. cbn [String.eqb negb cmd_parse_args_loop app].
    destruct (Z.ltb_spec (0 + 1 + 1) (Z.of_nat (length (t1 :: t2 :: t3 :: rest))));
      [reflexivity|cbn [length] in *; lia].
  - intros t rest Hne He.
    rewrite cmd_parse_args_loop_u by (cbn [length]; lia || assumption).
    apply String.eqb_neq in He. rewrite He. reflexivity.
  - intros t1 t rest H1 Hne He. apply valid_u_inv in H1 as [Hne1 He1].
    rewrite cmd_parse_args_loop_u by (cbn [length]; lia || assumption).
    rewrite He1. cbn [String.eqb negb]. rewrite Hopt.
    rewrite cmd_parse_args_loop_u by (cbn [length]; lia || assumption).
    apply String.eqb_neq in He. rewrite He. reflexivity.
  - reflexivity.
Qed.

Lemma cmd_parse_args_u_opt_u_witness :
  cmd_parse_args 1 ["12"%string] "u[u"
  = mk_parse_result 1 [mk_cmd_arg_val "u" (val_u 12)] []
  /\ cmd_parse_args 2 ["0x1f"; "017"]%string "u[u"
     = mk_parse_result 2 [mk_cmd_arg_val "u" (val_u 31); mk_cmd_arg_val "u" (val_u 15)] []
  /\ parse_rc (cmd_parse_args 3 ["1"; "2"; "3"]%string "u[u") = MOD_ERR_BAD_CMD.
Proof.
  destruct cmd_parse_args_u_opt_u as (H1 & H2 & _ & H4 & _).
  split; [exact (H1 "12"%string eq_refl)|].
  split; [exact (H2 "0x1f"%string "017"%string eq_refl eq_refl)|].
  exact (f_equal parse_rc (H4 "1"%string "2"%string "3"%string [] eq_refl eq_refl)).
Defined.

End CmdProofs.

Module TmrExtProofs.
Import Tmr TmrProofs TmrExt.

Lemma tmr_inst_get_loop_first ms m idx ti : forall n a,
  (a <= idx < a + n)%nat ->
  tmrs m !! idx = Some ti -> state ti = TMR_UNUSED ->
  (forall j tj, (a <= j < idx)%nat -> tmrs m !! j = Some tj -> state tj <> TMR_UNUSED) ->
  tmr_inst_get_loop (seq a n) ms m
  = Some (Z.of_nat idx, put_tmr idx (fresh_tmr ms (tmr_get_ms m) None 0 ti) m).
Proof.
  induction n as [|n IH]; intros a Hr Hl Hs Hbefore; [lia|].
  cbn [seq tmr_inst_get_loop].
  destruct (decide (a = idx)) as [->|Hne].
  - rewrite Hl, Hs. cbn [tmr_state_eqb]. unfold fresh_tmr.
    destruct (ms =? 0); reflexivity.
  - assert (Hskip : tmr_inst_get_loop (seq (S a) n) ms m
              = Some (Z.of_nat idx, put_tmr idx (fresh_tmr ms (tmr_get_ms m) None 0 ti) m)).
    { apply IH; try assumption; [lia|]. intros j tj Hj. apply Hbefore. lia. }
    destruct (tmrs m !! a) as [ta|] eqn:Ha; [|exact Hskip].
    assert (Hta : state ta <> TMR_UNUSED) by (apply (Hbefore a); [lia|exact Ha]).
    apply tmr_state_eqb_neq in Hta. rewrite Hta. exact Hskip.
Qed.

(** [tmr_inst_get] takes the unused slot of lowest index. *)
Lemma tmr_inst_get_lowest_unused (ms : Z) (m : tmr_mod) (idx : nat) (ti : tmr_inst_info) :
  (Z.of_nat idx < TMR_NUM_INST) ->
  tmrs m !! idx = Some ti -> state ti = TMR_UNUSED ->
  (forall j tj, (j < idx)%nat -> tmrs m !! j = Some tj -> state tj <> TMR_UNUSED) ->
  tmr_inst_get ms m
  = (Z.of_nat idx, put_tmr idx (fresh_tmr ms (tmr_get_ms m) None 0 ti) m, []).
Proof.
  intros Hidx Hl Hs Hbefore. unfold tmr_inst_get.
  rewrite (tmr_inst_get_loop_first ms m idx ti (Z.to_nat TMR_NUM_INST) 0); auto.
  - unfold TMR_NUM_INST in *. lia.
  - intros j tj Hj. apply Hbefore. lia.
Qed.

(** X1.  tmr_inst_get_cb(ms, cb_func, cb_user_data) takes the unused slot of
    lowest index: every slot before it is left as it is, the slot gets the
    period ms, the callback and its user data, and is TMR_STOPPED when ms is
    0 and TMR_RUNNING from the current clock value otherwise; the slot index
    is returned and nothing is printed. When no slot is unused the result is
    MOD_ERR_RESOURCE, the module is unchanged and the error is reported
    through log_error. *)
Theorem tmr_inst_get_cb_spec (ms : Z) (cb : option nat) (user_data : Z) (m : tmr_mod) :
  (forall idx ti,
      (Z.of_nat idx < TMR_NUM_INST) ->
      tmrs m !! idx = Some ti -> state ti = TMR_UNUSED ->
      (forall j tj, (j < idx)%nat -> tmrs m !! j = Some tj -> state tj <> TMR_UNUSED) ->
      tmr_inst_get_cb ms cb user_data m
      = (Z.of_nat idx, put_tmr idx (fresh_tmr ms (tmr_get_ms m) cb user_data ti) m, []))
  /\ (Forall (fun ti => state ti <> TMR_UNUSED) (tmrs m) ->
      tmr_inst_get_cb ms cb user_data m
      = (MOD_ERR_RESOURCE, m, log_error m ("Out of timers" +:+ nl))).
Proof.
  split.
  - intros idx ti Hidx Hl Hs Hbefore. unfold tmr_inst_get_cb.
    rewrite (tmr_inst_get_lowest_unused ms m idx ti Hidx Hl Hs Hbefore).
    destruct (Z.leb_spec 0 (Z.of_nat idx)); [|lia].
    rewrite Nat2Z.id. unfold put_tmr at 1. cbn [tmrs set_tmrs].
    rewrite list_lookup_insert_eq by (apply lookup_lt_is_Some_1; eauto).
    unfold put_tmr, set_tmrs. cbn. rewrite list_insert_insert_eq.
    unfold fresh_tmr, set_cb. cbn. reflexivity.
  - intros Hall. unfold tmr_inst_get_cb.
    unfold tmr_inst_get. rewrite (tmr_inst_get_loop_none _ ms m Hall). reflexivity.
Qed.

Lemma tmr_inst_get_cb_spec_witness :
  tmr_inst_get_cb 50 (Some 9%nat) 4 freed_pool
  = (2, put_tmr 2 (mk_tmr_inst_info 50 1000 TMR_RUNNING (Some 9%nat) 4) freed_pool, [])
  /\ tmr_inst_get_cb 50 (Some 9%nat) 4 busy_pool
     = (MOD_ERR_RESOURCE, busy_pool, [LogPrintf ("ERR  Out of timers" +:+ nl)]).
Proof.
  destruct (tmr_inst_get_cb_spec 50 (Some 9%nat) 4 freed_pool) as [H1 _].
  destruct (tmr_inst_get_cb_spec 50 (Some 9%nat) 4 busy_pool) as [_ H2].
  split.
  - apply (H1 2%nat (mk_tmr_inst_info 20 900 TMR_UNUSED None 0)).
    + unfold TMR_NUM_INST. lia.
    + reflexivity.
    + reflexivity.
    + intros j tj Hj Hl. destruct j as [|[|j]]; [| |lia];
        cbn in Hl; injection Hl as <-; discriminate.
  - apply H2. repeat constructor; simpl; discriminate.
Defined.

Lemma tmr_init_filled m : filled 0 (tmr_init m).2.
Proof.
  split; [reflexivity|]. intros j tj Hl. cbn in Hl.
  apply lookup_replicate in Hl as [-> _]. split; [lia|reflexivity].
Qed.

Lemma filled_get k ms m :
  filled k m -> (Z.of_nat k < TMR_NUM_INST) ->
  exists m', tmr_inst_get ms m = (Z.of_nat k, m', []) /\ filled (S k) m'.
Proof.
  intros [Hwf Hf] Hk.
  destruct (lookup_lt_is_Some_2 (tmrs m) k) as [ti Hti].
  { rewrite Hwf. lia. }
  eexists. split.
  - apply (tmr_inst_get_lowest_unused ms m k ti Hk Hti).
    + apply (Hf k ti Hti). lia.
    + intros j tj Hj Hl. apply (Hf j tj Hl). exact Hj.
  - split.
    + unfold pool_wf, put_tmr. cbn. rewrite length_insert. exact Hwf.
    + intros j tj Hl. unfold put_tmr in Hl. cbn in Hl.
      destruct (decide (j = k)) as [->|Hne].
      * rewrite list_lookup_insert_eq in Hl by (apply lookup_lt_is_Some_1; eauto).
        injection Hl as <-. unfold fresh_tmr. cbn.
        split; [|lia]. intros _. destruct (ms =? 0); discriminate.
      * rewrite list_lookup_insert_ne in Hl by auto.
        destruct (Hf j tj Hl) as [H1 H2]. split; intros; [apply H1|apply H2]; lia.
Qed.

Lemma filled_full m :
  filled (Z.to_nat TMR_NUM_INST) m ->
  Forall (fun ti => state ti <> TMR_UNUSED) (tmrs m).
Proof.
  intros [Hwf Hf]. apply Forall_lookup_2. intros j tj Hl.
  apply (Hf j tj Hl). rewrite <- Hwf. apply lookup_lt_is_Some_1. eauto.
Qed.

Lemma get_seq_filled mss : forall k m,
  filled k m -> (Z.of_nat k + Z.of_nat (length mss) <= TMR_NUM_INST) ->
  (get_seq mss m).1 = map Z.of_nat (seq k (length mss))
  /\ filled (k + length mss) (get_seq mss m).2.
Proof.
  induction mss as [|ms mss IH]; intros k m Hf Hlen.
  - cbn. rewrite Nat.add_0_r. auto.
  - cbn [length] in Hlen.
    destruct (filled_get k ms m Hf ltac:(lia)) as (m' & Hg & Hf').
    destruct (IH (S k) m' Hf' ltac:(lia)) as [H1 H2].
    cbn [get_seq length seq map]. rewrite Hg.
    destruct (get_seq mss m') as [rs m2]. cbn [fst snd] in *.
    rewrite H1. split; [reflexivity|].
    replace (k + S (length mss))%nat with (S k + length mss)%nat by lia. exact H2.
Qed.

(** X2.  After tmr_init, successive calls of tmr_inst_get (at most
    TMR_NUM_INST of them, with any timeouts) return the ids 0, 1, 2, ... in
    order; after TMR_NUM_INST calls every further tmr_inst_get returns
    MOD_ERR_RESOURCE, logs the error and changes nothing. *)
Theorem tmr_pool_fills_in_order (m : tmr_mod) (mss : list Z) :
  Z.of_nat (length mss) <= TMR_NUM_INST ->
  let r := get_seq mss (tmr_init m).2 in
  r.1 = map Z.of_nat (seq 0 (length mss))
  /\ (Z.of_nat (length mss) = TMR_NUM_INST ->
      forall ms, tmr_inst_get ms r.2
                 = (MOD_ERR_RESOURCE, r.2, log_error r.2 ("Out of timers" +:+ nl))).
Proof.
  intros Hlen r.
  destruct (get_seq_filled mss 0 (tmr_init m).2 (tmr_init_filled m) ltac:(lia))
    as [H1 H2].
  split; [exact H1|].
  intros Hfull ms. unfold tmr_inst_get.
  rewrite (tmr_inst_get_loop_none _ ms r.2); [reflexivity|].
  apply filled_full. replace (Z.to_nat TMR_NUM_INST) with (0 + length mss)%nat by lia.
  exact H2.
Qed.

Lemma tmr_pool_fills_in_order_witness :
  (get_seq [10; 0; 30] (tmr_init busy_pool).2).1 = [0; 1; 2]
  /\ forall ms,
       (tmr_inst_get ms (get_seq [10; 0; 30; 40; 50] (tmr_init busy_pool).2).2).1.1
       = MOD_ERR_RESOURCE.
Proof.
  split.
  - exact (proj1 (tmr_pool_fills_in_order busy_pool [10; 0; 30]
                    ltac:(unfold TMR_NUM_INST; simpl; lia))).
  - intros ms.
    rewrite (proj2 (tmr_pool_fills_in_order busy_pool [10; 0; 30; 40; 50]
                      ltac:(unfold TMR_NUM_INST; simpl; lia)) eq_refl ms).
    reflexivity.
Defined.

(** Among the slots up to an unused one there is a first unused one. *)
Lemma lowest_unused (l : list tmr_inst_info) : forall n tn,
  l !! n = Some tn -> state tn = TMR_UNUSED ->
  exists idx ti, (idx <= n)%nat /\ l !! idx = Some ti /\ state ti = TMR_UNUSED
    /\ forall j tj, (j < idx)%nat -> l !! j = Some tj -> state tj <> TMR_UNUSED.
Proof.
  induction l as [|t l IH]; intros n tn Hl Hs; [discriminate Hl|].
  destruct (tmr_state_eqb (state t) TMR_UNUSED) eqn:Ht.
  - apply tmr_state_eqb_eq in Ht. exists 0%nat, t.
    repeat split; auto; [lia|]. intros j tj Hj. lia.
  - apply tmr_state_eqb_neq in Ht.
    destruct n as [|n]; [cbn in Hl; congruence|].
    destruct (IH n tn Hl Hs) as (idx & ti & Hle & H1 & H2 & H3).
    exists (S idx), ti. repeat split; auto; [lia|].
    intros [|j] tj Hj Hlj; cbn in Hlj; [congruence|].
    apply (H3 j tj); [lia|exact Hlj].
Qed.

(** X3.  tmr_inst_release on a pool of TMR_NUM_INST slots: an id outside [0,
    TMR_NUM_INST) gives MOD_ERR_ARG and no change; otherwise it returns 0
    and only marks that slot TMR_UNUSED. After it, tmr_inst_start on the id
    gives MOD_ERR_STATE without change, tmr_inst_is_expired gives 0, and the
    next tmr_inst_get succeeds with an id that is at most the released one. *)
Theorem tmr_inst_release_spec (tmr_id : Z) (m : tmr_mod) :
  pool_wf m ->
  (~ (0 <= tmr_id < TMR_NUM_INST) -> tmr_inst_release tmr_id m = (MOD_ERR_ARG, m))
  /\ (0 <= tmr_id < TMR_NUM_INST ->
      exists ti,
        tmrs m !! Z.to_nat tmr_id = Some ti
        /\ tmr_inst_release tmr_id m
           = (0, put_tmr (Z.to_nat tmr_id) (set_state TMR_UNUSED ti) m)
        /\ forall ms,
             let m' := (tmr_inst_release tmr_id m).2 in
             tmr_inst_start tmr_id ms m' = (MOD_ERR_STATE, m')
             /\ tmr_inst_is_expired tmr_id m' = 0
             /\ 0 <= (tmr_inst_get ms m').1.1 <= tmr_id).
Proof.
  intros Hwf. split.
  - intros Hout. unfold tmr_inst_release.
    destruct (Z.leb_spec 0 tmr_id); destruct (Z.ltb_spec tmr_id TMR_NUM_INST);
      cbn [andb]; try reflexivity. lia.
  - intros Hin. destruct (pool_lookup m tmr_id Hwf Hin) as [ti Hti].
    exists ti. split; [exact Hti|].
    assert (Hrange : (0 <=? tmr_id) && (tmr_id <? TMR_NUM_INST) = true)
      by (apply andb_true_iff; split; lia).
    assert (Hrel : tmr_inst_release tmr_id m
                   = (0, put_tmr (Z.to_nat tmr_id) (set_state TMR_UNUSED ti) m)).
    { unfold tmr_inst_release. rewrite Hrange, Hti. reflexivity. }
    split; [exact Hrel|]. intros ms m'. subst m'. rewrite Hrel. cbn [snd].
    set (m' := put_tmr (Z.to_nat tmr_id) (set_state TMR_UNUSED ti) m).
    assert (Hl' : tmrs m' !! Z.to_nat tmr_id = Some (set_state TMR_UNUSED ti)).
    { subst m'. cbn. apply list_lookup_insert_eq. apply lookup_lt_is_Some_1. eauto. }
    split; [|split].
    + unfold tmr_inst_start. rewrite Hrange, Hl'. reflexivity.
    + unfold tmr_inst_is_expired. rewrite Hrange, Hl'. reflexivity.
    + destruct (lowest_unused (tmrs m') _ _ Hl' eq_refl)
        as (idx & t0 & Hle & H1 & H2 & H3).
      rewrite (tmr_inst_get_lowest_unused ms m' idx t0); auto; cbn [fst]; lia.
Qed.

Lemma tmr_inst_release_spec_witness :
  tmr_inst_release 7 busy_pool = (MOD_ERR_ARG, busy_pool)
  /\ tmr_inst_start 2 30 freed_pool = (MOD_ERR_STATE, freed_pool)
  /\ tmr_inst_is_expired 2 freed_pool = 0.
Proof.
  destruct (tmr_inst_release_spec 7 busy_pool eq_refl) as [H1 _].
  destruct (tmr_inst_release_spec 2 busy_pool eq_refl) as [_ H2].
  split; [apply H1; unfold TMR_NUM_INST; lia|].
  destruct (H2 ltac:(unfold TMR_NUM_INST; lia)) as (ti & _ & _ & H).
  destruct (H 30) as (Hs & He & _). split; [exact Hs|exact He].
Defined.

Section Polled.

Variable cb_run : nat -> Z -> Z -> tmr_mod -> tmr_cb_action * tmr_mod.

Lemma tmr_run_slot_polled idx st ti :
  tmrs (run_mod st) !! idx = Some ti -> cb_func ti = None ->
  tmr_run_slot cb_run idx st
  = mk_run_st (now_ms st)
      (put_tmr idx (expire_due (now_ms st) ti) (run_mod st)) (run_calls st).
Proof.
  intros Hl Hcb. unfold tmr_run_slot, expire_due. rewrite Hl.
  assert (Hid : put_tmr idx ti (run_mod st) = run_mod st).
  { unfold put_tmr, set_tmrs. rewrite list_insert_id by exact Hl.
    destruct (run_mod st); reflexivity. }
  destruct (tmr_state_eqb (state ti) TMR_RUNNING); cbn [andb];
    [|rewrite Hid; destruct st; reflexivity].
  destruct (period_ms ti <=? u32 (now_ms st - start_time ti));
    [|rewrite Hid; destruct st; reflexivity].
  rewrite Hcb. reflexivity.
Qed.

Lemma expire_due_cb now ti : cb_func (expire_due now ti) = cb_func ti.
Proof. unfold expire_due. destruct (_ && _); reflexivity. Qed.

Lemma tmr_run_loop_polled n : forall a st,
  (forall j tj, tmrs (run_mod st) !! j = Some tj -> cb_func tj = None) ->
  now_ms (tmr_run_loop cb_run (seq a n) st) = now_ms st
  /\ run_calls (tmr_run_loop cb_run (seq a n) st) = run_calls st
  /\ other_vars_eq (run_mod (tmr_run_loop cb_run (seq a n) st)) (run_mod st)
  /\ forall j, tmrs (run_mod (tmr_run_loop cb_run (seq a n) st)) !! j
               = if decide (a <= j < a + n)%nat
                 then expire_due (now_ms st) <$> tmrs (run_mod st) !! j
                 else tmrs (run_mod st) !! j.
Proof.
  unfold tmr_run_loop.
  induction n as [|n IH]; intros a st Hall.
  - cbn. repeat split. intros j. destruct (decide _); [lia|reflexivity].
  - cbn [seq foldl].
    destruct (tmrs (run_mod st) !! a) as [ti|] eqn:Hti.
    + rewrite (tmr_run_slot_polled a st ti Hti (Hall _ _ Hti)).
      set (st1 := mk_run_st _ _ _).
      assert (Hlt : (a < length (tmrs (run_mod st)))%nat)
        by (apply lookup_lt_is_Some_1; eauto).
      destruct (IH (S a) st1) as (H1 & H2 & H3 & H4).
      { intros j tj. subst st1. cbn.
        destruct (decide (j = a)) as [->|Hne].
        - rewrite list_lookup_insert_eq by exact Hlt. intros [= <-].
          rewrite expire_due_cb. eauto.
        - rewrite list_lookup_insert_ne by auto. apply Hall. }
      rewrite H1, H2. subst st1. cbn in *.
      split; [reflexivity|]. split; [reflexivity|]. split; [exact H3|].
      intros j. rewrite H4.
      destruct (decide (j = a)) as [->|Hne].
      * rewrite list_lookup_insert_eq by exact Hlt. rewrite Hti.
        repeat case_decide; try lia; reflexivity.
      * rewrite list_lookup_insert_ne by auto.
        repeat case_decide; try lia; reflexivity.
    + assert (Hst : tmr_run_slot cb_run a st = st)
        by (unfold tmr_run_slot; rewrite Hti; reflexivity).
      rewrite Hst. destruct (IH (S a) st Hall) as (H1 & H2 & H3 & H4).
      repeat split; try apply H3; auto. intros j. rewrite H4.
      destruct (decide (j = a)) as [->|Hne].
      * rewrite Hti. repeat case_decide; reflexivity.
      * repeat case_decide; try lia; reflexivity.
Qed.

Lemma tmr_run_loop_no_callbacks (st : run_st) :
  pool_wf (run_mod st) ->
  Forall (fun ti => cb_func ti = None) (tmrs (run_mod st)) ->
  tmr_run_loop cb_run (seq 0 (Z.to_nat TMR_NUM_INST)) st
  = mk_run_st (now_ms st)
      (set_tmrs (map (expire_due (now_ms st)) (tmrs (run_mod st))) (run_mod st))
      (run_calls st).
Proof.
  intros Hwf Hall.
  destruct (tmr_run_loop_polled (Z.to_nat TMR_NUM_INST) 0 st)
    as (H1 & H2 & (Ha & Hb & Hc & Hd) & H4).
  { intros j tj Hl. rewrite Forall_forall in Hall. apply Hall.
    eapply list_elem_of_lookup_2; eauto. }
  assert (Ht : tmrs (run_mod (tmr_run_loop cb_run (seq 0 (Z.to_nat TMR_NUM_INST)) st))
               = map (expire_due (now_ms st)) (tmrs (run_mod st))).
  { apply list_eq. intros j. rewrite H4, list_lookup_fmap. cbn.
    destruct (decide _) as [|Hout]; [reflexivity|].
    rewrite lookup_ge_None_2 by (rewrite Hwf; lia). reflexivity. }
  destruct (tmr_run_loop cb_run (seq 0 (Z.to_nat TMR_NUM_INST)) st) as [n' m' c'].
  cbn [now_ms run_mod run_calls] in *. subst n' c'.
  destruct m'; destruct (run_mod st);
    cbn [tick_ms_ctr log_level last_ms _log_active tmrs set_tmrs] in *.
  subst. reflexivity.
Qed.

Lemma tmr_run_no_callbacks (m : tmr_mod) :
  pool_wf m ->
  Forall (fun ti => cb_func ti = None) (tmrs m) ->
  tmr_get_ms m <> last_ms m ->
  tmr_run cb_run m
  = (0,
     set_last_ms (tmr_get_ms m)
       (set_tmrs (map (expire_due (tmr_get_ms m)) (tmrs m)) m),
     []).
Proof.
  intros Hwf Hall Hne. unfold tmr_run.
  apply Z.eqb_neq in Hne. rewrite Hne.
  rewrite tmr_run_loop_no_callbacks by assumption.
  cbn [run_mod run_calls now_ms]. destruct m. reflexivity.
Qed.

(** X4.  When no slot has a callback and the clock differs from last_ms,
    tmr_run returns 0 and makes no callback; read back after the call,
    last_ms holds the clock, the clock and the logging variables are as
    before, there are as many slots as before, and a slot differs from
    what it held in its state only: a TMR_RUNNING slot whose period has
    elapsed since its start time (difference taken modulo 2^32) is
    TMR_EXPIRED, every other slot is as before. *)
Theorem tmr_run_polled (m : tmr_mod) :
  pool_wf m ->
  Forall (fun ti => cb_func ti = None) (tmrs m) ->
  tmr_get_ms m <> last_ms m ->
  (tmr_run cb_run m).1.1 = 0
  /\ (tmr_run cb_run m).2 = []
  /\ last_ms (tmr_run cb_run m).1.2 = tmr_get_ms m
  /\ tick_ms_ctr (tmr_run cb_run m).1.2 = tick_ms_ctr m
  /\ log_level (tmr_run cb_run m).1.2 = log_level m
  /\ _log_active (tmr_run cb_run m).1.2 = _log_active m
  /\ length (tmrs (tmr_run cb_run m).1.2) = length (tmrs m)
  /\ (forall j ti, tmrs m !! j = Some ti ->
        tmrs (tmr_run cb_run m).1.2 !! j
        = Some (mk_tmr_inst_info (period_ms ti) (start_time ti)
                  (if tmr_state_eqb (state ti) TMR_RUNNING
                      && (period_ms ti <=? u32 (tmr_get_ms m - start_time ti))
                   then TMR_EXPIRED else state ti)
                  (cb_func ti) (cb_user_data ti))).
Proof.
  intros Hwf Hall Hne.
  rewrite (tmr_run_no_callbacks m Hwf Hall Hne). cbn [fst snd].
  destruct m as [tick ts lvl last act].
  cbn [set_last_ms set_tmrs last_ms tick_ms_ctr log_level _log_active tmrs tmr_get_ms].
  repeat split.
  - apply length_map.
  - intros j ti Hj. rewrite list_lookup_fmap.
    cbn [tmrs] in Hj. rewrite Hj. cbn [fmap option_fmap option_map].
    unfold expire_due. destruct ti as [p s stt f u]. cbn.
    destruct (tmr_state_eqb stt TMR_RUNNING && (p <=? u32 (tick - s))); reflexivity.
Qed.

End Polled.

Lemma tmr_run_polled_witness :
  pool_wf polled_pool
  /\ tmr_get_ms polled_pool = 1000
  /\ last_ms polled_pool = 990
  /\ (tmr_run slow_cb polled_pool).1.1 = 0
  /\ (tmr_run slow_cb polled_pool).2 = []
  /\ last_ms (tmr_run slow_cb polled_pool).1.2 = 1000
  /\ tmrs (tmr_run slow_cb polled_pool).1.2 !! 0%nat
     = Some (mk_tmr_inst_info 10 995 TMR_RUNNING None 0)
  /\ tmrs (tmr_run slow_cb polled_pool).1.2 !! 1%nat
     = Some (mk_tmr_inst_info 0 0 TMR_STOPPED None 0)
  /\ tmrs (tmr_run slow_cb polled_pool).1.2 !! 3%nat
     = Some (mk_tmr_inst_info 100 800 TMR_EXPIRED None 0).
Proof.
  destruct (tmr_run_polled slow_cb polled_pool) as (H1 & H2 & H3 & _ & _ & _ & _ & H8).
  - reflexivity.
  - repeat constructor.
  - simpl. lia.
  - exact (conj eq_refl (conj eq_refl (conj eq_refl (conj H1 (conj H2 (conj H3
           (conj (H8 0%nat _ eq_refl)
              (conj (H8 1%nat _ eq_refl) (H8 3%nat _ eq_refl))))))))).
Defined.

Lemma ticks_clock (e : nat) (m : tmr_mod) :
  0 <= tick_ms_ctr m < 2 ^ 32 ->
  ticks e m = set_tick_ms_ctr (u32 (tick_ms_ctr m + Z.of_nat e)) m.
Proof.
  intros Hr. induction e as [|e IH].
  - cbn. rewrite Z.add_0_r. unfold u32. rewrite Z.mod_small by exact Hr.
    destruct m; reflexivity.
  - cbn [ticks]. rewrite IH. unfold tmr_SysTick_Handler, set_tick_ms_ctr. cbn.
    rewrite u32_add_l. do 2 f_equal. lia.
Qed.

(** The elapsed time that [tmr_run] computes survives the wrap of the
    clock. *)
Lemma u32_elapsed s e :
  0 <= s < 2 ^ 32 -> 0 <= e < 2 ^ 32 -> u32 (u32 (s + e) - s) = e.
Proof.
  intros Hs He. unfold u32.
  rewrite Zminus_mod_idemp_l. replace (s + e - s) with e by lia.
  apply Z.mod_small. exact He.
Qed.

Lemma tmr_inst_get_loop_some idxs ms m id m1 :
  tmr_inst_get_loop idxs ms m = Some (id, m1) ->
  exists idx ti, id = Z.of_nat idx /\ tmrs m !! idx = Some ti
    /\ m1 = put_tmr idx (fresh_tmr ms (tmr_get_ms m) None 0 ti) m.
Proof.
  induction idxs as [|i idxs IH]; cbn [tmr_inst_get_loop]; [discriminate|].
  destruct (tmrs m !! i) as [ti|] eqn:Hl; [|exact IH].
  destruct (tmr_state_eqb (state ti) TMR_UNUSED); [|exact IH].
  intros [= <- <-]. exists i, ti. unfold fresh_tmr.
  destruct (ms =? 0); auto.
Qed.

(** X5.  A timer without callback obtained by tmr_inst_get(P) with P > 0 is
    not expired right after the call, and after e tick interrupts (e < 2^32,
    also across a wrap of the 32-bit clock) followed by one tmr_run that
    sees a new clock value, tmr_inst_is_expired returns 1 exactly when e >=
    P and 0 otherwise (no slot of the pool having a callback). *)
Theorem polled_timer_expiry
    (cb_run : nat -> Z -> Z -> tmr_mod -> tmr_cb_action * tmr_mod)
    (m m1 : tmr_mod) (P tmr_id : Z) (out : list console_out) (e : nat) :
  pool_wf m ->
  Forall (fun ti => cb_func ti = None) (tmrs m) ->
  0 <= tick_ms_ctr m < 2 ^ 32 ->
  0 < P ->
  Z.of_nat e < 2 ^ 32 ->
  tmr_inst_get P m = (tmr_id, m1, out) ->
  0 <= tmr_id ->
  tmr_get_ms (ticks e m1) <> last_ms (ticks e m1) ->
  tmr_inst_is_expired tmr_id m1 = 0
  /\ tmr_inst_is_expired tmr_id (tmr_run cb_run (ticks e m1)).1.2
     = if P <=? Z.of_nat e then 1 else 0.
Proof.
  intros Hwf Hall Hclock HP He Hget Hid Hne.
  unfold tmr_inst_get in Hget.
  destruct (tmr_inst_get_loop (seq 0 (Z.to_nat TMR_NUM_INST)) P m) as [[id m']|] eqn:Hloop.
  2:{ injection Hget as <- _ _. unfold MOD_ERR_RESOURCE in Hid. lia. }
  injection Hget as -> -> _.
  destruct (tmr_inst_get_loop_some _ _ _ _ _ Hloop) as (idx & ti & -> & Hl & ->).
  assert (Hlt : (idx < length (tmrs m))%nat) by (apply lookup_lt_is_Some_1; eauto).
  assert (Hrange : (0 <=? Z.of_nat idx) && (Z.of_nat idx <? TMR_NUM_INST) = true).
  { apply andb_true_iff. rewrite Hwf in Hlt. split; lia. }
  set (m1 := put_tmr idx (fresh_tmr P (tmr_get_ms m) None 0 ti) m) in *.
  assert (HP0 : (P =? 0) = false) by (apply Z.eqb_neq; lia).
  split.
  { unfold tmr_inst_is_expired. rewrite Hrange, Nat2Z.id. subst m1. cbn.
    rewrite list_lookup_insert_eq by exact Hlt. unfold fresh_tmr. rewrite HP0.
    reflexivity. }
  rewrite ticks_clock in * by exact Hclock.
  unfold tmr_run. apply Z.eqb_neq in Hne. rewrite Hne.
  rewrite tmr_run_loop_no_callbacks.
  - cbn [fst snd run_mod now_ms]. unfold tmr_inst_is_expired.
    rewrite Hrange, Nat2Z.id. cbn.
    rewrite list_lookup_fmap, list_lookup_insert_eq by exact Hlt. cbn.
    unfold expire_due, fresh_tmr. rewrite HP0. cbn.
    unfold tmr_get_ms. rewrite u32_elapsed by lia.
    destruct (P <=? Z.of_nat e); reflexivity.
  - unfold pool_wf. cbn. rewrite length_insert. exact Hwf.
  - cbn. apply Forall_insert; [exact Hall|]. unfold fresh_tmr. reflexivity.
Qed.

Lemma polled_timer_expiry_witness :
  tmr_inst_is_expired 0 (tmr_inst_get 5 (tmr_init polled_pool).2).1.2 = 0
  /\ tmr_inst_is_expired 0
       (tmr_run slow_cb (ticks 7 (tmr_inst_get 5 (tmr_init polled_pool).2).1.2)).1.2
     = 1.
Proof.
  apply (polled_timer_expiry slow_cb (tmr_init polled_pool).2
           (tmr_inst_get 5 (tmr_init polled_pool).2).1.2 5 0 [] 7%nat).
  - reflexivity.
  - repeat constructor.
  - simpl. lia.
  - lia.
  - lia.
  - reflexivity.
  - lia.
  - vm_compute. discriminate.
Defined.

End TmrExtProofs.

Module TtysExtProofs.
Import Ttys TtysProofs TtysExt.

(** *** Well-formedness is kept *)

Lemma state_wf_intro st :
  Z.of_nat (length (tx_buf st)) = TTYS_TX_BUF_SIZE ->
  Z.of_nat (length (rx_buf st)) = TTYS_RX_BUF_SIZE ->
  0 <= tx_buf_get_idx st < TTYS_TX_BUF_SIZE ->
  0 <= tx_buf_put_idx st < TTYS_TX_BUF_SIZE ->
  0 <= rx_buf_get_idx st < TTYS_RX_BUF_SIZE ->
  0 <= rx_buf_put_idx st < TTYS_RX_BUF_SIZE ->
  state_wf st = true.
Proof.
  intros. unfold state_wf. rewrite !andb_true_iff.
  rewrite !Z.eqb_eq, !Z.leb_le, !Z.ltb_lt. tauto.
Qed.

Lemma ttys_wf_intro w :
  length (ttys_states w) = TTYS_NUM_INSTANCES ->
  length (usart w) = TTYS_NUM_INSTANCES ->
  length (cnts_u16 w) = NUM_U16_PMS ->
  (forall pm a, cnts_u16 w !! pm = Some a -> 0 <= a <= UINT16_MAX) ->
  (forall i st, ttys_states w !! i = Some st -> state_wf st = true) ->
  ttys_wf w = true.
Proof.
  intros H1 H2 H3 H4 H5. unfold ttys_wf.
  rewrite !andb_true_iff, !Nat.eqb_eq, !forallb_forall.
  repeat split; auto.
  - intros a Hin. apply list_elem_of_In, list_elem_of_lookup_1 in Hin as [pm Hpm].
    specialize (H4 _ _ Hpm). apply andb_true_iff. lia.
  - intros st Hin. apply list_elem_of_In, list_elem_of_lookup_1 in Hin as [i Hi].
    eauto.
Qed.

Lemma INC_SAT_U16_range a : 0 <= a <= UINT16_MAX -> 0 <= INC_SAT_U16 a <= UINT16_MAX.
Proof. intros H. rewrite INC_SAT_U16_min by exact H. unfold UINT16_MAX in *. lia. Qed.

Lemma ttys_wf_inc_cnt pm w : ttys_wf w = true -> ttys_wf (inc_cnt pm w) = true.
Proof.
  intros Hwf. destruct (ttys_wf_inv w Hwf) as (H1 & H2 & H3 & H4 & H5).
  unfold inc_cnt. destruct (cnts_u16 w !! pm) as [a|] eqn:Ha; [|exact Hwf].
  apply ttys_wf_intro; cbn; auto.
  - rewrite length_insert. exact H3.
  - intros pm' a' Hl. destruct (decide (pm = pm')) as [->|Hne].
    + rewrite list_lookup_insert_eq in Hl by (apply lookup_lt_is_Some_1; eauto).
      injection Hl as <-. apply INC_SAT_U16_range. eauto.
    + rewrite list_lookup_insert_ne in Hl by auto. eauto.
Qed.

Lemma ttys_wf_put_state id st w :
  ttys_wf w = true -> state_wf st = true -> ttys_wf (put_state id st w) = true.
Proof.
  intros Hwf Hst. destruct (ttys_wf_inv w Hwf) as (H1 & H2 & H3 & H4 & H5).
  apply ttys_wf_intro; cbn; auto.
  - rewrite length_insert. exact H1.
  - intros i st' Hl. destruct (decide (id = i)) as [->|Hne].
    + destruct (decide (i < length (ttys_states w))%nat).
      * rewrite list_lookup_insert_eq in Hl by assumption. congruence.
      * rewrite list_insert_ge in Hl by lia. eauto.
    + rewrite list_lookup_insert_ne in Hl by auto. eauto.
Qed.

Lemma ttys_wf_set_usart_insert id io w :
  ttys_wf w = true -> ttys_wf (set_usart (<[id := io]> (usart w)) w) = true.
Proof.
  intros Hwf. destruct (ttys_wf_inv w Hwf) as (H1 & H2 & H3 & H4 & H5).
  apply ttys_wf_intro; cbn; auto. rewrite length_insert. exact H2.
Qed.

Lemma ttys_wf_set_TXEIE id b w : ttys_wf w = true -> ttys_wf (set_TXEIE id b w) = true.
Proof.
  intros Hwf. unfold set_TXEIE. destruct (usart w !! id); [|exact Hwf].
  apply ttys_wf_set_usart_insert. exact Hwf.
Qed.

Lemma ttys_wf_write_DR id c w : ttys_wf w = true -> ttys_wf (write_DR id c w) = true.
Proof.
  intros Hwf. unfold write_DR. destruct (usart w !! id); [|exact Hwf].
  apply ttys_wf_set_usart_insert. exact Hwf.
Qed.

Lemma ttys_wf_NVIC_DisableIRQ id w :
  ttys_wf w = true -> ttys_wf (NVIC_DisableIRQ id w) = true.
Proof.
  intros Hwf. unfold NVIC_DisableIRQ. destruct (usart w !! id); [|exact Hwf].
  apply ttys_wf_set_usart_insert. exact Hwf.
Qed.

Lemma ring_next_tx i :
  0 <= i < TTYS_TX_BUF_SIZE ->
  0 <= (if TTYS_TX_BUF_SIZE <=? u16 (i + 1) then 0 else u16 (i + 1)) < TTYS_TX_BUF_SIZE.
Proof.
  intros H. rewrite tx_ring_next_putc by exact H.
  apply ring_next_range; [reflexivity|exact H].
Qed.

Lemma ring_next_rx i :
  0 <= i < TTYS_RX_BUF_SIZE ->
  0 <= (if TTYS_RX_BUF_SIZE <=? u16 (i + 1) then 0 else u16 (i + 1)) < TTYS_RX_BUF_SIZE.
Proof.
  unfold TTYS_RX_BUF_SIZE, u16. intros H.
  rewrite (Z.mod_small (i + 1) (2 ^ 16)) by lia. zcase; lia.
Qed.

Lemma ttys_wf_ttys_putc id c w : ttys_wf w = true -> ttys_wf (ttys_putc id c w).2 = true.
Proof.
  intros Hwf. unfold ttys_putc.
  destruct (TTYS_NUM_INSTANCES <=? id)%nat; [exact Hwf|].
  destruct (ttys_states w !! id) as [st|] eqn:Hst; [|exact Hwf].
  destruct (ttys_wf_inv w Hwf) as (_ & _ & _ & _ & H5).
  destruct (state_wf_inv st (H5 _ _ Hst)) as (Htl & Hrl & Htg & Htp & Hrg & Hrp).
  match goal with |- context [if ?b then _ else _] => destruct b end; cbn [snd].
  - apply ttys_wf_inc_cnt. exact Hwf.
  - assert (Hw1 : ttys_wf (put_state id
              (set_tx_put (<[Z.to_nat (tx_buf_put_idx st):=c]> (tx_buf st))
                 (if TTYS_TX_BUF_SIZE <=? u16 (tx_buf_put_idx st + 1)
                  then 0 else u16 (tx_buf_put_idx st + 1)) st) w) = true).
    { apply ttys_wf_put_state; [exact Hwf|].
      apply state_wf_intro; cbn; auto using ring_next_tx.
      rewrite length_insert. exact Htl. }
    cbn [uart_reg_base set_tx_put]. destruct (uart_reg_base st); [|exact Hw1].
    apply ttys_wf_set_TXEIE. exact Hw1.
Qed.

Lemma ttys_wf_ttys_getc id w : ttys_wf w = true -> ttys_wf (ttys_getc id w).2 = true.
Proof.
  intros Hwf. unfold ttys_getc.
  destruct (TTYS_NUM_INSTANCES <=? id)%nat; [exact Hwf|].
  destruct (ttys_states w !! id) as [st|] eqn:Hst; [|exact Hwf].
  destruct (ttys_wf_inv w Hwf) as (_ & _ & _ & _ & H5).
  destruct (state_wf_inv st (H5 _ _ Hst)) as (Htl & Hrl & Htg & Htp & Hrg & Hrp).
  destruct (rx_buf_get_idx st =? rx_buf_put_idx st); [exact Hwf|]. cbn [snd].
  apply ttys_wf_put_state; [exact Hwf|].
  apply state_wf_intro; cbn; auto.
  unfold TTYS_RX_BUF_SIZE in *. zcase; lia.
Qed.

Lemma ttys_wf_interrupt_rx id DR w :
  ttys_wf w = true -> ttys_wf (ttys_interrupt_rx id DR w) = true.
Proof.
  intros Hwf. unfold ttys_interrupt_rx.
  destruct (ttys_states w !! id) as [st|] eqn:Hst; [|exact Hwf].
  destruct (ttys_wf_inv w Hwf) as (_ & _ & _ & _ & H5).
  destruct (state_wf_inv st (H5 _ _ Hst)) as (Htl & Hrl & Htg & Htp & Hrg & Hrp).
  match goal with |- context [if ?b then _ else _] => destruct b end.
  - apply ttys_wf_inc_cnt. exact Hwf.
  - apply ttys_wf_put_state; [exact Hwf|].
    apply state_wf_intro; cbn; auto using ring_next_rx.
    rewrite length_insert. exact Hrl.
Qed.

Lemma ttys_wf_interrupt_tx id w :
  ttys_wf w = true -> ttys_wf (ttys_interrupt_tx id w) = true.
Proof.
  intros Hwf. unfold ttys_interrupt_tx.
  destruct (ttys_states w !! id) as [st|] eqn:Hst; [|exact Hwf].
  destruct (ttys_wf_inv w Hwf) as (_ & _ & _ & _ & H5).
  destruct (state_wf_inv st (H5 _ _ Hst)) as (Htl & Hrl & Htg & Htp & Hrg & Hrp).
  destruct (tx_buf_get_idx st =? tx_buf_put_idx st).
  - apply ttys_wf_set_TXEIE. exact Hwf.
  - apply ttys_wf_put_state; [apply ttys_wf_write_DR; exact Hwf|].
    apply state_wf_intro; cbn; auto.
    rewrite tx_ring_next_irq by exact Htg.
    apply ring_next_range; [reflexivity|exact Htg].
Qed.

Lemma ttys_wf_interrupt_err bits sr w :
  ttys_wf w = true -> ttys_wf (ttys_interrupt_err bits sr w) = true.
Proof.
  intros Hwf. unfold ttys_interrupt_err.
  repeat match goal with
         | |- context [if ?b then _ else _] => destruct b
         end; auto using ttys_wf_inc_cnt.
Qed.

(** X6.  ttys_putc, ttys_getc and the interrupt handler keep the module well
    formed for every instance id, character and status value: the arrays
    keep their declared sizes, all four ring indices of every instance stay
    inside their rings, and the counters stay uint16_t values. *)
Theorem ttys_wf_preserved (bits : usart_sr_bits) (w : ttys_mod) :
  ttys_wf w = true ->
  (forall id c, ttys_wf (ttys_putc id c w).2 = true)
  /\ (forall id, ttys_wf (ttys_getc id w).2 = true)
  /\ (forall id SR DR, ttys_wf (ttys_interrupt bits id SR DR w) = true).
Proof.
  intros Hwf. split; [|split].
  - intros id c. apply ttys_wf_ttys_putc. exact Hwf.
  - intros id. apply ttys_wf_ttys_getc. exact Hwf.
  - intros id SR DR. unfold ttys_interrupt.
    destruct (TTYS_NUM_INSTANCES <=? id)%nat; [exact Hwf|].
    destruct (ttys_states w !! id) as [st|]; [|exact Hwf].
    destruct (uart_reg_base st); [|apply ttys_wf_NVIC_DisableIRQ; exact Hwf].
    set (w1 := if sr_flag (u8 SR) (LL_USART_SR_RXNE bits)
               then ttys_interrupt_rx id DR w else w).
    assert (H1 : ttys_wf w1 = true).
    { subst w1. destruct (sr_flag (u8 SR) (LL_USART_SR_RXNE bits)); [|exact Hwf].
      apply ttys_wf_interrupt_rx. exact Hwf. }
    set (w2 := if sr_flag (u8 SR) (LL_USART_SR_TXE bits)
               then ttys_interrupt_tx id w1 else w1).
    assert (H2 : ttys_wf w2 = true).
    { subst w2. destruct (sr_flag (u8 SR) (LL_USART_SR_TXE bits)); [|exact H1].
      apply ttys_wf_interrupt_tx. exact H1. }
    match goal with |- context [if ?b then _ else _] => destruct b end; [|exact H2].
    apply ttys_wf_interrupt_err. exact H2.
Qed.

Lemma ttys_wf_preserved_witness :
  ttys_wf (ttys_putc 1 65 demo_mod).2 = true
  /\ ttys_wf (ttys_getc 1 demo_mod).2 = true
  /\ ttys_wf (ttys_interrupt stm32f4_sr_bits 1 0xA8 66 demo_mod) = true.
Proof.
  destruct (ttys_wf_preserved stm32f4_sr_bits demo_mod ltac:(vm_compute; reflexivity))
    as (H1 & H2 & H3).
  split; [exact (H1 1%nat 65)|]. split; [exact (H2 1%nat)|exact (H3 1%nat 0xA8 66)].
Defined.

Lemma lookup_put_state_cases id i st st2 w :
  ttys_states w !! i = Some st ->
  ttys_states (put_state id st2 w) !! i = Some (if decide (id = i) then st2 else st).
Proof.
  intros Hl. cbn. case_decide as Hd.
  - subst. apply list_lookup_insert_eq. apply lookup_lt_is_Some_1. eauto.
  - rewrite list_lookup_insert_ne by exact Hd. exact Hl.
Qed.

Lemma irq_keeps_trans a b c : irq_keeps a b -> irq_keeps b c -> irq_keeps a c.
Proof. unfold irq_keeps. intros (?&?&?) (?&?&?). repeat split; congruence. Qed.

Lemma ttys_interrupt_rx_keeps id DR w i st :
  ttys_states w !! i = Some st ->
  exists st', ttys_states (ttys_interrupt_rx id DR w) !! i = Some st' /\ irq_keeps st st'.
Proof.
  intros Hl. unfold ttys_interrupt_rx.
  destruct (ttys_states w !! id) as [s0|] eqn:Hid;
    [|exists st; unfold irq_keeps; auto].
  match goal with |- context [if ?b then _ else _] => destruct b end.
  - rewrite inc_cnt_states. exists st. unfold irq_keeps. auto.
  - eexists. split; [apply lookup_put_state_cases; exact Hl|].
    case_decide; [subst; assert (s0 = st) by congruence; subst|];
      unfold irq_keeps; cbn; auto.
Qed.

Lemma ttys_interrupt_tx_keeps id w i st :
  ttys_states w !! i = Some st ->
  exists st', ttys_states (ttys_interrupt_tx id w) !! i = Some st' /\ irq_keeps st st'.
Proof.
  intros Hl. unfold ttys_interrupt_tx.
  destruct (ttys_states w !! id) as [s0|] eqn:Hid;
    [|exists st; unfold irq_keeps; auto].
  destruct (tx_buf_get_idx s0 =? tx_buf_put_idx s0).
  - rewrite set_TXEIE_states. exists st. unfold irq_keeps. auto.
  - eexists. split.
    + apply lookup_put_state_cases. unfold write_DR.
      destruct (usart w !! id); exact Hl.
    + case_decide; [subst; assert (s0 = st) by congruence; subst|];
        unfold irq_keeps; cbn; auto.
Qed.

(** X7.  Each ring has one producer and one consumer: ttys_putc never
    changes a transmit get index nor anything of a receive ring; ttys_getc
    changes nothing of the module but a receive get index (every other
    field of every instance, the peripherals, the counters and the log
    level are as before); the interrupt handler never changes a transmit
    buffer, a transmit put index or a receive get index.  This holds for
    every instance of the module, whatever instance the call names. *)
Theorem ttys_single_producer_consumer (bits : usart_sr_bits) (w : ttys_mod)
    (i : nat) (st : ttys_state) :
  ttys_states w !! i = Some st ->
  (forall id c, exists st',
      ttys_states (ttys_putc id c w).2 !! i = Some st' /\ putc_keeps st st')
  /\ (forall id,
        (exists st',
            ttys_states (ttys_getc id w).2 !! i = Some st' /\ getc_keeps st st')
        /\ usart (ttys_getc id w).2 = usart w
        /\ cnts_u16 (ttys_getc id w).2 = cnts_u16 w
        /\ log_level (ttys_getc id w).2 = log_level w)
  /\ (forall id SR DR, exists st',
      ttys_states (ttys_interrupt bits id SR DR w) !! i = Some st' /\ irq_keeps st st').
Proof.
  intros Hl. split; [|split].
  - intros id c. unfold ttys_putc.
    destruct (TTYS_NUM_INSTANCES <=? id)%nat; [exists st; unfold putc_keeps; auto|].
    destruct (ttys_states w !! id) as [s0|] eqn:Hid;
      [|exists st; unfold putc_keeps; auto].
    match goal with |- context [if ?b then _ else _] => destruct b end; cbn [snd].
    + rewrite inc_cnt_states. exists st. unfold putc_keeps. auto.
    + cbn [uart_reg_base set_tx_put].
      eexists. split.
      * destruct (uart_reg_base s0); rewrite ?set_TXEIE_states;
          apply lookup_put_state_cases; exact Hl.
      * case_decide; [subst; assert (s0 = st) by congruence; subst|];
          unfold putc_keeps; cbn; auto.
  - intros id. unfold ttys_getc.
    assert (Hsame : (exists st', ttys_states w !! i = Some st' /\ getc_keeps st st')
                    /\ usart w = usart w /\ cnts_u16 w = cnts_u16 w
                    /\ log_level w = log_level w).
    { split; [exists st; unfold getc_keeps; auto 12|auto]. }
    destruct (TTYS_NUM_INSTANCES <=? id)%nat; [exact Hsame|].
    destruct (ttys_states w !! id) as [s0|] eqn:Hid; [|exact Hsame].
    destruct (rx_buf_get_idx s0 =? rx_buf_put_idx s0); [exact Hsame|]. cbn [snd].
    split; [|cbn; auto].
    eexists. split; [apply lookup_put_state_cases; exact Hl|].
    case_decide; [subst; assert (s0 = st) by congruence; subst|];
      unfold getc_keeps; cbn; auto 12.
  - intros id SR DR. unfold ttys_interrupt.
    destruct (TTYS_NUM_INSTANCES <=? id)%nat; [exists st; unfold irq_keeps; auto|].
    destruct (ttys_states w !! id) as [s0|]; [|exists st; unfold irq_keeps; auto].
    destruct (uart_reg_base s0).
    2:{ exists st. split; [|unfold irq_keeps; auto].
        unfold NVIC_DisableIRQ. destruct (usart w !! id); exact Hl. }
    set (w1 := if sr_flag (u8 SR) (LL_USART_SR_RXNE bits)
               then ttys_interrupt_rx id DR w else w).
    assert (H1 : exists s1, ttys_states w1 !! i = Some s1 /\ irq_keeps st s1).
    { subst w1. destruct (sr_flag (u8 SR) (LL_USART_SR_RXNE bits)).
      - apply ttys_interrupt_rx_keeps. exact Hl.
      - exists st. unfold irq_keeps. auto. }
    destruct H1 as (s1 & Hs1 & Hk1).
    set (w2 := if sr_flag (u8 SR) (LL_USART_SR_TXE bits)
               then ttys_interrupt_tx id w1 else w1).
    assert (H2 : exists s2, ttys_states w2 !! i = Some s2 /\ irq_keeps st s2).
    { subst w2. destruct (sr_flag (u8 SR) (LL_USART_SR_TXE bits)).
      - destruct (ttys_interrupt_tx_keeps id w1 i s1 Hs1) as (s2 & Hs2 & Hk2).
        exists s2. split; [exact Hs2|]. eapply irq_keeps_trans; eauto.
      - exists s1. auto. }
    destruct H2 as (s2 & Hs2 & Hk2).
    match goal with |- context [if ?b then _ else _] => destruct b end.
    + destruct (ttys_interrupt_err_states bits (u8 SR) w2) as [Hs _].
      rewrite Hs. eauto.
    + eauto.
Qed.

Lemma ttys_single_producer_consumer_witness :
  (exists st',
      ttys_states (ttys_putc 1 65 demo_mod).2 !! 1%nat = Some st'
      /\ putc_keeps (idle_state (Some 2%nat) 1022 78) st')
  /\ (ttys_getc 1 (rx_holding [72; 105; 33])).1 = (1, Some 72)
  /\ ((exists st',
         ttys_states (ttys_getc 1 (rx_holding [72; 105; 33])).2 !! 1%nat = Some st'
         /\ getc_keeps (holding_state [72; 105; 33]) st')
      /\ usart (ttys_getc 1 (rx_holding [72; 105; 33])).2 = usart (rx_holding [72; 105; 33])
      /\ cnts_u16 (ttys_getc 1 (rx_holding [72; 105; 33])).2
         = cnts_u16 (rx_holding [72; 105; 33])
      /\ log_level (ttys_getc 1 (rx_holding [72; 105; 33])).2
         = log_level (rx_holding [72; 105; 33]))
  /\ (exists st',
        ttys_states (ttys_interrupt stm32f4_sr_bits 1 0xA0 66 demo_mod) !! 1%nat = Some st'
        /\ irq_keeps (idle_state (Some 2%nat) 1022 78) st').
Proof.
  destruct (ttys_single_producer_consumer stm32f4_sr_bits demo_mod 1
              (idle_state (Some 2%nat) 1022 78) eq_refl) as (H1 & _ & H3).
  destruct (ttys_single_producer_consumer stm32f4_sr_bits (rx_holding [72; 105; 33]) 1
              (holding_state [72; 105; 33]) eq_refl) as (_ & H2 & _).
  exact (conj (H1 1%nat 65) (conj eq_refl (conj (H2 1%nat) (H3 1%nat 0xA0 66)))).
Defined.

(** *** The branches of the interrupt handler *)

Lemma ttys_interrupt_rx_dropped (bits : usart_sr_bits) (id : nat) (SR DR : Z)
    (w : ttys_mod) (st : ttys_state) (a : Z) :
  ttys_wf w = true ->
  ttys_states w !! id = Some st ->
  is_Some (uart_reg_base st) ->
  (rx_buf_put_idx st + 1) mod TTYS_RX_BUF_SIZE = rx_buf_get_idx st ->
  cnts_u16 w !! CNT_RX_BUF_OVERRUN = Some a ->
  only_rxne bits SR ->
  ttys_interrupt bits id SR DR w
  = set_cnts_u16 (<[CNT_RX_BUF_OVERRUN := Z.min (a + 1) UINT16_MAX]> (cnts_u16 w)) w.
Proof.
  intros Hwf Hst [b Hb] Hfull Ha (Hrx & Htx & Herr).
  destruct (ttys_wf_inv w Hwf) as (Hlen & _ & _ & Hcnt & Hsts).
  destruct (state_wf_inv st (Hsts _ _ Hst)) as (_ & _ & _ & _ & _ & Hrp).
  assert (Hid : (id < TTYS_NUM_INSTANCES)%nat).
  { rewrite <- Hlen. apply lookup_lt_is_Some_1. eauto. }
  unfold ttys_interrupt. apply Nat.leb_gt in Hid. rewrite Hid, Hst, Hb.
  rewrite Hrx, Htx, Herr. unfold ttys_interrupt_rx. rewrite Hst.
  rewrite (rx_next_mod _ Hrp), Hfull, Z.eqb_refl.
  unfold inc_cnt. rewrite Ha, (INC_SAT_U16_min a (Hcnt _ _ Ha)). reflexivity.
Qed.

(** X8.  When the receive ring of an open port is full and the status
    register shows RXNE only, the interrupt handler drops the received
    character.  Read back after the handler: the counter
    CNT_RX_BUF_OVERRUN holds its old value plus one, saturating at
    UINT16_MAX; every other counter, every instance (rings and indexes),
    the peripherals and the log level are as before. *)
Theorem ttys_interrupt_rx_overrun (bits : usart_sr_bits) (id : nat) (SR DR : Z)
    (w : ttys_mod) (st : ttys_state) (a : Z) :
  ttys_wf w = true ->
  ttys_states w !! id = Some st ->
  is_Some (uart_reg_base st) ->
  (rx_buf_put_idx st + 1) mod TTYS_RX_BUF_SIZE = rx_buf_get_idx st ->
  cnts_u16 w !! CNT_RX_BUF_OVERRUN = Some a ->
  only_rxne bits SR ->
  cnts_u16 (ttys_interrupt bits id SR DR w) !! CNT_RX_BUF_OVERRUN
  = Some (Z.min (a + 1) UINT16_MAX)
  /\ (forall pm, pm <> CNT_RX_BUF_OVERRUN ->
        cnts_u16 (ttys_interrupt bits id SR DR w) !! pm = cnts_u16 w !! pm)
  /\ ttys_states (ttys_interrupt bits id SR DR w) = ttys_states w
  /\ usart (ttys_interrupt bits id SR DR w) = usart w
  /\ log_level (ttys_interrupt bits id SR DR w) = log_level w.
Proof.
  intros Hwf Hst Hb Hfull Ha Hsr.
  rewrite (ttys_interrupt_rx_dropped bits id SR DR w st a Hwf Hst Hb Hfull Ha Hsr).
  cbn [cnts_u16 ttys_states usart log_level set_cnts_u16].
  split; [|split; [|auto]].
  - apply list_lookup_insert_eq. apply lookup_lt_is_Some_1. eauto.
  - intros pm Hpm. apply list_lookup_insert_ne. auto.
Qed.

Lemma ttys_interrupt_rx_overrun_witness :
  cnts_u16 rx_full_mod = [0; 0; 0; 0; 65534; 0]
  /\ cnts_u16 (ttys_interrupt stm32f4_sr_bits 1 0x20 67 rx_full_mod) !! CNT_RX_BUF_OVERRUN
     = Some 1
  /\ cnts_u16 (ttys_interrupt stm32f4_sr_bits 1 0x20 67 rx_full_mod) !! CNT_TX_BUF_OVERRUN
     = Some 65534
  /\ ttys_states (ttys_interrupt stm32f4_sr_bits 1 0x20 67 rx_full_mod)
     = ttys_states rx_full_mod.
Proof.
  destruct (ttys_interrupt_rx_overrun stm32f4_sr_bits 1 0x20 67 rx_full_mod
           (mk_ttys_state (mk_ttys_cfg true true) None 1 (Some 2%nat) 5 4 0 0
              (replicate (Z.to_nat TTYS_TX_BUF_SIZE) 0)
              (replicate (Z.to_nat TTYS_RX_BUF_SIZE) 66)) 0
           ltac:(vm_compute; reflexivity) eq_refl (mk_is_Some _ _ eq_refl)
           eq_refl eq_refl (conj eq_refl (conj eq_refl eq_refl)))
    as (H1 & H2 & H3 & _).
  exact (conj eq_refl (conj H1
           (conj (H2 CNT_TX_BUF_OVERRUN ltac:(vm_compute; discriminate)) H3))).
Defined.

(** X9.  On an open port, a ttys_putc that finds room returns 0 and leaves
    the TXE interrupt enabled; an interrupt with TXE only that finds the
    transmit ring empty disables the TXE interrupt and changes nothing else
    (nothing is written to the data register). *)
Theorem ttys_tx_interrupt_arming (bits : usart_sr_bits) (id : nat)
    (w : ttys_mod) (st : ttys_state) (io : usart_io) :
  ttys_wf w = true ->
  ttys_states w !! id = Some st ->
  usart w !! id = Some io ->
  is_Some (uart_reg_base st) ->
  (forall c,
      (tx_buf_put_idx st + 1) mod TTYS_TX_BUF_SIZE <> tx_buf_get_idx st ->
      (ttys_putc id c w).1 = 0
      /\ usart (ttys_putc id c w).2 !! id
         = Some (mk_usart_io (DR_written io) true (irq_enabled io)))
  /\ (forall SR DR,
        tx_buf_get_idx st = tx_buf_put_idx st ->
        only_txe bits SR ->
        ttys_interrupt bits id SR DR w
        = set_usart (<[id := mk_usart_io (DR_written io) false (irq_enabled io)]> (usart w)) w).
Proof.
  intros Hwf Hst Hio [b Hb].
  destruct (ttys_wf_inv w Hwf) as (Hlen & Hlenu & _ & Hcnt & Hsts).
  destruct (state_wf_inv st (Hsts _ _ Hst)) as (_ & _ & _ & Htp & _ & _).
  assert (Hid : (id < TTYS_NUM_INSTANCES)%nat).
  { rewrite <- Hlen. apply lookup_lt_is_Some_1. eauto. }
  apply Nat.leb_gt in Hid as Hid'.
  split.
  - intros c Hroom. unfold ttys_putc. rewrite Hid', Hst.
    rewrite (tx_next_mod _ Htp). apply Z.eqb_neq in Hroom. rewrite Hroom.
    cbn [fst snd uart_reg_base set_tx_put]. rewrite Hb.
    split; [reflexivity|]. unfold set_TXEIE. cbn [usart put_state set_ttys_states].
    rewrite Hio. cbn. apply list_lookup_insert_eq. rewrite Hlenu. exact Hid.
  - intros SR DR Hempty (Hrx & Htx & Herr).
    unfold ttys_interrupt. rewrite Hid', Hst, Hb, Hrx, Htx, Herr.
    unfold ttys_interrupt_tx. rewrite Hst, Hempty, Z.eqb_refl.
    unfold set_TXEIE. rewrite Hio. reflexivity.
Qed.

Lemma ttys_tx_interrupt_arming_witness :
  usart (ttys_putc 1 65 demo_mod).2 !! 1%nat = Some (mk_usart_io [] true true)
  /\ ttys_interrupt stm32f4_sr_bits 1 0x80 0 demo_mod
     = set_usart (<[1%nat := mk_usart_io [] false true]> (usart demo_mod)) demo_mod.
Proof.
  destruct (ttys_tx_interrupt_arming stm32f4_sr_bits 1 demo_mod
              (idle_state (Some 2%nat) 1022 78) quiet_usart
              ltac:(vm_compute; reflexivity) eq_refl eq_refl (mk_is_Some _ _ eq_refl))
    as [H1 H2].
  split.
  - apply (H1 65). vm_compute. discriminate.
  - apply (H2 0x80 0); [reflexivity|repeat split].
Defined.

Lemma ttys_no_uart (bits : usart_sr_bits) (id : nat)
    (w : ttys_mod) (st : ttys_state) :
  ttys_wf w = true ->
  ttys_states w !! id = Some st ->
  uart_reg_base st = None ->
  (forall SR DR, ttys_interrupt bits id SR DR w = NVIC_DisableIRQ id w)
  /\ (forall c,
        (tx_buf_put_idx st + 1) mod TTYS_TX_BUF_SIZE <> tx_buf_get_idx st ->
        ttys_putc id c w
        = (0, put_state id
                (set_tx_put (<[Z.to_nat (tx_buf_put_idx st) := c]> (tx_buf st))
                   ((tx_buf_put_idx st + 1) mod TTYS_TX_BUF_SIZE) st) w)).
Proof.
  intros Hwf Hst Hb.
  destruct (ttys_wf_inv w Hwf) as (Hlen & Hlenu & _ & Hcnt & Hsts).
  destruct (state_wf_inv st (Hsts _ _ Hst)) as (_ & _ & _ & Htp & _ & _).
  assert (Hid : (id < TTYS_NUM_INSTANCES)%nat).
  { rewrite <- Hlen. apply lookup_lt_is_Some_1. eauto. }
  apply Nat.leb_gt in Hid as Hid'.
  split.
  - intros SR DR. unfold ttys_interrupt. rewrite Hid', Hst, Hb. reflexivity.
  - intros c Hroom. unfold ttys_putc. rewrite Hid', Hst.
    rewrite (tx_next_mod _ Htp). apply Z.eqb_neq in Hroom. rewrite Hroom.
    cbn [uart_reg_base set_tx_put]. rewrite Hb. reflexivity.
Qed.

(** X10.  For an instance whose uart_reg_base is NULL, read back after the
    call.  After the interrupt handler, whatever the status value, the
    instance's interrupt line is disabled, its data register and TXE
    enable are as before, and so are the other peripherals, every
    instance, the counters and the log level.  After a ttys_putc that
    finds room, which returns 0, the instance holds the character at the
    old put index of its transmit ring and the put index advanced by one
    modulo the ring size, its other fields are as before, and so are the
    other instances, every peripheral, the counters and the log level. *)
Theorem ttys_unopened_port (bits : usart_sr_bits) (id : nat)
    (w : ttys_mod) (st : ttys_state) (io : usart_io) :
  ttys_wf w = true ->
  ttys_states w !! id = Some st ->
  usart w !! id = Some io ->
  uart_reg_base st = None ->
  (forall SR DR,
      usart (ttys_interrupt bits id SR DR w) !! id
      = Some (mk_usart_io (DR_written io) (TXEIE io) false)
      /\ (forall j, j <> id ->
            usart (ttys_interrupt bits id SR DR w) !! j = usart w !! j)
      /\ ttys_states (ttys_interrupt bits id SR DR w) = ttys_states w
      /\ cnts_u16 (ttys_interrupt bits id SR DR w) = cnts_u16 w
      /\ log_level (ttys_interrupt bits id SR DR w) = log_level w)
  /\ (forall c,
        (tx_buf_put_idx st + 1) mod TTYS_TX_BUF_SIZE <> tx_buf_get_idx st ->
        (ttys_putc id c w).1 = 0
        /\ ttys_states (ttys_putc id c w).2 !! id
           = Some (mk_ttys_state (cfg st) (stream st) (fd st) None
                     (rx_buf_get_idx st) (rx_buf_put_idx st) (tx_buf_get_idx st)
                     ((tx_buf_put_idx st + 1) mod TTYS_TX_BUF_SIZE)
                     (<[Z.to_nat (tx_buf_put_idx st) := c]> (tx_buf st))
                     (rx_buf st))
        /\ (forall j, j <> id ->
              ttys_states (ttys_putc id c w).2 !! j = ttys_states w !! j)
        /\ usart (ttys_putc id c w).2 = usart w
        /\ cnts_u16 (ttys_putc id c w).2 = cnts_u16 w
        /\ log_level (ttys_putc id c w).2 = log_level w).
Proof.
  intros Hwf Hst Hio Hb.
  destruct (ttys_no_uart bits id w st Hwf Hst Hb) as [Hirq Hput].
  split.
  - intros SR DR. rewrite Hirq. unfold NVIC_DisableIRQ. rewrite Hio.
    cbn [usart ttys_states cnts_u16 log_level set_usart].
    split; [|split; [|auto]].
    + apply list_lookup_insert_eq. apply lookup_lt_is_Some_1. eauto.
    + intros j Hj. apply list_lookup_insert_ne. auto.
  - intros c Hroom. rewrite (Hput c Hroom). cbn [fst snd].
    unfold put_state. cbn [usart ttys_states cnts_u16 log_level set_ttys_states].
    split; [reflexivity|]. split; [|split; [|auto]].
    + rewrite list_lookup_insert_eq by (apply lookup_lt_is_Some_1; eauto).
      unfold set_tx_put. rewrite Hb. reflexivity.
    + intros j Hj. apply list_lookup_insert_ne. auto.
Qed.

Lemma ttys_unopened_port_witness :
  usart (ttys_interrupt stm32f4_sr_bits 2 0xA0 66 demo_mod) !! 2%nat
  = Some (mk_usart_io [] false false)
  /\ usart (ttys_interrupt stm32f4_sr_bits 2 0xA0 66 demo_mod) !! 1%nat
     = Some (mk_usart_io [] false true)
  /\ (ttys_putc 2 65 demo_mod).1 = 0
  /\ (exists st',
        ttys_states (ttys_putc 2 65 demo_mod).2 !! 2%nat = Some st'
        /\ tx_buf st' !! 0%nat = Some 65
        /\ tx_buf_put_idx st' = 1
        /\ tx_buf_get_idx st' = 0)
  /\ usart (ttys_putc 2 65 demo_mod).2 = usart demo_mod.
Proof.
  destruct (ttys_unopened_port stm32f4_sr_bits 2 demo_mod (idle_state None 0 0)
              quiet_usart ltac:(vm_compute; reflexivity) eq_refl eq_refl eq_refl)
    as [H1 H2].
  destruct (H1 0xA0 66) as (Ha & Hb & _).
  destruct (H2 65 ltac:(vm_compute; discriminate)) as (Hc & Hd & _ & He & _).
  refine (conj Ha (conj (Hb 1%nat ltac:(discriminate)) (conj Hc (conj _ He)))).
  eexists. split; [exact Hd|]. vm_compute. auto.
Defined.

(** Instance numbers from [TTYS_NUM_INSTANCES] on are refused. *)
Lemma ttys_bad_instance (bits : usart_sr_bits) (id : nat) (w : ttys_mod) :
  (TTYS_NUM_INSTANCES <= id)%nat ->
  (forall c, ttys_putc id c w = (MOD_ERR_BAD_INSTANCE, w))
  /\ ttys_getc id w = (MOD_ERR_BAD_INSTANCE, None, w)
  /\ (forall SR DR, ttys_interrupt bits id SR DR w = w).
Proof.
  intros Hid. apply Nat.leb_le in Hid.
  unfold ttys_putc, ttys_getc, ttys_interrupt. rewrite Hid. auto.
Qed.

(** X11.  An interrupt on an open port whose status shows neither RXNE nor
    TXE leaves every instance state and every peripheral as they are, and
    increments (saturating at UINT16_MAX) exactly the counters whose error
    flag is set: ORE, NE, FE and PE each have their own counter, and all
    other counters keep their values. *)
Theorem ttys_interrupt_error_flags (bits : usart_sr_bits) (id : nat) (SR DR : Z)
    (w : ttys_mod) (st : ttys_state) :
  ttys_wf w = true ->
  ttys_states w !! id = Some st ->
  is_Some (uart_reg_base st) ->
  sr_flag (u8 SR) (LL_USART_SR_RXNE bits) = false ->
  sr_flag (u8 SR) (LL_USART_SR_TXE bits) = false ->
  let w' := ttys_interrupt bits id SR DR w in
  ttys_states w' = ttys_states w
  /\ usart w' = usart w
  /\ forall pm a,
       cnts_u16 w !! pm = Some a ->
       cnts_u16 w' !! pm
       = Some (if err_flagged bits (u8 SR) pm then Z.min (a + 1) UINT16_MAX else a).
Proof.
  intros Hwf Hst [b Hb] Hrx Htx w'. subst w'.
  destruct (ttys_wf_inv w Hwf) as (Hlen & Hlenu & _ & Hcnt & Hsts).
  assert (Hid : (id < TTYS_NUM_INSTANCES)%nat).
  { rewrite <- Hlen. apply lookup_lt_is_Some_1. eauto. }
  apply Nat.leb_gt in Hid as Hid'.
  unfold ttys_interrupt. rewrite Hid', Hst, Hb, Hrx, Htx.
  rewrite !sr_flag_lor.
  destruct (sr_flag (u8 SR) (LL_USART_SR_ORE bits)
            || (sr_flag (u8 SR) (LL_USART_SR_NE bits)
                || (sr_flag (u8 SR) (LL_USART_SR_FE bits)
                    || sr_flag (u8 SR) (LL_USART_SR_PE bits)))) eqn:Hany.
  - destruct (ttys_interrupt_err_states bits (u8 SR) w) as [Hs Hu].
    split; [exact Hs|]. split; [exact Hu|].
    intros pm a Ha. rewrite ttys_interrupt_err_lookup, Ha.
    destruct (err_flagged bits (u8 SR) pm); [|reflexivity].
    cbn. rewrite INC_SAT_U16_min by eauto. reflexivity.
  - split; [reflexivity|]. split; [reflexivity|].
    intros pm a Ha. rewrite Ha.
    apply orb_false_iff in Hany as [H1 Hany].
    apply orb_false_iff in Hany as [H2 Hany].
    apply orb_false_iff in Hany as [H3 H4].
    assert (Hf : err_flagged bits (u8 SR) pm = false).
    { unfold err_flagged. rewrite H1, H2, H3, H4.
      repeat match goal with |- context [if ?c then _ else _] => destruct c end;
        reflexivity. }
    rewrite Hf. reflexivity.
Qed.

Lemma ttys_interrupt_error_flags_witness :
  cnts_u16 (ttys_interrupt stm32f4_sr_bits 1 0x0A 0 demo_mod) !! CNT_RX_UART_ORE = Some 1
  /\ cnts_u16 (ttys_interrupt stm32f4_sr_bits 1 0x0A 0 demo_mod) !! CNT_RX_UART_FE = Some 1
  /\ cnts_u16 (ttys_interrupt stm32f4_sr_bits 1 0x0A 0 demo_mod) !! CNT_RX_UART_NE = Some 0
  /\ ttys_states (ttys_interrupt stm32f4_sr_bits 1 0x0A 0 demo_mod) = ttys_states demo_mod.
Proof.
  destruct (ttys_interrupt_error_flags stm32f4_sr_bits 1 0x0A 0 demo_mod
              (idle_state (Some 2%nat) 1022 78)
              ltac:(vm_compute; reflexivity) eq_refl (mk_is_Some _ _ eq_refl)
              eq_refl eq_refl) as (H1 & _ & H3).
  split; [exact (H3 CNT_RX_UART_ORE 0 eq_refl)|].
  split; [exact (H3 CNT_RX_UART_FE 0 eq_refl)|].
  split; [exact (H3 CNT_RX_UART_NE 0 eq_refl)|exact H1].
Defined.

End TtysExtProofs.

Module TtysIoProofs.
Import TtysExt Ttys TtysProofs TtysIo.

Lemma send_cr_putc id c w : send_cr id (ttys_putc id c w).2 = send_cr id w.
Proof.
  unfold send_cr, ttys_putc.
  destruct (TTYS_NUM_INSTANCES <=? id)%nat; [reflexivity|].
  destruct (ttys_states w !! id) as [st|] eqn:Hst; [|cbn; rewrite Hst; reflexivity].
  match goal with |- context [if ?b then _ else _] => destruct b end; cbn [snd].
  - rewrite inc_cnt_states, Hst. reflexivity.
  - cbn [uart_reg_base set_tx_put].
    assert (Hlt : (id < length (ttys_states w))%nat)
      by (apply lookup_lt_is_Some_1; eauto).
    destruct (uart_reg_base st); rewrite ?set_TXEIE_states;
      rewrite (lookup_put_state _ _ _ Hlt); reflexivity.
Qed.

(** The loop of [_write] is a sequence of [ttys_putc] over the expanded
    characters. *)
Lemma _write_loop_putc_seq id cs : forall w,
  _write_loop id cs w = (putc_seq id (crlf (send_cr id w) cs) w).2.
Proof.
  induction cs as [|c cs IH]; intros w; [reflexivity|].
  cbn [_write_loop crlf]. rewrite send_cr_putc.
  destruct ((c =? 10) && send_cr id w) eqn:Hcr; cbn [putc_seq].
  - destruct (ttys_putc id c w) as [r1 w1] eqn:H1. cbn [snd].
    destruct (ttys_putc id 13 w1) as [r2 w2] eqn:H2. cbn [snd].
    rewrite IH.
    assert (Hs : send_cr id w2 = send_cr id w).
    { replace w2 with (ttys_putc id 13 w1).2 by (rewrite H2; reflexivity).
      rewrite send_cr_putc.
      replace w1 with (ttys_putc id c w).2 by (rewrite H1; reflexivity).
      apply send_cr_putc. }
    rewrite Hs. destruct (putc_seq id (crlf (send_cr id w) cs) w2). reflexivity.
  - destruct (ttys_putc id c w) as [r1 w1] eqn:H1. cbn [snd].
    rewrite IH.
    assert (Hs : send_cr id w1 = send_cr id w).
    { replace w1 with (ttys_putc id c w).2 by (rewrite H1; reflexivity).
      apply send_cr_putc. }
    rewrite Hs. destruct (putc_seq id (crlf (send_cr id w) cs) w1). reflexivity.
Qed.


(** X12.  _write on the file descriptor of an open port whose transmit ring
    is empty returns len and sets no errno, and when the characters (with a
    carriage return added after each line feed if send_cr_after_nl is set)
    fit in the ring, as many TXE interrupts as there are characters write
    exactly these characters, in order, to the data register. *)
Theorem write_transmits (UART6 : nat) (bits : usart_sr_bits) (file : Z)
    (w : ttys_mod) (st : ttys_state) (ptr : list Z) (reads : list (Z * Z)) :
  let id := fd_to_instance UART6 file in
  let out := crlf (send_cr_after_nl (cfg st)) ptr in
  ttys_wf w = true ->
  ttys_states w !! id = Some st ->
  is_Some (uart_reg_base st) ->
  tx_buf_get_idx st = tx_buf_put_idx st ->
  Z.of_nat (length out) <= TTYS_TX_BUF_SIZE - 1 ->
  length reads = length out ->
  Forall (fun r => sr_flag (u8 r.1) (LL_USART_SR_TXE bits) = true) reads ->
  let r := _write UART6 file ptr (Z.of_nat (length ptr)) w in
  r.1 = (Z.of_nat (length ptr), None)
  /\ tx_line id (interrupt_seq bits id reads r.2) = tx_line id w ++ out.
Proof.
  intros id out Hwf Hst [b Hb] Hempty Hroom Hreads Hall r. subst r.
  destruct (ttys_wf_inv w Hwf) as (Hlen & Hlenu & _ & _ & Hsts).
  destruct (state_wf_inv st (Hsts _ _ Hst)) as (Htl & Hrl & Htg & Htp & Hrg & Hrp).
  assert (Hid : (id < TTYS_NUM_INSTANCES)%nat).
  { rewrite <- Hlen. apply lookup_lt_is_Some_1. eauto. }
  destruct (lookup_lt_is_Some_2 (usart w) id) as [io Hio];
    [rewrite Hlenu; exact Hid|].
  unfold _write. fold id. apply Nat.leb_gt in Hid as Hid'. rewrite Hid'.
  cbn [fst snd]. split; [reflexivity|].
  rewrite Nat2Z.id, firstn_all, _write_loop_putc_seq.
  assert (Hcr : send_cr id w = send_cr_after_nl (cfg st))
    by (unfold send_cr; rewrite Hst; reflexivity).
  rewrite Hcr. fold out.
  assert (Hinv : tx_inv id w [] (DR_written io) (Some b)).
  { exists st, io. cbn [ring_holds]. auto 10. }
  destruct (putc_seq_tx_inv id out w [] _ _ Hid Hinv) as (w1 & Hp & Hinv1).
  { cbn [length]. lia. }
  rewrite Hp. cbn [snd app] in *.
  pose proof (interrupt_seq_tx bits id b out reads w1 _ Hid Hreads Hall Hinv1)
    as (st2 & io2 & Hst2 & Hio2 & _ & _ & _ & _ & HD & _).
  unfold tx_line. rewrite Hio2, Hio. exact HD.
Qed.

Lemma write_transmits_witness :
  (_write 2 UART2_FD [72; 10] 2 demo_mod).1 = (2, None)
  /\ tx_line 1
       (interrupt_seq stm32f4_sr_bits 1 [(0x80, 0); (0x80, 0); (0xC0, 0)]
          (_write 2 UART2_FD [72; 10] 2 demo_mod).2)
     = [72; 10; 13].
Proof.
  apply (write_transmits 2 stm32f4_sr_bits UART2_FD demo_mod
           (idle_state (Some 2%nat) 1022 78) [72; 10] [(0x80, 0); (0x80, 0); (0xC0, 0)]).
  - vm_compute. reflexivity.
  - reflexivity.
  - exact (mk_is_Some _ _ eq_refl).
  - reflexivity.
  - vm_compute. discriminate.
  - reflexivity.
  - repeat constructor.
Defined.

Lemma write_full_ring (UART6 : nat) (file : Z)
    (w : ttys_mod) (st : ttys_state) (a : Z) (ptr : list Z) :
  let id := fd_to_instance UART6 file in
  let out := crlf (send_cr_after_nl (cfg st)) ptr in
  ttys_wf w = true ->
  ttys_states w !! id = Some st ->
  (tx_buf_put_idx st + 1) mod TTYS_TX_BUF_SIZE = tx_buf_get_idx st ->
  cnts_u16 w !! CNT_TX_BUF_OVERRUN = Some a ->
  _write UART6 file ptr (Z.of_nat (length ptr)) w
  = (Z.of_nat (length ptr), None,
     set_cnts_u16
       (<[CNT_TX_BUF_OVERRUN := Z.min (a + Z.of_nat (length out)) UINT16_MAX]>
          (cnts_u16 w)) w).
Proof.
  intros id out Hwf Hst Hfull Ha.
  destruct (ttys_wf_inv w Hwf) as (Hlen & Hlenu & _ & Hcnt & Hsts).
  destruct (state_wf_inv st (Hsts _ _ Hst)) as (_ & _ & _ & Htp & _ & _).
  assert (Hid : (id < TTYS_NUM_INSTANCES)%nat).
  { rewrite <- Hlen. apply lookup_lt_is_Some_1. eauto. }
  unfold _write. fold id. apply Nat.leb_gt in Hid as Hid'. rewrite Hid'.
  rewrite Nat2Z.id, firstn_all, _write_loop_putc_seq.
  assert (Hcr : send_cr id w = send_cr_after_nl (cfg st))
    by (unfold send_cr; rewrite Hst; reflexivity).
  rewrite Hcr. fold out.
  rewrite (putc_seq_full id out w st a Hid Hst Htp Hfull Ha (Hcnt _ _ Ha)).
  reflexivity.
Qed.

(** X13.  _write ignores the result of ttys_putc: when the transmit ring is
    full it still returns len and sets no errno, although every character is
    dropped.  Read back after the call: CNT_TX_BUF_OVERRUN holds its old
    value plus the number of characters, added carriage returns included,
    saturating at UINT16_MAX; every other counter, every instance (so the
    transmit ring and its indexes too), the peripherals and the log level
    are as before. *)
Theorem write_overrun_unreported (UART6 : nat) (file : Z)
    (w : ttys_mod) (st : ttys_state) (a : Z) (ptr : list Z) :
  ttys_wf w = true ->
  ttys_states w !! fd_to_instance UART6 file = Some st ->
  (tx_buf_put_idx st + 1) mod TTYS_TX_BUF_SIZE = tx_buf_get_idx st ->
  cnts_u16 w !! CNT_TX_BUF_OVERRUN = Some a ->
  (_write UART6 file ptr (Z.of_nat (length ptr)) w).1 = (Z.of_nat (length ptr), None)
  /\ cnts_u16 (_write UART6 file ptr (Z.of_nat (length ptr)) w).2 !! CNT_TX_BUF_OVERRUN
     = Some (Z.min (a + Z.of_nat (length (crlf (send_cr_after_nl (cfg st)) ptr)))
               UINT16_MAX)
  /\ (forall pm, pm <> CNT_TX_BUF_OVERRUN ->
        cnts_u16 (_write UART6 file ptr (Z.of_nat (length ptr)) w).2 !! pm
        = cnts_u16 w !! pm)
  /\ ttys_states (_write UART6 file ptr (Z.of_nat (length ptr)) w).2 = ttys_states w
  /\ usart (_write UART6 file ptr (Z.of_nat (length ptr)) w).2 = usart w
  /\ log_level (_write UART6 file ptr (Z.of_nat (length ptr)) w).2 = log_level w.
Proof.
  intros Hwf Hst Hfull Ha.
  rewrite (write_full_ring UART6 file w st a ptr Hwf Hst Hfull Ha).
  cbn [fst snd cnts_u16 ttys_states usart log_level set_cnts_u16].
  split; [reflexivity|]. split; [|split; [|auto]].
  - apply list_lookup_insert_eq. apply lookup_lt_is_Some_1. eauto.
  - intros pm Hpm. apply list_lookup_insert_ne. auto.
Qed.

Lemma write_overrun_unreported_witness :
  cnts_u16 demo_mod = [0; 0; 0; 0; 65534; 0]
  /\ (_write 2 UART1_FD [72; 10] 2 demo_mod).1 = (2, None)
  /\ cnts_u16 (_write 2 UART1_FD [72; 10] 2 demo_mod).2 !! CNT_TX_BUF_OVERRUN
     = Some 65535
  /\ cnts_u16 (_write 2 UART1_FD [72; 10] 2 demo_mod).2 !! CNT_RX_BUF_OVERRUN
     = Some 0
  /\ ttys_states (_write 2 UART1_FD [72; 10] 2 demo_mod).2 = ttys_states demo_mod.
Proof.
  destruct (write_overrun_unreported 2 UART1_FD demo_mod (full_state (Some 1%nat)) 65534
              [72; 10] ltac:(vm_compute; reflexivity) eq_refl eq_refl eq_refl)
    as (H1 & H2 & H3 & H4 & _).
  exact (conj eq_refl (conj H1 (conj H2
           (conj (H3 CNT_RX_BUF_OVERRUN ltac:(vm_compute; discriminate)) H4)))).
Defined.

(** a file descriptor that is not one of the ports. *)
Lemma stdio_bad_fd (UART6 : nat) (file : Z) (w : ttys_mod) :
  file <> UART1_FD -> file <> UART2_FD -> file <> UART6_FD ->
  (forall ptr len, _write UART6 file ptr len w = (-1, Some EBADF, w))
  /\ (forall len, _read UART6 file len w = (-1, Some EBADF, [], w)).
Proof.
  intros H1 H2 H6.
  assert (Hfd : fd_to_instance UART6 file = TTYS_NUM_INSTANCES).
  { unfold fd_to_instance. apply Z.eqb_neq in H1, H2, H6. rewrite H1, H2, H6.
    reflexivity. }
  unfold _write, _read. rewrite Hfd. auto.
Qed.

Lemma _read_loop_rx id u n : forall w l,
  (id < TTYS_NUM_INSTANCES)%nat ->
  rx_inv id w l u ->
  exists w', _read_loop id n w = (take n l, w') /\ rx_inv id w' (drop n l) u.
Proof.
  induction n as [|n IH]; intros w l Hid Hinv.
  - exists w. rewrite take_0, drop_0. auto.
  - destruct l as [|x l].
    + exists w. cbn [_read_loop]. rewrite (ttys_getc_empty id w u Hid Hinv).
      cbn. auto.
    + destruct (ttys_getc_pop id w x l u Hid Hinv) as (w1 & Hg & Hinv1).
      destruct (IH w1 l Hid Hinv1) as (w2 & Hl & Hinv2).
      exists w2. cbn [_read_loop]. rewrite Hg. cbn [Z.eqb]. rewrite Hl.
      cbn. auto.
Qed.

(** X14.  _read on the file descriptor of a port: with an empty receive ring
    it returns -1 with errno EAGAIN and changes nothing; otherwise it
    returns the number of characters delivered, which are the oldest
    min(len, available) characters of the ring in order, and the remaining
    characters stay in the ring. *)
Theorem read_delivers_oldest (UART6 : nat) (file : Z) (len : Z)
    (w : ttys_mod) (l : list Z) (u : option nat) :
  let id := fd_to_instance UART6 file in
  (id < TTYS_NUM_INSTANCES)%nat ->
  rx_inv id w l u ->
  (l = [] -> _read UART6 file len w = (-1, Some EAGAIN, [], w))
  /\ (l <> [] ->
      let n := Z.to_nat len in
      exists w',
        _read UART6 file len w = (Z.of_nat (length (take n l)), None, take n l, w')
        /\ rx_inv id w' (drop n l) u).
Proof.
  intros id Hid Hinv. apply Nat.leb_gt in Hid as Hid'.
  pose proof Hinv as (st & Hst & _ & _ & _ & Hring & _).
  unfold _read. fold id. rewrite Hid', Hst. split.
  - intros ->. cbn in Hring. rewrite Hring, Z.eqb_refl. reflexivity.
  - intros Hne. cbv zeta. destruct l as [|x l]; [contradiction|].
    cbn [ring_holds] in Hring. destruct Hring as (Hgp & _).
    apply Z.eqb_neq in Hgp. rewrite Hgp.
    destruct (_read_loop_rx id u (Z.to_nat len) w (x :: l) Hid Hinv)
      as (w' & Hl & Hinv').
    exists w'. rewrite Hl. auto.
Qed.

Lemma read_delivers_oldest_witness :
  exists w',
    _read 2 UART2_FD 2 (rx_holding [72; 105; 33]) = (2, None, [72; 105], w')
    /\ rx_inv 1 w' [33] (Some 2%nat).
Proof.
  refine (proj2 (read_delivers_oldest 2 UART2_FD 2 (rx_holding [72; 105; 33])
                   [72; 105; 33] (Some 2%nat) _ _) _).
  - vm_compute. lia.
  - eexists. split; [reflexivity|]. simpl. repeat split; try lia; discriminate.
  - discriminate.
Defined.

End TtysIoProofs.

Module CmdExtProofs.
Import Libc Cmd CmdProofs CmdExt.

Lemma clients_upto_null_app cis rest :
  clients_upto_null ((Some <$> cis) ++ None :: rest) = cis.
Proof. induction cis as [|c cis IH]; cbn; [reflexivity|]. rewrite IH. reflexivity. Qed.

Lemma clients_upto_null_all cis : clients_upto_null (Some <$> cis) = cis.
Proof. induction cis as [|c cis IH]; cbn; [reflexivity|]. rewrite IH. reflexivity. Qed.

Lemma registry_is_registered cis w : registry_is cis w -> registered w = cis.
Proof.
  intros [Hlen Hreg]. unfold registered. rewrite Hreg.
  rewrite take_ge.
  2:{ rewrite length_app, length_fmap, length_replicate. lia. }
  destruct (Z.to_nat CMD_MAX_CLIENTS - length cis)%nat as [|k] eqn:Hk.
  - cbn. rewrite app_nil_r. apply clients_upto_null_all.
  - cbn [replicate]. apply clients_upto_null_app.
Qed.

Lemma strcasecmp_refl a : strcasecmp a a = 0.
Proof. induction a as [|c a IH]; cbn; [reflexivity|]. rewrite Z.eqb_refl. exact IH. Qed.

Lemma strcasecmp_sym a : forall b, strcasecmp a b = - strcasecmp b a.
Proof.
  induction a as [|c a IH]; intros [|d b]; cbn [strcasecmp]; try lia.
  rewrite (Z.eqb_sym (tolower d)).
  destruct (tolower c =? tolower d); [apply IH|lia].
Qed.

Lemma strcasecmp_sym_0 a b : strcasecmp a b = 0 <-> strcasecmp b a = 0.
Proof. rewrite (strcasecmp_sym a b). lia. Qed.

(** The loop of [cmd_register] on a registry in order: the slot it takes. *)
Lemma cmd_register_loop_spec new w cis : forall n a,
  registry_is cis w ->
  (a + n = Z.to_nat CMD_MAX_CLIENTS)%nat ->
  (forall j c, (j < a)%nat -> cis !! j = Some c -> strcasecmp (name c) (name new) <> 0) ->
  (a <= length cis)%nat ->
  cmd_register_loop (seq a n) new w
  = match list_find (fun c => strcasecmp (name c) (name new) = 0) (drop a cis) with
    | Some (i, _) =>
        Some (set_client_info (<[(a + i)%nat := Some new]> (client_info w)) w)
    | None =>
        if decide (length cis < Z.to_nat CMD_MAX_CLIENTS)%nat
        then Some (set_client_info (<[length cis := Some new]> (client_info w)) w)
        else None
    end.
Proof.
  induction n as [|n IH]; intros a Hreg Han Hbefore Hle.
  - cbn. destruct Hreg as [Hlen _].
    assert (a = length cis) by lia. subst a. rewrite drop_all. cbn.
    case_decide; [lia|reflexivity].
  - cbn [seq cmd_register_loop]. pose proof Hreg as [Hlen Hci].
    destruct (decide (a < length cis)%nat) as [Hlt|Hge].
    + destruct (lookup_lt_is_Some_2 cis a Hlt) as [c Hc].
      assert (Hl : client_info w !! a = Some (Some c)).
      { rewrite Hci, lookup_app_l by (rewrite length_fmap; exact Hlt).
        rewrite list_lookup_fmap, Hc. reflexivity. }
      rewrite Hl. rewrite (drop_S _ c a Hc). cbn [list_find].
      destruct (Z.eqb_spec (strcasecmp (name c) (name new)) 0) as [Heq|Hne].
      * rewrite decide_True by exact Heq. cbn. rewrite Nat.add_0_r. reflexivity.
      * rewrite decide_False by exact Hne.
        rewrite IH; try assumption; try lia.
        -- destruct (list_find _ (drop (S a) cis)) as [[i ?]|]; cbn; [|reflexivity].
           replace (a + S i)%nat with (S (a + i)) by lia. reflexivity.
        -- intros j c' Hj Hc'. destruct (decide (j = a)) as [->|];
             [congruence|apply (Hbefore j); [lia|exact Hc']].
    + assert (a = length cis) by lia. subst a. rewrite drop_all. cbn [list_find].
      assert (Hl : client_info w !! length cis = Some None).
      { rewrite Hci, lookup_app_r by (rewrite length_fmap; lia).
        rewrite length_fmap, Nat.sub_diag. apply lookup_replicate_2. lia. }
      rewrite Hl. case_decide; [reflexivity|lia].
Qed.

Lemma first_client_app_new cis new :
  Forall (fun c => strcasecmp (name c) (name new) <> 0) cis ->
  first_client (cis ++ [new]) (name new) = Some new.
Proof.
  induction 1 as [|c cis Hc _ IH]; cbn [first_client app].
  - rewrite strcasecmp_refl. reflexivity.
  - rewrite strcasecmp_sym_0 in Hc. apply Z.eqb_neq in Hc. rewrite Hc. exact IH.
Qed.

Lemma first_client_insert_new cis new : forall i,
  (i < length cis)%nat ->
  (forall j c, cis !! j = Some c -> (j < i)%nat -> strcasecmp (name c) (name new) <> 0) ->
  first_client (<[i := new]> cis) (name new) = Some new.
Proof.
  induction cis as [|c cis IH]; intros i Hi Hbefore; [cbn in Hi; lia|].
  destruct i as [|i]; cbn [first_client].
  - cbn. rewrite strcasecmp_refl. reflexivity.
  - cbn. assert (Hc : strcasecmp (name c) (name new) <> 0)
      by (apply (Hbefore 0%nat); [reflexivity|lia]).
    rewrite strcasecmp_sym_0 in Hc. apply Z.eqb_neq in Hc. rewrite Hc.
    apply IH; [cbn in Hi; lia|].
    intros j c' Hl Hj. apply (Hbefore (S j)); [exact Hl|lia].
Qed.

(** X15.  cmd_register of a client whose name matches (ignoring case) no
    registered client: with a free slot it returns 0 and appends the client
    after the registered ones, leaves the memory the clients lend unchanged,
    and the client loop of cmd_execute then finds the new client under its
    name; with all CMD_MAX_CLIENTS slots taken it returns MOD_ERR_RESOURCE
    and changes nothing. *)
Theorem cmd_register_new (new : cmd_client_info) (w : cmd_mod)
    (cis : list cmd_client_info) :
  registry_is cis w ->
  Forall (fun c => strcasecmp (name c) (name new) <> 0) cis ->
  ((length cis < Z.to_nat CMD_MAX_CLIENTS)%nat ->
   (cmd_register new w).1 = 0
   /\ registry_is (cis ++ [new]) (cmd_register new w).2
   /\ i32_mem (cmd_register new w).2 = i32_mem w
   /\ u16_mem (cmd_register new w).2 = u16_mem w
   /\ first_client (registered (cmd_register new w).2) (name new) = Some new)
  /\ (length cis = Z.to_nat CMD_MAX_CLIENTS ->
      cmd_register new w = (MOD_ERR_RESOURCE, w)).
Proof.
  intros Hreg Hnew. pose proof Hreg as [Hlen Hci].
  assert (Hloop := cmd_register_loop_spec new w cis (Z.to_nat CMD_MAX_CLIENTS) 0
                     Hreg eq_refl ltac:(intros; lia) ltac:(lia)).
  rewrite drop_0 in Hloop.
  assert (Hfind : list_find (fun c => strcasecmp (name c) (name new) = 0) cis = None)
    by (apply list_find_None; exact Hnew).
  rewrite Hfind in Hloop.
  unfold cmd_register. rewrite Hloop. split.
  - intros Hroom. rewrite decide_True by exact Hroom. cbn [fst snd].
    assert (Hreg' : registry_is (cis ++ [new])
              (set_client_info (<[length cis:=Some new]> (client_info w)) w)).
    { split; [rewrite length_app; cbn; lia|]. cbn. rewrite Hci.
      replace (length cis) with (length (Some <$> cis) + 0)%nat at 1
        by (rewrite length_fmap; lia).
      rewrite insert_app_r.
      destruct (Z.to_nat CMD_MAX_CLIENTS - length cis)%nat as [|k] eqn:Hk; [lia|].
      cbn. rewrite fmap_app, <- app_assoc. cbn.
      rewrite length_app. cbn.
      replace (Z.to_nat CMD_MAX_CLIENTS - (length cis + 1))%nat with k by lia.
      reflexivity. }
    repeat split; try apply Hreg'.
    rewrite (registry_is_registered _ _ Hreg').
    apply first_client_app_new. exact Hnew.
  - intros Hfull. rewrite decide_False by lia. reflexivity.
Qed.

Lemma cmd_register_new_witness :
  ((cmd_register dio_client demo_cmd).1 = 0
   /\ first_client (registered (cmd_register dio_client demo_cmd).2) "dio"
      = Some dio_client)
  /\ cmd_register dio_client full_cmd = (MOD_ERR_RESOURCE, full_cmd).
Proof.
  split.
  - destruct (cmd_register_new dio_client demo_cmd [tmr_client; led_client]) as [H _].
    + split; [vm_compute; lia|reflexivity].
    + repeat constructor; vm_compute; discriminate.
    + destruct (H ltac:(vm_compute; lia)) as (H1 & _ & _ & _ & H5).
      split; [exact H1|exact H5].
  - destruct (cmd_register_new dio_client full_cmd
                (replicate (Z.to_nat CMD_MAX_CLIENTS) tmr_client)) as [_ H].
    + split; [vm_compute; lia|reflexivity].
    + repeat constructor; vm_compute; discriminate.
    + apply H. reflexivity.
Defined.

(** X16.  cmd_register of a client whose name matches (ignoring case) a
    registered client returns 0 and replaces the first such client in its
    slot, keeping all other slots and their order, also when the registry is
    full; the client loop of cmd_execute then finds the new client under its
    name. *)
Theorem cmd_register_replace (new old : cmd_client_info) (w : cmd_mod)
    (cis : list cmd_client_info) (i : nat) :
  registry_is cis w ->
  cis !! i = Some old ->
  strcasecmp (name old) (name new) = 0 ->
  (forall j c, cis !! j = Some c -> (j < i)%nat -> strcasecmp (name c) (name new) <> 0) ->
  (cmd_register new w).1 = 0
  /\ registry_is (<[i := new]> cis) (cmd_register new w).2
  /\ i32_mem (cmd_register new w).2 = i32_mem w
  /\ u16_mem (cmd_register new w).2 = u16_mem w
  /\ first_client (registered (cmd_register new w).2) (name new) = Some new.
Proof.
  intros Hreg Hold Hmatch Hbefore. pose proof Hreg as [Hlen Hci].
  assert (Hloop := cmd_register_loop_spec new w cis (Z.to_nat CMD_MAX_CLIENTS) 0
                     Hreg eq_refl ltac:(intros; lia) ltac:(lia)).
  rewrite drop_0 in Hloop.
  assert (Hfind : list_find (fun c => strcasecmp (name c) (name new) = 0) cis
                  = Some (i, old)).
  { apply list_find_Some. split; [exact Hold|]. split; [exact Hmatch|].
    intros j y Hy Hj. eauto. }
  rewrite Hfind in Hloop. cbn [Nat.add] in Hloop.
  unfold cmd_register. rewrite Hloop. cbn [fst snd].
  assert (Hi : (i < length cis)%nat) by (apply lookup_lt_is_Some_1; eauto).
  assert (Hreg' : registry_is (<[i := new]> cis)
            (set_client_info (<[i:=Some new]> (client_info w)) w)).
  { split; [rewrite length_insert; exact Hlen|]. cbn. rewrite Hci.
    rewrite insert_app_l by (rewrite length_fmap; exact Hi).
    rewrite list_fmap_insert, length_insert. reflexivity. }
  repeat split; try apply Hreg'.
  rewrite (registry_is_registered _ _ Hreg').
  apply first_client_insert_new; assumption.
Qed.

Lemma cmd_register_replace_witness :
  (cmd_register tmr_client_v2 demo_cmd).1 = 0
  /\ registry_is [tmr_client_v2; led_client] (cmd_register tmr_client_v2 demo_cmd).2
  /\ first_client (registered (cmd_register tmr_client_v2 demo_cmd).2) "tmr"
     = Some tmr_client_v2.
Proof.
  destruct (cmd_register_replace tmr_client_v2 tmr_client demo_cmd
              [tmr_client; led_client] 0) as (H1 & H2 & _ & _ & H5).
  - split; [vm_compute; lia|reflexivity].
  - reflexivity.
  - reflexivity.
  - intros j c _ Hj. lia.
  - split; [exact H1|]. split; [exact H2|exact H5].
Defined.

Lemma cmd_init_registry w : registry_is [] (cmd_init w).2.
Proof. split; [cbn; lia|reflexivity]. Qed.

(** *** Log level names *)

Lemma log_level_str_int level :
  0 <= level < 6 -> log_level_int (log_level_str level) = level.
Proof.
  intros Hl.
  assert (level = 0 \/ level = 1 \/ level = 2 \/ level = 3 \/ level = 4 \/ level = 5)
    as [->|[->|[->|[->|[->| ->]]]]] by lia; reflexivity.
Qed.

Lemma log_level_int_str level_name :
  (log_level_int level_name = -1 \/ 0 <= log_level_int level_name < 6)
  /\ (0 <= log_level_int level_name ->
      strcasecmp level_name (log_level_str (log_level_int level_name)) = 0)
  /\ (log_level_int level_name = -1 ->
      forall level, 0 <= level < 6 ->
                    strcasecmp level_name (log_level_str level) <> 0).
Proof.
  unfold log_level_int, LOG_LEVEL_NAMES_CSV. cbn [log_level_int_loop].
  destruct (Z.eqb_spec (strcasecmp level_name "off") 0) as [H0|H0].
  { repeat split; auto; lia. }
  destruct (Z.eqb_spec (strcasecmp level_name "error") 0) as [H1|H1].
  { cbn. repeat split; auto; lia. }
  destruct (Z.eqb_spec (strcasecmp level_name "warning") 0) as [H2|H2].
  { cbn. repeat split; auto; lia. }
  destruct (Z.eqb_spec (strcasecmp level_name "info") 0) as [H3|H3].
  { cbn. repeat split; auto; lia. }
  destruct (Z.eqb_spec (strcasecmp level_name "debug") 0) as [H4|H4].
  { cbn. repeat split; auto; lia. }
  destruct (Z.eqb_spec (strcasecmp level_name "trace") 0) as [H5|H5].
  { cbn. repeat split; auto; lia. }
  cbn. split; [auto|]. split; [lia|].
  intros _ level Hl.
  assert (level = 0 \/ level = 1 \/ level = 2 \/ level = 3 \/ level = 4 \/ level = 5)
    as [->|[->|[->|[->|[->| ->]]]]] by lia; assumption.
Qed.

(** X17.  log_level_str and log_level_int are inverse to each other:
    log_level_int(log_level_str(n)) = n for n in 0..5, log_level_str gives
    INVALID outside this range, and log_level_int returns either -1, when
    the name matches no level name, or a level in 0..5 whose name equals the
    argument up to case. *)
Theorem log_level_names_round_trip :
  (forall level, 0 <= level < 6 -> log_level_int (log_level_str level) = level)
  /\ (forall level, ~ (0 <= level < 6) -> log_level_str level = "INVALID"%string)
  /\ (forall level_name,
        let v := log_level_int level_name in
        (v = -1 \/ 0 <= v < 6)
        /\ (0 <= v -> strcasecmp level_name (log_level_str v) = 0)
        /\ (v = -1 ->
            forall level, 0 <= level < 6 ->
                          strcasecmp level_name (log_level_str level) <> 0)).
Proof.
  split; [|split].
  - exact log_level_str_int.
  - intros level Hl. unfold log_level_str. cbn [length LOG_LEVEL_NAMES_CSV].
    destruct (Z.leb_spec 0 level); destruct (Z.ltb_spec level (Z.of_nat 6));
      cbn [andb]; try reflexivity. lia.
  - intros level_name. exact (log_level_int_str level_name).
Qed.

Lemma log_level_names_round_trip_witness :
  log_level_int (log_level_str 4) = 4
  /\ log_level_str 6 = "INVALID"%string
  /\ strcasecmp "Warning" (log_level_str (log_level_int "Warning")) = 0.
Proof.
  destruct log_level_names_round_trip as (H1 & H2 & H3).
  split; [apply H1; lia|]. split; [apply H2; lia|].
  destruct (H3 "Warning"%string) as (_ & H & _). apply H. vm_compute. discriminate.
Defined.

Lemma log_level_ptrs_cons ci cis :
  log_level_ptrs (ci :: cis)
  = match log_level_ptr ci with
    | Some p => p :: log_level_ptrs cis
    | None => log_level_ptrs cis
    end.
Proof. reflexivity. Qed.

Lemma load_store_i32 p q v w :
  load_i32 q (store_i32 p v w) = if decide (p = q) then v else load_i32 q w.
Proof.
  unfold load_i32, store_i32. cbn. case_decide as Hd.
  - subst. apply lookup_total_insert_eq.
  - apply lookup_total_insert_ne. exact Hd.
Qed.

Lemma wildcard_log_loop_set cis v : forall w o,
  let r := wildcard_log_loop cis (Some v) w o in
  r.2 = o
  /\ client_info r.1 = client_info w
  /\ log_level r.1 = log_level w /\ _log_active r.1 = _log_active w
  /\ u16_mem r.1 = u16_mem w
  /\ forall q, load_i32 q r.1
               = if decide (q ∈ log_level_ptrs cis) then v else load_i32 q w.
Proof.
  induction cis as [|ci cis IH]; intros w o; cbn [wildcard_log_loop].
  - cbn. repeat split.
  - rewrite log_level_ptrs_cons.
    destruct (log_level_ptr ci) as [p|] eqn:Hp.
    + destruct (IH (store_i32 p v w) o) as (H1 & H2 & H3 & H4 & H5 & H6).
      cbn zeta. repeat split; auto. intros q. rewrite H6, load_store_i32.
      destruct (decide (q ∈ log_level_ptrs cis)) as [Hin|Hnin].
      * rewrite decide_True; [reflexivity|]. apply elem_of_cons. auto.
      * destruct (decide (p = q)) as [->|Hne].
        -- rewrite decide_True; [reflexivity|]. apply elem_of_cons. auto.
        -- rewrite decide_False; [reflexivity|].
           rewrite elem_of_cons. intros [?|?]; [congruence|contradiction].
    + apply IH.
Qed.

(** X18.  The command line '* log <level>' with a valid level name returns
    0, prints nothing and calls no handler; it stores the level in the log
    level variable of every registered client that has one and changes no
    other memory. *)
Theorem wildcard_log_sets_all
    (func_run : nat -> Z -> list string -> cmd_mod -> Z * cmd_mod * list console_out)
    (bfr : string) (w : cmd_mod) (t1 t2 : string) :
  tokenize (c_str bfr) [] = Tokens ["*"%string; t1; t2] ->
  strcasecmp t1 "log" = 0 ->
  0 <= log_level_int t2 ->
  let r := cmd_execute func_run bfr w in
  rc r = 0 /\ out r = [] /\ calls r = []
  /\ client_info (world r) = client_info w
  /\ u16_mem (world r) = u16_mem w
  /\ forall q, load_i32 q (world r)
               = if decide (q ∈ log_level_ptrs (registered w))
                 then log_level_int t2 else load_i32 q w.
Proof.
  intros Htok Hlog Hlvl r. subst r. unfold cmd_execute. rewrite Htok.
  change (Z.of_nat (length ["*"%string; t1; t2]) =? 0) with false.
  change (strcmp "*" (token ["*"%string; t1; t2] 0) =? 0) with true.
  cbv iota. unfold cmd_execute_wildcard.
  change (Z.of_nat (length ["*"%string; t1; t2])) with 3.
  change (token ["*"%string; t1; t2] 1) with t1.
  change (token ["*"%string; t1; t2] 2) with t2.
  change (3 <? 2) with false. change (3 =? 3) with true. cbv iota.
  rewrite Hlog. cbn [Z.eqb andb negb].
  destruct (Z.ltb_spec (log_level_int t2) 0); [lia|]. cbv iota.
  destruct (wildcard_log_loop_set (registered w) (log_level_int t2) w [])
    as (H1 & H2 & H3 & H4 & H5 & H6).
  destruct (wildcard_log_loop (registered w) (Some (log_level_int t2)) w [])
    as [w' o]. cbn [fst snd] in *. subst o.
  cbn [mk_result rc out calls world]. repeat split; auto.
Qed.

Lemma wildcard_log_sets_all_witness :
  rc (cmd_execute echo_func "* LOG debug" demo_cmd) = 0
  /\ load_i32 7 (world (cmd_execute echo_func "* LOG debug" demo_cmd)) = LOG_DEBUG
  /\ load_i32 8 (world (cmd_execute echo_func "* LOG debug" demo_cmd))
     = load_i32 8 demo_cmd.
Proof.
  destruct (wildcard_log_sets_all echo_func "* LOG debug" demo_cmd "LOG" "debug")
    as (H1 & _ & _ & _ & _ & H6).
  - reflexivity.
  - reflexivity.
  - vm_compute. discriminate.
  - split; [exact H1|]. split; [exact (H6 7%nat)|exact (H6 8%nat)].
Defined.

Section Routed.

Variable func_run : nat -> Z -> list string -> cmd_mod -> Z * cmd_mod * list console_out.

Lemma cmd_execute_top bfr w tokens :
  tokenize (c_str bfr) [] = Tokens tokens ->
  tokens <> [] ->
  strcmp "*" (token tokens 0) <> 0 ->
  strcasecmp "help" (token tokens 0) <> 0 ->
  strcasecmp "?" (token tokens 0) <> 0 ->
  cmd_execute func_run bfr w = find_client func_run (registered w) tokens w.
Proof.
  intros Htok Hne Hs Hh Hq. unfold cmd_execute. rewrite Htok.
  destruct (Z.eqb_spec (Z.of_nat (length tokens)) 0) as [H0|_].
  { destruct tokens; [congruence|cbn [length] in H0; lia]. }
  destruct (Z.eqb_spec (strcmp "*" (token tokens 0)) 0); [contradiction|].
  destruct (Z.eqb_spec (strcasecmp "help" (token tokens 0)) 0); [contradiction|].
  destruct (Z.eqb_spec (strcasecmp "?" (token tokens 0)) 0); [contradiction|].
  reflexivity.
Qed.

Lemma cmd_execute_routed bfr w tokens ci :
  tokenize (c_str bfr) [] = Tokens tokens ->
  addressed_to w tokens ci ->
  cmd_execute func_run bfr w = cmd_execute_client func_run ci tokens w.
Proof.
  intros Htok (Hne & Hs & Hh & Hq & Hci).
  rewrite (cmd_execute_top _ _ _ Htok Hne Hs Hh Hq).
  rewrite find_client_first, Hci. reflexivity.
Qed.

Lemma find_cmd_first ccis num_tokens tokens w :
  find_cmd func_run ccis num_tokens tokens w
  = match first_cmd ccis (token tokens 1) with
    | Some cci =>
        let '(_, w', o) := func_run (func cci) num_tokens tokens w in
        mk_exec_result 0 w' (log_debug w ("Handle command" +:+ nl) ++ o)
          [mk_func_call (func cci) num_tokens tokens]
    | None =>
        mk_result MOD_ERR_BAD_CMD w
          [Printf ("No such command (" +:+ token tokens 0 +:+ " " +:+ token tokens 1
                   +:+ ")" +:+ nl)]
    end.
Proof.
  induction ccis as [|cci ccis IH]; cbn [find_cmd first_cmd]; [reflexivity|].
  destruct (strcasecmp (token tokens 1) (cmd_name cci) =? 0); [reflexivity|exact IH].
Qed.

Lemma cmd_execute_client_not_intercepted ci tokens w :
  intercepted (token tokens 1) = false ->
  cmd_execute_client func_run ci tokens w
  = find_cmd func_run (client_cmds ci) (Z.of_nat (length tokens)) (argv_of tokens) w.
Proof.
  unfold intercepted, is_help, cmd_execute_client, argv_of. intros Hint.
  rewrite !token_dummy.
  destruct (strcasecmp (token tokens 1) "help" =? 0); [discriminate Hint|].
  destruct (strcasecmp (token tokens 1) "?" =? 0); [discriminate Hint|].
  destruct (strcasecmp (token tokens 1) "log" =? 0); [discriminate Hint|].
  destruct (strcasecmp (token tokens 1) "pm" =? 0); [discriminate Hint|].
  reflexivity.
Qed.

(** X19.  A command line whose first token names a registered client and
    whose second token is none of help, ?, log, pm and matches a command of
    that client calls the handler of the first matching command exactly
    once, with argc the number of tokens and argv the tokens (followed by an
    empty dummy token when the line has one token only); cmd_execute returns
    0 whatever the handler returns, and its effects and output are those of
    the handler. *)
Theorem cmd_execute_dispatch bfr w tokens ci cci r w' o :
  tokenize (c_str bfr) [] = Tokens tokens ->
  addressed_to w tokens ci ->
  intercepted (token tokens 1) = false ->
  first_cmd (client_cmds ci) (token tokens 1) = Some cci ->
  func_run (func cci) (Z.of_nat (length tokens)) (argv_of tokens) w = (r, w', o) ->
  cmd_execute func_run bfr w
  = mk_exec_result 0 w' (log_debug w ("Handle command" +:+ nl) ++ o)
      [mk_func_call (func cci) (Z.of_nat (length tokens)) (argv_of tokens)].
Proof.
  intros Htok Haddr Hint Hcmd Hrun.
  rewrite (cmd_execute_routed _ _ _ _ Htok Haddr).
  rewrite (cmd_execute_client_not_intercepted _ _ _ Hint).
  rewrite find_cmd_first. unfold argv_of at 1. rewrite token_dummy.
  rewrite Hcmd, Hrun. reflexivity.
Qed.

(** X20.  A command line whose first token is not *, help or ? and names no
    registered client is refused with MOD_ERR_BAD_CMD and the message 'No
    such command (<token 0>)'; when it names a client but the second token
    is not handled by cmd_execute itself and names no command of the client,
    the message quotes both tokens. In both cases nothing changes and no
    handler is called. *)
Theorem cmd_execute_no_such_command bfr w tokens :
  tokenize (c_str bfr) [] = Tokens tokens ->
  tokens <> [] ->
  strcmp "*" (token tokens 0) <> 0 ->
  strcasecmp "help" (token tokens 0) <> 0 ->
  strcasecmp "?" (token tokens 0) <> 0 ->
  match first_client (registered w) (token tokens 0) with
  | None =>
      cmd_execute func_run bfr w
      = mk_result MOD_ERR_BAD_CMD w
          [Printf ("No such command (" +:+ token tokens 0 +:+ ")" +:+ nl)]
  | Some ci =>
      intercepted (token tokens 1) = false ->
      first_cmd (client_cmds ci) (token tokens 1) = None ->
      cmd_execute func_run bfr w
      = mk_result MOD_ERR_BAD_CMD w
          [Printf ("No such command (" +:+ token tokens 0 +:+ " " +:+ token tokens 1
                   +:+ ")" +:+ nl)]
  end.
Proof.
  intros Htok Hne Hs Hh Hq.
  rewrite (cmd_execute_top _ _ _ Htok Hne Hs Hh Hq), find_client_first.
  destruct (first_client (registered w) (token tokens 0)) as [ci|]; [|reflexivity].
  intros Hint Hcmd. rewrite (cmd_execute_client_not_intercepted _ _ _ Hint).
  rewrite find_cmd_first. unfold argv_of. rewrite !token_dummy, Hcmd. reflexivity.
Qed.

Lemma log_not_help t1 :
  strcasecmp t1 "log" = 0 ->
  (strcasecmp t1 "help" =? 0) = false /\ (strcasecmp t1 "?" =? 0) = false.
Proof.
  intros H. split; apply (strcasecmp_head_ne _ _ _ _ _ H); vm_compute; discriminate.
Qed.

Lemma pm_not_help_log t1 :
  strcasecmp t1 "pm" = 0 ->
  (strcasecmp t1 "help" =? 0) = false /\ (strcasecmp t1 "?" =? 0) = false
  /\ (strcasecmp t1 "log" =? 0) = false.
Proof.
  intros H. repeat split;
    apply (strcasecmp_head_ne _ _ _ _ _ H); vm_compute; discriminate.
Qed.

Lemma addressed_to_registered w w' tokens ci :
  client_info w' = client_info w ->
  addressed_to w tokens ci -> addressed_to w' tokens ci.
Proof.
  unfold addressed_to, registered. intros ->. auto.
Qed.

(** X21.  '<client> log <level>' with a valid level name returns 0, calls no
    handler and stores the level in that client's log level variable only; a
    following '<client> log' returns 0, changes nothing and prints (after
    the debug log line, if enabled) 'Log level for <client> = <name>' with
    the name of the stored level, which equals the name that was given up to
    case. *)
Theorem client_log_set_then_get bfr bfr' w t0 t1 t2 t0' t1' ci p :
  tokenize (c_str bfr) [] = Tokens [t0; t1; t2] ->
  addressed_to w [t0; t1; t2] ci ->
  tokenize (c_str bfr') [] = Tokens [t0'; t1'] ->
  addressed_to w [t0'; t1'] ci ->
  strcasecmp t1 "log" = 0 -> strcasecmp t1' "log" = 0 ->
  log_level_ptr ci = Some p ->
  0 <= log_level_int t2 ->
  let r := cmd_execute func_run bfr w in
  let r' := cmd_execute func_run bfr' (world r) in
  rc r = 0 /\ calls r = []
  /\ world r = store_i32 p (log_level_int t2) w
  /\ rc r' = 0 /\ world r' = world r
  /\ out r'
     = log_debug w ("Handle command log" +:+ nl)
       ++ [Printf ("Log level for " +:+ name ci +:+ " = "
                   +:+ log_level_str (log_level_int t2) +:+ nl)]
  /\ strcasecmp t2 (log_level_str (log_level_int t2)) = 0.
Proof.
  intros Htok Haddr Htok' Haddr' Hlog Hlog' Hp Hlvl r r'.
  assert (Hr : r = mk_result 0 (store_i32 p (log_level_int t2) w)
                     (log_debug w ("Handle command log" +:+ nl))).
  { subst r. rewrite (cmd_execute_routed _ _ _ _ Htok Haddr).
    unfold cmd_execute_client.
    change (Z.of_nat (length [t0; t1; t2])) with 3.
    change (3 =? 1) with false. cbv iota.
    change (token [t0; t1; t2] 1) with t1. change (token [t0; t1; t2] 2) with t2.
    destruct (log_not_help t1 Hlog) as [-> ->]. rewrite Hlog, Hp.
    cbn [orb Z.eqb]. change (3 <? 3) with false. cbv iota.
    destruct (Z.ltb_spec (log_level_int t2) 0); [lia|]. reflexivity. }
  assert (Hr' : r' = mk_result 0 (world r)
                       (log_debug w ("Handle command log" +:+ nl)
                        ++ [Printf ("Log level for " +:+ name ci +:+ " = "
                                    +:+ log_level_str (log_level_int t2) +:+ nl)])).
  { subst r'. rewrite Hr. cbn [world mk_result].
    assert (Ha : addressed_to (store_i32 p (log_level_int t2) w) [t0'; t1'] ci)
      by (apply (addressed_to_registered w); [reflexivity|exact Haddr']).
    rewrite (cmd_execute_routed _ _ _ _ Htok' Ha).
    unfold cmd_execute_client.
    change (Z.of_nat (length [t0'; t1'])) with 2.
    change (2 =? 1) with false. cbv iota.
    change (token [t0'; t1'] 1) with t1'.
    destruct (log_not_help t1' Hlog') as [-> ->]. rewrite Hlog', Hp.
    cbn [orb Z.eqb]. change (2 <? 3) with true. cbv iota.
    rewrite load_store_i32, decide_True by reflexivity. reflexivity. }
  rewrite Hr'. rewrite Hr. cbn [rc calls world out mk_result].
  repeat split.
  destruct (log_level_int_str t2) as (_ & H2 & _). apply H2. exact Hlvl.
Qed.

Lemma load_store_u16 p i v w a :
  u16_mem (store_u16 p i v w) !!! a
  = if decide (a = (p + i)%nat) then v else u16_mem w !!! a.
Proof.
  unfold store_u16. cbn. case_decide as Hd.
  - subst. apply lookup_total_insert_eq.
  - apply lookup_total_insert_ne. congruence.
Qed.

Lemma pm_loop_clear ci idxs : forall w o,
  let r := pm_loop idxs ci true w o in
  r.2 = o
  /\ client_info r.1 = client_info w /\ i32_mem r.1 = i32_mem w
  /\ forall a, u16_mem r.1 !!! a
               = if decide (a ∈ (fun i => (u16_pms ci + i)%nat) <$> idxs)
                 then 0 else u16_mem w !!! a.
Proof.
  induction idxs as [|i idxs IH]; intros w o; cbn [pm_loop].
  - cbn zeta. cbn [fst snd]. repeat split.
  - destruct (IH (store_u16 (u16_pms ci) i 0 w) o) as (H1 & H2 & H3 & H4).
    cbn zeta. repeat split; auto. intros a. rewrite H4, load_store_u16.
    rewrite fmap_cons.
    destruct (decide (a ∈ (fun i0 => (u16_pms ci + i0)%nat) <$> idxs)) as [Hin|Hn].
    + rewrite decide_True; [reflexivity|]. rewrite elem_of_cons. auto.
    + destruct (decide (a = (u16_pms ci + i)%nat)) as [Ha|Ha].
      * rewrite decide_True; [reflexivity|]. rewrite elem_of_cons. auto.
      * rewrite decide_False; [reflexivity|].
        rewrite elem_of_cons. intros [?|?]; contradiction.
Qed.

Lemma pm_loop_show ci idxs : forall w o,
  pm_loop idxs ci false w o
  = (w, o ++ map (fun idx2 =>
                    Printf ("  " +:+ default "" (u16_pm_names ci !! idx2) +:+ ": "
                            +:+ pretty (load_u16 (u16_pms ci) idx2 w) +:+ nl)) idxs).
Proof.
  induction idxs as [|i idxs IH]; intros w o; cbn [pm_loop map].
  - rewrite app_nil_r. reflexivity.
  - rewrite IH, <- app_assoc. reflexivity.
Qed.

(** X22.  '<client> pm clear' for a client that lends counters returns 0,
    calls no handler, prints one line and sets exactly the client's
    num_u16_pms counters to 0, leaving all other memory unchanged; '<client>
    pm' changes nothing and prints the client name and then one line per
    counter with its name and value, in order. *)
Theorem client_pm_spec bfr w tokens ci :
  tokenize (c_str bfr) [] = Tokens tokens ->
  addressed_to w tokens ci ->
  strcasecmp (token tokens 1) "pm" = 0 ->
  0 < num_u16_pms ci ->
  let r := cmd_execute func_run bfr w in
  rc r = 0 /\ calls r = []
  /\ if (3 <=? Z.of_nat (length tokens)) && (strcasecmp (token tokens 2) "clear" =? 0)
     then
       out r = [Printf ("Clearing performance measurements for " +:+ name ci +:+ nl)]
       /\ client_info (world r) = client_info w
       /\ i32_mem (world r) = i32_mem w
       /\ forall a, u16_mem (world r) !!! a
                    = if decide (u16_pms ci <= a < u16_pms ci
                                                   + Z.to_nat (num_u16_pms ci))%nat
                      then 0 else u16_mem w !!! a
     else
       world r = w
       /\ out r
          = Printf (name ci +:+ ":" +:+ nl)
            :: map (fun idx2 =>
                      Printf ("  " +:+ default "" (u16_pm_names ci !! idx2) +:+ ": "
                              +:+ pretty (load_u16 (u16_pms ci) idx2 w) +:+ nl))
                 (seq 0 (Z.to_nat (num_u16_pms ci))).
Proof.
  intros Htok Haddr Hpm Hnum r. subst r.
  rewrite (cmd_execute_routed _ _ _ _ Htok Haddr).
  unfold cmd_execute_client. rewrite !token_dummy.
  destruct (pm_not_help_log _ Hpm) as (-> & -> & ->). rewrite Hpm.
  cbn [orb Z.eqb]. cbv iota.
  destruct (Z.ltb_spec 0 (num_u16_pms ci)); [|lia].
  destruct ((3 <=? Z.of_nat (length tokens))
            && (strcasecmp (token tokens 2) "clear" =? 0)).
  - destruct (pm_loop_clear ci (seq 0 (Z.to_nat (num_u16_pms ci))) w
                [Printf ("Clearing performance measurements for " +:+ name ci +:+ nl)])
      as (H1 & H2 & H3 & H4).
    destruct (pm_loop _ ci true w _) as [w' o]. cbn [fst snd] in *. subst o.
    cbn [rc calls world out mk_result]. repeat split; auto.
    intros a. rewrite H4.
    destruct (decide (u16_pms ci <= a < u16_pms ci + Z.to_nat (num_u16_pms ci))%nat)
      as [Hin|Hout].
    + rewrite decide_True; [reflexivity|].
      apply list_elem_of_fmap. exists (a - u16_pms ci)%nat. split; [lia|].
      apply elem_of_seq. lia.
    + rewrite decide_False; [reflexivity|].
      intros Hi. apply list_elem_of_fmap in Hi as (i & -> & Hi).
      apply elem_of_seq in Hi. lia.
  - rewrite pm_loop_show. cbn [rc calls world out mk_result app]. auto.
Qed.

End Routed.

Lemma cmd_execute_dispatch_witness :
  cmd_execute echo_func "Tmr  STATUS" demo_cmd
  = mk_exec_result 0 demo_cmd [Printf "1"]
      [mk_func_call 1 2 ["Tmr"; "STATUS"]%string].
Proof.
  apply (cmd_execute_dispatch echo_func "Tmr  STATUS" demo_cmd ["Tmr"; "STATUS"]%string
           tmr_client
           (mk_cmd_cmd_info "status" 1%nat "Get module status, usage: tmr status")
           1 demo_cmd [Printf "1"]).
  - reflexivity.
  - repeat split; try (vm_compute; discriminate).
  - reflexivity.
  - reflexivity.
  - reflexivity.
Defined.

Lemma cmd_execute_no_such_command_witness :
  cmd_execute echo_func "foo bar" demo_cmd
  = mk_result MOD_ERR_BAD_CMD demo_cmd [Printf ("No such command (foo)" +:+ nl)]
  /\ cmd_execute echo_func "tmr bar" demo_cmd
     = mk_result MOD_ERR_BAD_CMD demo_cmd [Printf ("No such command (tmr bar)" +:+ nl)].
Proof.
  split.
  - apply (cmd_execute_no_such_command echo_func "foo bar" demo_cmd
             ["foo"; "bar"]%string); try reflexivity; vm_compute; discriminate.
  - apply (cmd_execute_no_such_command echo_func "tmr bar" demo_cmd
             ["tmr"; "bar"]%string); try reflexivity; vm_compute; discriminate.
Defined.

Lemma client_log_set_then_get_witness :
  world (cmd_execute echo_func "tmr log DEBUG" demo_cmd) = store_i32 7 LOG_DEBUG demo_cmd
  /\ out (cmd_execute echo_func "TMR log"
            (world (cmd_execute echo_func "tmr log DEBUG" demo_cmd)))
     = [Printf ("Log level for tmr = debug" +:+ nl)].
Proof.
  destruct (client_log_set_then_get echo_func "tmr log DEBUG" "TMR log" demo_cmd
              "tmr" "log" "DEBUG" "TMR" "log" tmr_client 7)
    as (_ & _ & H3 & _ & _ & H6 & _).
  - reflexivity.
  - repeat split; try (vm_compute; discriminate).
  - reflexivity.
  - repeat split; try (vm_compute; discriminate).
  - reflexivity.
  - reflexivity.
  - reflexivity.
  - vm_compute. discriminate.
  - split; [exact H3|exact H6].
Defined.

Lemma client_pm_spec_witness :
  out (cmd_execute echo_func "ttys pm clear" pm_cmd)
  = [Printf ("Clearing performance measurements for ttys" +:+ nl)]
  /\ u16_mem (world (cmd_execute echo_func "ttys pm clear" pm_cmd)) !!! 102%nat = 0
  /\ u16_mem (world (cmd_execute echo_func "ttys pm clear" pm_cmd)) !!! 103%nat = 9
  /\ (world (cmd_execute echo_func "ttys pm" pm_cmd) = pm_cmd
      /\ out (cmd_execute echo_func "ttys pm" pm_cmd)
         = [Printf ("ttys:" +:+ nl);
            Printf ("  uart rx overrun errors: 5" +:+ nl);
            Printf ("  uart rx noise errors: 0" +:+ nl);
            Printf ("  uart rx frame errors: 7" +:+ nl)]).
Proof.
  destruct (client_pm_spec echo_func "ttys pm clear" pm_cmd
              ["ttys"; "pm"; "clear"]%string ttys_client)
    as (_ & _ & H1 & _ & _ & H4).
  - reflexivity.
  - repeat split; try (vm_compute; discriminate).
  - reflexivity.
  - simpl. lia.
  - split; [exact H1|]. split; [exact (H4 102%nat)|]. split; [exact (H4 103%nat)|].
    destruct (client_pm_spec echo_func "ttys pm" pm_cmd ["ttys"; "pm"]%string ttys_client)
      as (_ & _ & H).
    + reflexivity.
    + repeat split; try (vm_compute; discriminate).
    + reflexivity.
    + simpl. lia.
    + exact H.
Defined.

Lemma tokenize_cons c p' tokens :
  tokenize (String c p') tokens
  = if isspace c then tokenize p' tokens
    else if MAX_CMD_TOKENS <=? Z.of_nat (length tokens) then TooManyTokens
    else tokenize_scan tokens p' (String c EmptyString).
Proof. reflexivity. Qed.

Lemma tokenize_scan_cons tokens d q' tok :
  tokenize_scan tokens (String d q') tok
  = if isspace d then tokenize q' (tokens ++ [tok])
    else tokenize_scan tokens q' (tok +:+ String d EmptyString).
Proof. reflexivity. Qed.

Lemma append_cons x (a b : string) : String x a +:+ b = String x (a +:+ b).
Proof. reflexivity. Qed.

Lemma append_assoc (a b c : string) : (a +:+ b) +:+ c = a +:+ (b +:+ c).
Proof.
  induction a as [|x a IH]; [reflexivity|]. rewrite !append_cons, IH. reflexivity.
Qed.

Lemma append_nil_r (a : string) : a +:+ "" = a.
Proof.
  induction a as [|x a IH]; [reflexivity|]. rewrite append_cons, IH. reflexivity.
Qed.

Lemma no_space_app a b : no_space (a +:+ b) = no_space a && no_space b.
Proof.
  induction a as [|x a IH]; [reflexivity|].
  rewrite append_cons. cbn [no_space]. rewrite IH, andb_assoc. reflexivity.
Qed.

Lemma is_word_snoc tok d :
  is_word tok = true -> isspace d = false ->
  is_word (tok +:+ String d EmptyString) = true.
Proof.
  unfold is_word. intros H Hd. apply andb_true_iff in H as [H1 H2].
  rewrite no_space_app, H2. cbn. rewrite Hd. cbn.
  destruct tok; [discriminate H1|reflexivity].
Qed.

Lemma is_word_single c : isspace c = false -> is_word (String c EmptyString) = true.
Proof. intros H. unfold is_word. cbn. rewrite H. reflexivity. Qed.

Lemma is_word_inv t :
  is_word t = true ->
  exists c u, t = String c u /\ isspace c = false /\ no_space u = true.
Proof.
  unfold is_word. destruct t as [|c u]; [discriminate|]. cbn.
  destruct (isspace c) eqn:Hc; [discriminate|]. cbn. intros Hu.
  exists c, u. auto.
Qed.

(** What both loops of the tokenizer keep: tokens are only added, each new
    one is a word, and there are never more than ten. *)
Lemma tokenize_both p :
  (forall acc ts, tokenize p acc = Tokens ts ->
     exists new, ts = acc ++ new /\ Forall (fun t => is_word t = true) new
                 /\ (new = [] \/ Z.of_nat (length ts) <= MAX_CMD_TOKENS))
  /\ (forall acc tok ts,
        is_word tok = true -> Z.of_nat (length acc) < MAX_CMD_TOKENS ->
        tokenize_scan acc p tok = Tokens ts ->
        exists new, ts = acc ++ new /\ Forall (fun t => is_word t = true) new
                    /\ Z.of_nat (length ts) <= MAX_CMD_TOKENS).
Proof.
  induction p as [|c p [IHt IHs]]; split.
  - intros acc ts [= <-]. exists []. rewrite app_nil_r. auto.
  - intros acc tok ts Hw Hlen [= <-]. exists [tok]. repeat split; auto.
    rewrite length_app. cbn [length]. unfold MAX_CMD_TOKENS in *. lia.
  - intros acc ts. rewrite tokenize_cons.
    destruct (isspace c) eqn:Hc; [apply IHt|].
    destruct (Z.leb_spec MAX_CMD_TOKENS (Z.of_nat (length acc))); [discriminate|].
    intros Hs. apply IHs in Hs; [|apply is_word_single; exact Hc|assumption].
    destruct Hs as (new & -> & Hnew & Hlen). exists new. auto.
  - intros acc tok ts Hw Hlen. rewrite tokenize_scan_cons.
    destruct (isspace c) eqn:Hc.
    + intros Ht. apply IHt in Ht as (new & -> & Hnew & Hl).
      exists (tok :: new). rewrite <- app_assoc. repeat split; auto.
      destruct Hl as [->|Hl].
      * rewrite length_app. cbn [length app]. unfold MAX_CMD_TOKENS in *. lia.
      * rewrite <- app_assoc in Hl. exact Hl.
    + apply IHs; [|assumption]. apply is_word_snoc; assumption.
Qed.

(** the tokens of a line are words, at most ten of them. *)
Lemma tokenize_words p ts :
  tokenize p [] = Tokens ts ->
  Forall (fun t => is_word t = true) ts /\ Z.of_nat (length ts) <= MAX_CMD_TOKENS.
Proof.
  intros H. destruct (tokenize_both p) as [Ht _].
  apply Ht in H as (new & -> & Hnew & Hl). cbn [app]. split; [exact Hnew|].
  destruct Hl as [->|Hl]; [cbn; unfold MAX_CMD_TOKENS; lia|exact Hl].
Qed.

Lemma tokenize_skip g : forall p acc,
  all_space g = true -> tokenize (g +:+ p) acc = tokenize p acc.
Proof.
  induction g as [|c g IH]; intros p acc H; [reflexivity|].
  cbn in H. apply andb_true_iff in H as [Hc Hg].
  change (String c g +:+ p) with (String c (g +:+ p)).
  rewrite tokenize_cons, Hc. apply IH. exact Hg.
Qed.

Lemma tokenize_all_space g acc :
  all_space g = true -> tokenize g acc = Tokens acc.
Proof.
  intros H. rewrite <- (append_nil_r g). rewrite tokenize_skip by exact H.
  reflexivity.
Qed.

Lemma tokenize_scan_word acc u : forall q tok,
  no_space u = true ->
  tokenize_scan acc (u +:+ q) tok = tokenize_scan acc q (tok +:+ u).
Proof.
  induction u as [|d u IH]; intros q tok H.
  - rewrite append_nil_r. reflexivity.
  - cbn in H. apply andb_true_iff in H as [Hd Hu].
    change (String d u +:+ q) with (String d (u +:+ q)).
    rewrite tokenize_scan_cons. apply negb_true_iff in Hd. rewrite Hd.
    rewrite IH by exact Hu. rewrite append_assoc. reflexivity.
Qed.

Lemma tokenize_spaced_aux trail rest :
  all_space trail = true ->
  forall g0 t0 acc,
    all_space g0 = true -> is_word t0 = true ->
    Forall (fun gw => all_space gw.1 = true /\ is_word gw.2 = true) rest ->
    Forall (fun gw => gw.1 <> ""%string) rest ->
    tokenize (g0 +:+ t0 +:+ spaced rest +:+ trail) acc
    = if (Z.of_nat (length acc) + 1 + Z.of_nat (length rest) <=? MAX_CMD_TOKENS)
      then Tokens (acc ++ t0 :: map snd rest)
      else TooManyTokens.
Proof.
  intros Htrail. induction rest as [|[g1 t1] rest IH]; intros g0 t0 acc Hg0 Ht0 Hok Hgap.
  - rewrite tokenize_skip by exact Hg0.
    destruct (is_word_inv _ Ht0) as (c & u & -> & Hc & Hu).
    change (String c u +:+ spaced [] +:+ trail) with (String c (u +:+ trail)).
    rewrite tokenize_cons, Hc. cbn [length map]. unfold MAX_CMD_TOKENS.
    destruct (Z.leb_spec 10 (Z.of_nat (length acc)));
      destruct (Z.leb_spec (Z.of_nat (length acc) + 1 + Z.of_nat 0) 10);
      try lia; [reflexivity|].
    rewrite tokenize_scan_word by exact Hu.
    change (String c "" +:+ u) with (String c u).
    destruct trail as [|d trail]; [reflexivity|].
    cbn in Htrail. apply andb_true_iff in Htrail as [Hd Htr].
    rewrite tokenize_scan_cons, Hd. apply tokenize_all_space. exact Htr.
  - rewrite tokenize_skip by exact Hg0.
    destruct (is_word_inv _ Ht0) as (c & u & -> & Hc & Hu).
    apply Forall_cons in Hok as [[Hg1 Ht1] Hok].
    apply Forall_cons in Hgap as [Hne Hgap]. cbn [fst snd] in *.
    destruct g1 as [|d g1]; [congruence|].
    cbn in Hg1. apply andb_true_iff in Hg1 as [Hd Hg1].
    change (String c u +:+ spaced ((String d g1, t1) :: rest) +:+ trail)
      with (String c (u +:+ (String d g1 +:+ t1 +:+ spaced rest) +:+ trail)).
    rewrite tokenize_cons, Hc. cbn [length map snd]. unfold MAX_CMD_TOKENS.
    destruct (Z.leb_spec 10 (Z.of_nat (length acc))).
    { destruct (Z.leb_spec (Z.of_nat (length acc) + 1 + Z.of_nat (S (length rest))) 10);
        [lia|reflexivity]. }
    rewrite tokenize_scan_word by exact Hu.
    change (String c "" +:+ u) with (String c u).
    rewrite !append_assoc, (append_cons d), tokenize_scan_cons, Hd.
    rewrite (IH g1 t1 (acc ++ [String c u]) Hg1 Ht1 Hok Hgap).
    rewrite length_app. cbn [length]. unfold MAX_CMD_TOKENS.
    rewrite <- app_assoc. cbn [app].
    destruct (Z.leb_spec (Z.of_nat (length acc + 1) + 1 + Z.of_nat (length rest)) 10);
      destruct (Z.leb_spec (Z.of_nat (length acc) + 1 + Z.of_nat (S (length rest))) 10);
      try lia; reflexivity.
Qed.

(** X23.  The tokenizer of cmd_execute gives back the words of a line
    whatever the white space around them: for words (non-empty, free of
    white space) separated by non-empty runs of white space, with any white
    space before the first and after the last, it yields exactly these words
    in order when there are at most MAX_CMD_TOKENS, and reports too many
    tokens otherwise. *)
Theorem tokenize_spaced ws trail :
  well_spaced ws -> all_space trail = true ->
  tokenize (spaced ws +:+ trail) []
  = if Z.of_nat (length ws) <=? MAX_CMD_TOKENS then Tokens (map snd ws)
    else TooManyTokens.
Proof.
  intros [Hok Hgap] Htrail. destruct ws as [|[g0 t0] rest].
  - cbn [spaced String.app length map]. rewrite tokenize_all_space by exact Htrail.
    reflexivity.
  - apply Forall_cons in Hok as [[Hg0 Ht0] Hok]. cbn [tail fst snd] in *.
    cbn [spaced]. rewrite !append_assoc.
    rewrite (tokenize_spaced_aux trail rest Htrail g0 t0 [] Hg0 Ht0 Hok Hgap).
    cbn [length map snd app].
    replace (Z.of_nat 0 + 1 + Z.of_nat (length rest)) with (Z.of_nat (S (length rest)))
      by lia.
    reflexivity.
Qed.

Lemma tokenize_spaced_witness :
  tokenize "  tmr   status 1 " [] = Tokens ["tmr"; "status"; "1"]%string.
Proof.
  apply (tokenize_spaced [("  ", "tmr"); ("   ", "status"); (" ", "1")]%string " ").
  - split; repeat constructor; discriminate.
  - reflexivity.
Defined.

Lemma parse_ok_error argc vals fmt r text :
  r = MOD_ERR_BAD_CMD \/ r = MOD_ERR_ARG ->
  parse_ok argc vals fmt (parse_error r vals text).
Proof.
  intros Hr. unfold parse_ok, parse_error. cbn. split; [|split].
  - exists []. rewrite app_nil_r. auto.
  - intros _. split; [exact Hr|]. eauto.
  - unfold MOD_ERR_BAD_CMD, MOD_ERR_ARG in Hr. lia.
Qed.

Lemma parse_ok_done argc vals fmt arg_cnt :
  arg_cnt = Z.of_nat (length vals) -> arg_cnt = Z.max 0 argc ->
  parse_ok argc vals fmt (mk_parse_result arg_cnt vals []).
Proof.
  intros H1 H2. unfold parse_ok. cbn. split; [|split].
  - exists []. rewrite app_nil_r. auto.
  - lia.
  - auto.
Qed.

Lemma parse_ok_next argc vals c fmt v r :
  (Ascii.eqb c "[" || Ascii.eqb c "]") = false ->
  parse_ok argc (vals ++ [mk_cmd_arg_val c v]) fmt r ->
  parse_ok argc vals (String c fmt) r.
Proof.
  intros Hc ((more & Hv & Ht) & He & Hs). split; [|split]; auto.
  exists (mk_cmd_arg_val c v :: more). rewrite <- app_assoc in Hv.
  split; [exact Hv|]. cbn [fmt_letters]. rewrite Hc. cbn. rewrite Ht. reflexivity.
Qed.

Lemma parse_ok_bracket argc vals c fmt r :
  (Ascii.eqb c "[" || Ascii.eqb c "]") = true ->
  parse_ok argc vals fmt r -> parse_ok argc vals (String c fmt) r.
Proof.
  intros Hc H. unfold parse_ok. cbn [fmt_letters]. rewrite Hc. exact H.
Qed.

Lemma cmd_parse_args_loop_ok fmt : forall argc argv arg_cnt opt_args vals,
  arg_cnt = Z.of_nat (length vals) -> arg_cnt <= Z.max 0 argc ->
  parse_ok argc vals fmt (cmd_parse_args_loop fmt argc argv arg_cnt opt_args vals).
Proof.
  induction fmt as [|c fmt IH]; intros argc argv arg_cnt opt_args vals Hcnt Hle;
    cbn [cmd_parse_args_loop].
  - destruct (Z.ltb_spec arg_cnt argc).
    + apply parse_ok_error. auto.
    + apply parse_ok_done; [exact Hcnt|lia].
  - destruct (Ascii.eqb c "[") eqn:Hb1.
    { apply parse_ok_bracket; [rewrite Hb1; reflexivity|]. apply IH; assumption. }
    destruct (Ascii.eqb c "]") eqn:Hb2.
    { apply parse_ok_bracket; [rewrite Hb1, Hb2; reflexivity|]. apply IH; assumption. }
    assert (Hc : (Ascii.eqb c "[" || Ascii.eqb c "]") = false)
      by (rewrite Hb1, Hb2; reflexivity).
    destruct (Z.leb_spec argc arg_cnt).
    { destruct opt_args.
      - apply parse_ok_done; [exact Hcnt|lia].
      - apply parse_ok_error. auto. }
    assert (Hnext : forall argv' v,
               parse_ok argc vals (String c fmt)
                 (cmd_parse_args_loop fmt argc argv' (arg_cnt + 1) false
                    (vals ++ [mk_cmd_arg_val c v]))).
    { intros argv' v. apply (parse_ok_next _ _ _ _ v); [exact Hc|].
      apply IH; [rewrite length_app; cbn [length]; lia|lia]. }
    destruct argv as [|[|a arg] argv']; try (apply parse_ok_error; auto).
    destruct (Ascii.eqb c "i").
    { destruct (strtol _ 0) as [v endptr].
      destruct (negb (String.eqb endptr "")); [apply parse_ok_error; auto|apply Hnext]. }
    destruct (Ascii.eqb c "u").
    { destruct (strtoul _ 0) as [v endptr].
      destruct (negb (String.eqb endptr "")); [apply parse_ok_error; auto|apply Hnext]. }
    destruct (Ascii.eqb c "p").
    { destruct (strtoul _ 16) as [v endptr].
      destruct (negb (String.eqb endptr "")); [apply parse_ok_error; auto|apply Hnext]. }
    destruct (Ascii.eqb c "s"); [apply Hnext|apply parse_ok_error; auto].
Qed.

(** X24.  cmd_parse_args either succeeds, printing nothing and returning the
    number of entries it wrote, which is then argc (0 for a negative argc),
    or prints exactly one diagnostic and returns MOD_ERR_BAD_CMD or
    MOD_ERR_ARG; in both cases the type letters of the entries written are
    the letters of the format in order, brackets left out. *)
Theorem cmd_parse_args_result argc argv fmt :
  let r := cmd_parse_args argc argv fmt in
  map type (arg_vals r) = take (length (arg_vals r)) (fmt_letters fmt)
  /\ (parse_rc r < 0 ->
      (parse_rc r = MOD_ERR_BAD_CMD \/ parse_rc r = MOD_ERR_ARG)
      /\ exists text, parse_out r = [Printf text])
  /\ (0 <= parse_rc r ->
      parse_out r = []
      /\ parse_rc r = Z.of_nat (length (arg_vals r))
      /\ parse_rc r = Z.max 0 argc).
Proof.
  intros r. subst r. unfold cmd_parse_args.
  destruct (cmd_parse_args_loop_ok fmt argc argv 0 false [])
    as ((more & Hv & Ht) & He & Hs); [reflexivity|lia|].
  cbn [app] in Hv. rewrite Hv in *. auto.
Qed.

Lemma cmd_parse_args_result_witness :
  (parse_out (cmd_parse_args 2 ["12"; "0x1F"]%string "u[u]") = []
   /\ parse_rc (cmd_parse_args 2 ["12"; "0x1F"]%string "u[u]") = 2)
  /\ (parse_rc (cmd_parse_args 1 ["1x"]%string "u") = MOD_ERR_BAD_CMD
      \/ parse_rc (cmd_parse_args 1 ["1x"]%string "u") = MOD_ERR_ARG).
Proof.
  split.
  - destruct (cmd_parse_args_result 2 ["12"; "0x1F"]%string "u[u]") as (_ & _ & H).
    destruct (H ltac:(vm_compute; discriminate)) as (H1 & _ & H3).
    split; [exact H1|exact H3].
  - destruct (cmd_parse_args_result 1 ["1x"]%string "u") as (_ & H & _).
    exact (proj1 (H ltac:(vm_compute; reflexivity))).
Defined.

End CmdExtProofs.

Module StatProofs.
Import Tmr TmrProofs TmrExt TmrExtProofs Stat.

Lemma u32_range z : 0 <= u32 z <= UINT32_MAX.
Proof.
  unfold u32, UINT32_MAX. pose proof (Z.mod_pos_bound z (2 ^ 32) ltac:(lia)). lia.
Qed.

Lemma record_dur_ok dur stat :
  0 <= dur <= UINT32_MAX -> stat_ok stat -> samples stat <> UINT32_MAX ->
  record_dur dur stat
  = mk_stat_dur (accum_ms stat + dur) (start_ms stat)
      (Z.min dur (min stat)) (Z.max (max stat) dur) (samples stat + 1) (started stat)
  /\ stat_ok (record_dur dur stat).
Proof.
  intros Hdur (Hs & Hmin & Hmax & Hst & Hacc) Hne. unfold UINT32_MAX in *.
  assert (Heq : record_dur dur stat
                = mk_stat_dur (accum_ms stat + dur) (start_ms stat)
                    (Z.min dur (min stat)) (Z.max (max stat) dur) (samples stat + 1)
                    (started stat)).
  { unfold record_dur, u64, u32. f_equal.
    - apply Z.mod_small. nia.
    - destruct (Z.ltb_spec dur (min stat)); lia.
    - destruct (Z.ltb_spec (max stat) dur); lia.
    - apply Z.mod_small. lia. }
  split; [exact Heq|]. rewrite Heq. unfold stat_ok, UINT32_MAX. cbn.
  repeat split; try lia; nia.
Qed.

Lemma stat_dur_end_ok m stat :
  stat_ok stat -> stat_ok (stat_dur_end m stat).
Proof.
  intros Hok. unfold stat_dur_end.
  destruct (Z.eqb_spec (samples stat) UINT32_MAX) as [|Hne]; [exact Hok|].
  destruct (started stat) eqn:Hstarted; cbn [negb orb]; [|exact Hok].
  apply record_dur_ok; [apply u32_range| |exact Hne].
  destruct Hok as (Hs & Hmin & Hmax & Hst & Hacc). unfold stat_ok. cbn. auto.
Qed.

Lemma stat_dur_restart_ok m stat :
  0 <= tick_ms_ctr m < 2 ^ 32 ->
  stat_ok stat -> stat_ok (stat_dur_restart m stat).
Proof.
  intros Hm Hok. unfold stat_dur_restart.
  destruct (Z.eqb_spec (samples stat) UINT32_MAX) as [|Hne]; [exact Hok|].
  assert (Hrec : stat_ok (if started stat
                          then record_dur (u32 (tmr_get_ms m - start_ms stat)) stat
                          else stat)).
  { destruct (started stat); [|exact Hok].
    apply record_dur_ok; [apply u32_range|exact Hok|exact Hne]. }
  destruct Hrec as (Hs & Hmin & Hmax & Hst & Hacc).
  unfold stat_ok, tmr_get_ms, UINT32_MAX in *. cbn. repeat split; try lia.
Qed.

(** X25.  The fields of a duration statistic stay consistent under
    stat_dur_init, stat_dur_start, stat_dur_end and stat_dur_restart: all
    32-bit fields stay in range and samples*min <= accum_ms <= samples*max,
    so the sample counter never wraps and the 64-bit sum stays below 2^64. *)
Theorem stat_ok_preserved (m : tmr_mod) (stat : stat_dur) :
  0 <= tick_ms_ctr m < 2 ^ 32 ->
  stat_ok stat ->
  stat_ok stat_dur_init
  /\ stat_ok (stat_dur_start m stat)
  /\ stat_ok (stat_dur_end m stat)
  /\ stat_ok (stat_dur_restart m stat)
  /\ accum_ms (stat_dur_end m stat) < 2 ^ 64
  /\ accum_ms (stat_dur_restart m stat) < 2 ^ 64.
Proof.
  intros Hm Hok.
  assert (Hlt : forall s, stat_ok s -> accum_ms s < 2 ^ 64).
  { intros s (Hs & Hmin & Hmax & Hst & Hacc). unfold UINT32_MAX in *. nia. }
  pose proof (stat_dur_end_ok m stat Hok).
  pose proof (stat_dur_restart_ok m stat Hm Hok).
  split; [|split; [|split; [|split; [|split]]]]; auto.
  - unfold stat_ok, stat_dur_init, UINT32_MAX. cbn. lia.
  - destruct Hok as (Hs & Hmin & Hmax & Hst & Hacc).
    unfold stat_ok, stat_dur_start, tmr_get_ms, UINT32_MAX in *. cbn. lia.
Qed.

Lemma stat_ok_preserved_witness :
  stat_ok (stat_dur_restart busy_pool loop_stat)
  /\ accum_ms (stat_dur_restart busy_pool loop_stat) < 2 ^ 64.
Proof.
  destruct (stat_ok_preserved busy_pool loop_stat) as (_ & _ & _ & H4 & _ & H6).
  - simpl. lia.
  - unfold stat_ok, UINT32_MAX. simpl. lia.
  - split; [exact H4|exact H6].
Defined.

Lemma foldr_min_comm e a l : foldr Z.min (Z.min e a) l = Z.min e (foldr Z.min a l).
Proof. induction l as [|x l IH]; cbn [foldr]; [reflexivity|]. rewrite IH. lia. Qed.

Lemma foldr_max_comm e a l : foldr Z.max (Z.max a e) l = Z.max e (foldr Z.max a l).
Proof. induction l as [|x l IH]; cbn [foldr]; [lia|]. rewrite IH. lia. Qed.

(** X26.  For a consistent statistic with at least one sample and a maximum
    below 2^32/1000 ms, the result of stat_dur_avg_us lies between 1000*min
    and 1000*max. *)
Theorem stat_dur_avg_us_bounds (stat : stat_dur) :
  stat_ok stat -> 0 < samples stat -> 1000 * max stat < 2 ^ 32 ->
  1000 * min stat <= stat_dur_avg_us stat <= 1000 * max stat.
Proof.
  intros (Hs & Hmin & Hmax & Hst & Hacc) Hpos Hnow.
  unfold stat_dur_avg_us, u64, u32, UINT32_MAX in *.
  destruct (Z.eqb_spec (samples stat) 0); [lia|].
  rewrite (Z.mod_small (accum_ms stat * 1000)) by nia.
  assert (Hlo : 1000 * min stat <= accum_ms stat * 1000 / samples stat).
  { apply Z.div_le_lower_bound; [lia|nia]. }
  assert (Hhi : accum_ms stat * 1000 / samples stat <= 1000 * max stat).
  { apply Z.div_le_upper_bound; [lia|nia]. }
  rewrite Z.mod_small by lia. lia.
Qed.

Lemma stat_dur_avg_us_bounds_witness :
  1000 * 5 <= stat_dur_avg_us loop_stat <= 1000 * 20.
Proof.
  apply (stat_dur_avg_us_bounds loop_stat).
  - unfold stat_ok, UINT32_MAX. simpl. lia.
  - simpl. lia.
  - simpl. lia.
Defined.

Lemma stat_dur_restart_started m stat e :
  0 <= tick_ms_ctr m < 2 ^ 32 -> (Z.of_nat e < 2 ^ 32) ->
  stat_ok stat -> started stat = true -> start_ms stat = tmr_get_ms m ->
  samples stat <> UINT32_MAX ->
  stat_dur_restart (ticks e m) stat
  = mk_stat_dur (accum_ms stat + Z.of_nat e) (tmr_get_ms (ticks e m))
      (Z.min (Z.of_nat e) (min stat)) (Z.max (max stat) (Z.of_nat e))
      (samples stat + 1) true.
Proof.
  intros Hm He Hok Hstarted Hstart Hne. unfold stat_dur_restart.
  destruct (Z.eqb_spec (samples stat) UINT32_MAX); [contradiction|].
  rewrite Hstarted, Hstart. rewrite ticks_clock by exact Hm.
  unfold tmr_get_ms. cbn [tick_ms_ctr set_tick_ms_ctr].
  rewrite u32_elapsed by lia.
  destruct (record_dur_ok (Z.of_nat e) stat) as [-> _];
    [unfold UINT32_MAX; lia|exact Hok|exact Hne|].
  reflexivity.
Qed.

(** X27.  Calling stat_dur_restart once per loop iteration on a started
    statistic loses no time: when e_i tick interrupts (each e_i < 2^32)
    precede the i-th call and the sample counter has room, the samples
    recorded are exactly e_1, ..., e_n, also across a wrap of the 32-bit
    clock: samples grows by n, accum_ms by their sum, min and max are
    updated with them, and the statistic stays started at the current clock
    value. *)
Theorem stat_dur_restart_no_time_lost (es : list nat) : forall m stat,
  0 <= tick_ms_ctr m < 2 ^ 32 ->
  Forall (fun e => Z.of_nat e < 2 ^ 32) es ->
  stat_ok stat -> started stat = true -> start_ms stat = tmr_get_ms m ->
  samples stat + Z.of_nat (length es) <= UINT32_MAX ->
  let stat' := restart_loop es m stat in
  samples stat' = samples stat + Z.of_nat (length es)
  /\ accum_ms stat' = accum_ms stat + foldr Z.add 0 (Z.of_nat <$> es)
  /\ min stat' = foldr Z.min (min stat) (Z.of_nat <$> es)
  /\ max stat' = foldr Z.max (max stat) (Z.of_nat <$> es)
  /\ started stat' = true
  /\ start_ms stat' = u32 (tick_ms_ctr m + foldr Z.add 0 (Z.of_nat <$> es)).
Proof.
  induction es as [|e es IH]; intros m stat Hm Hes Hok Hstarted Hstart Hroom.
  - cbn. rewrite !Z.add_0_r. repeat split; auto.
    rewrite Hstart. unfold tmr_get_ms, u32. rewrite Z.mod_small; [reflexivity|lia].
  - apply Forall_cons in Hes as [He Hes]. cbn [length] in Hroom.
    assert (Hne : samples stat <> UINT32_MAX) by lia.
    cbn [restart_loop]. cbv zeta.
    pose proof (stat_dur_restart_started m stat e Hm He Hok Hstarted Hstart Hne) as Hr.
    assert (Hm' : 0 <= tick_ms_ctr (ticks e m) < 2 ^ 32).
    { rewrite ticks_clock by exact Hm. cbn. unfold u32. apply Z.mod_pos_bound. lia. }
    pose proof (stat_dur_restart_ok (ticks e m) stat Hm' Hok) as Hok'.
    rewrite Hr in *.
    destruct (IH (ticks e m) _ Hm' Hes Hok' eq_refl eq_refl) as (H1 & H2 & H3 & H4 & H5 & H6).
    { cbn. lia. }
    cbn [samples accum_ms min max started start_ms] in *.
    rewrite H1, H2, H3, H4, H5, H6. rewrite fmap_cons. cbn [foldr length].
    rewrite foldr_min_comm, foldr_max_comm.
    repeat split; try lia.
    rewrite ticks_clock by exact Hm. cbn [tick_ms_ctr set_tick_ms_ctr].
    rewrite u32_add_l. f_equal. lia.
Qed.

Lemma stat_dur_restart_no_time_lost_witness :
  samples (restart_loop [3; 0; 12]%nat busy_pool loop_stat) = 6
  /\ accum_ms (restart_loop [3; 0; 12]%nat busy_pool loop_stat) = 45
  /\ min (restart_loop [3; 0; 12]%nat busy_pool loop_stat) = 0
  /\ max (restart_loop [3; 0; 12]%nat busy_pool loop_stat) = 20.
Proof.
  destruct (stat_dur_restart_no_time_lost [3; 0; 12]%nat busy_pool loop_stat)
    as (H1 & H2 & H3 & H4 & _).
  - simpl. lia.
  - repeat constructor.
  - unfold stat_ok, UINT32_MAX. simpl. lia.
  - reflexivity.
  - reflexivity.
  - unfold UINT32_MAX. simpl. lia.
  - split; [exact H1|]. split; [exact H2|]. split; [exact H3|exact H4].
Defined.

End StatProofs.

Module ConsoleProofs.
Import Libc Cmd Console.

Lemma char_code_char_of c : 0 <= c < 256 -> char_code (char_of c) = c.
Proof.
  intros Hc. unfold char_code, char_of. rewrite N_ascii_embedding by lia. lia.
Qed.

Lemma length_tokenize_bfr p :
  (forall n, length (tokenize_bfr p n) = length p)
  /\ (forall n, length (tokenize_bfr_scan n p) = length p).
Proof.
  induction p as [|c p [IHt IHs]]; [split; reflexivity|]. split; intros n.
  - change (tokenize_bfr (c :: p) n)
      with (if char_code c =? 0 then c :: p
            else if isspace c then c :: tokenize_bfr p n
            else if MAX_CMD_TOKENS <=? n then c :: p
            else c :: tokenize_bfr_scan n p).
    destruct (char_code c =? 0); [reflexivity|].
    destruct (isspace c); [cbn [length]; rewrite IHt; reflexivity|].
    destruct (MAX_CMD_TOKENS <=? n); [reflexivity|].
    cbn [length]. rewrite IHs. reflexivity.
  - change (tokenize_bfr_scan n (c :: p))
      with (if char_code c =? 0 then c :: p
            else if isspace c then NUL :: tokenize_bfr p (n + 1)
            else c :: tokenize_bfr_scan n p).
    destruct (char_code c =? 0); [reflexivity|].
    destruct (isspace c); cbn [length]; [rewrite IHt|rewrite IHs]; reflexivity.
Qed.

Lemma c_str_printable pre rest :
  Forall (fun a => isprint (char_code a) = true) pre ->
  c_str (string_of_list_ascii (pre ++ NUL :: rest)) = string_of_list_ascii pre.
Proof.
  induction 1 as [|a pre Ha _ IH]; cbn [app string_of_list_ascii c_str].
  - reflexivity.
  - unfold isprint in Ha. destruct (Z.eqb_spec (char_code a) 0) as [H0|_].
    + rewrite H0 in Ha. discriminate Ha.
    + rewrite IH. reflexivity.
Qed.

Lemma c_str_printable_id pre :
  Forall (fun a => isprint (char_code a) = true) pre ->
  c_str (string_of_list_ascii pre) = string_of_list_ascii pre.
Proof.
  induction 1 as [|a pre Ha _ IH]; cbn [string_of_list_ascii c_str]; [reflexivity|].
  unfold isprint in Ha. destruct (Z.eqb_spec (char_code a) 0) as [H0|_].
  - rewrite H0 in Ha. discriminate Ha.
  - rewrite IH. reflexivity.
Qed.

Lemma cmd_execute_c_str func_run s1 s2 w :
  c_str s1 = c_str s2 -> cmd_execute func_run s1 w = cmd_execute func_run s2 w.
Proof. intros H. unfold cmd_execute. rewrite H. reflexivity. Qed.

Lemma cmd_execute_line func_run st w :
  console_ok st ->
  cmd_execute func_run
    (string_of_list_ascii (<[Z.to_nat (num_cmd_bfr_chars st) := NUL]> (cmd_bfr st))) w
  = cmd_execute func_run (string_of_list_ascii (line st)) w.
Proof.
  intros (Hlen & Hnum & Hpr). apply cmd_execute_c_str.
  unfold CONSOLE_CMD_BFR_SIZE in *.
  rewrite insert_take_drop by lia. fold (line st).
  rewrite c_str_printable, c_str_printable_id by exact Hpr. reflexivity.
Qed.

Section Run.

Variable func_run : nat -> Z -> list string -> cmd_mod -> Z * cmd_mod * list console_out.

Lemma console_char_line_end c k :
  (c =? 10) || (c =? 13) = true ->
  console_ok (state k) ->
  let k' := console_char func_run c k in
  let r := cmd_execute func_run (string_of_list_ascii (line (state k))) (cmds k) in
  console_ok (state k') /\ line (state k') = []
  /\ ttys_instance_id (state k') = ttys_instance_id (state k)
  /\ first_run_done (state k') = first_run_done (state k)
  /\ cmds k' = world r
  /\ printed k' = printed k ++ Printf nl :: out r ++ [Printf PROMPT]
  /\ called k' = called k ++ calls r.
Proof.
  intros Hc Hok k' r. subst k' r. unfold console_char. rewrite Hc.
  cbn [state cmds printed called printf set_num_cmd_bfr_chars set_cmd_bfr
       ttys_instance_id first_run_done].
  rewrite (cmd_execute_line _ _ _ Hok).
  destruct Hok as (Hlen & Hnum & Hpr).
  repeat split.
  - cbn. destruct (length_tokenize_bfr
                     (<[Z.to_nat (num_cmd_bfr_chars (state k)) := NUL]> (cmd_bfr (state k))))
      as [-> _]. rewrite length_insert. exact Hlen.
  - cbn. unfold CONSOLE_CMD_BFR_SIZE. lia.
  - cbn. unfold CONSOLE_CMD_BFR_SIZE. lia.
  - unfold line. cbn. constructor.
  - rewrite <- !app_assoc. reflexivity.
Qed.

Lemma console_char_edit c k :
  (c =? 10) || (c =? 13) = false ->
  console_ok (state k) ->
  let k' := console_char func_run c k in
  console_ok (state k') /\ line (state k') = edit c (line (state k))
  /\ ttys_instance_id (state k') = ttys_instance_id (state k)
  /\ first_run_done (state k') = first_run_done (state k)
  /\ called k' = called k
  /\ cmds k' = (if c =? LOG_TOGGLE_CHAR then log_toggle_active (cmds k) else cmds k).
Proof.
  intros Hc Hok k'. subst k'. unfold console_char, edit. rewrite Hc.
  destruct Hok as (Hlen & Hnum & Hpr). unfold CONSOLE_CMD_BFR_SIZE in *.
  assert (Hll : Z.of_nat (length (line (state k))) = num_cmd_bfr_chars (state k)).
  { unfold line. rewrite length_take. lia. }
  destruct ((c =? 8) || (c =? 127)) eqn:Hbs.
  { assert (Htog : (c =? LOG_TOGGLE_CHAR) = false).
    { unfold LOG_TOGGLE_CHAR. apply orb_true_iff in Hbs as [H|H];
        apply Z.eqb_eq in H; subst c; reflexivity. }
    rewrite Htog.
    destruct (Z.ltb_spec 0 (num_cmd_bfr_chars (state k))) as [Hpos|Hz].
    - cbn [state cmds printed called printf set_console_state set_num_cmd_bfr_chars
           ttys_instance_id first_run_done].
      assert (Hu : u16 (num_cmd_bfr_chars (state k) - 1) = num_cmd_bfr_chars (state k) - 1).
      { unfold u16. apply Z.mod_small. lia. }
      assert (Hline : line (set_num_cmd_bfr_chars (u16 (num_cmd_bfr_chars (state k) - 1))
                              (state k))
                      = removelast (line (state k))).
      { unfold line. cbn. rewrite Hu.
        replace (Z.to_nat (num_cmd_bfr_chars (state k)))
          with (S (Z.to_nat (num_cmd_bfr_chars (state k) - 1))) by lia.
        rewrite removelast_firstn by lia. reflexivity. }
      repeat split; auto.
      + cbn. rewrite Hu. unfold CONSOLE_CMD_BFR_SIZE. lia.
      + cbn. rewrite Hu. unfold CONSOLE_CMD_BFR_SIZE. lia.
      + rewrite Hline.
        destruct (line (state k)) as [|a l] eqn:Hl using rev_ind;
          [constructor|].
        rewrite removelast_last. apply Forall_app in Hpr as [Hpr _]. exact Hpr.
    - assert (Hl0 : line (state k) = []).
      { apply length_zero_iff_nil. lia. }
      rewrite Hl0. cbn [removelast].
      repeat split; auto; try (unfold CONSOLE_CMD_BFR_SIZE; lia). }
  destruct (c =? LOG_TOGGLE_CHAR) eqn:Htog.
  { cbn. repeat split; auto; try (unfold CONSOLE_CMD_BFR_SIZE; lia);
      try (destruct (_log_active (cmds k)); reflexivity). }
  destruct (isprint c) eqn:Hprint; [|repeat split; auto; unfold CONSOLE_CMD_BFR_SIZE; lia].
  rewrite Hll.
  destruct (Z.ltb_spec (num_cmd_bfr_chars (state k)) (80 - 1)) as [Hroom|Hfull].
  - cbn [state cmds printed called printf set_console_state set_num_cmd_bfr_chars
         set_cmd_bfr ttys_instance_id first_run_done].
    assert (Hu : u16 (num_cmd_bfr_chars (state k) + 1) = num_cmd_bfr_chars (state k) + 1).
    { unfold u16. apply Z.mod_small. lia. }
    set (n := Z.to_nat (num_cmd_bfr_chars (state k))).
    assert (Hline : line (set_num_cmd_bfr_chars (u16 (num_cmd_bfr_chars (state k) + 1))
                            (set_cmd_bfr (<[n := char_of c]> (cmd_bfr (state k))) (state k)))
                    = line (state k) ++ [char_of c]).
    { unfold line. cbn. rewrite Hu.
      replace (Z.to_nat (num_cmd_bfr_chars (state k) + 1)) with (S n) by lia.
      rewrite (take_S_r _ _ (char_of c)).
      - rewrite take_insert_ge by lia. reflexivity.
      - apply list_lookup_insert_eq. lia. }
    repeat split; auto.
    + cbn. rewrite length_insert. exact Hlen.
    + cbn. rewrite Hu. lia.
    + cbn. rewrite Hu. unfold CONSOLE_CMD_BFR_SIZE. lia.
    + rewrite Hline. apply Forall_app. split; [exact Hpr|].
      constructor; [|constructor]. rewrite char_code_char_of; [exact Hprint|].
      unfold isprint in Hprint. lia.
  - cbn. repeat split; auto; unfold CONSOLE_CMD_BFR_SIZE; lia.
Qed.

Lemma console_char_ok c k :
  console_ok (state k) -> console_ok (state (console_char func_run c k)).
Proof.
  intros Hok. destruct ((c =? 10) || (c =? 13)) eqn:Hc.
  - apply (console_char_line_end c k Hc Hok).
  - apply (console_char_edit c k Hc Hok).
Qed.

Lemma console_chars_ok cs : forall k,
  console_ok (state k) -> console_ok (state (console_chars func_run cs k)).
Proof.
  induction cs as [|c cs IH]; intros k Hok; [exact Hok|].
  unfold console_chars in *. cbn [foldl]. apply IH, console_char_ok, Hok.
Qed.

Lemma console_run_loop_results cs rest : forall c0 k,
  console_run_loop func_run (((fun c => (1, Some c)) <$> cs) ++ (0, None) :: rest) c0 k
  = Some (console_chars func_run cs k).
Proof.
  induction cs as [|x cs IH]; intros c0 k; [reflexivity|].
  rewrite fmap_cons. cbn [app console_run_loop].
  change (1 =? 0) with false. cbv iota.
  change (default c0 (Some x)) with x.
  rewrite IH. reflexivity.
Qed.

(** X29.  The array cmd_bfr and the count num_cmd_bfr_chars of console_run
    implement a line editor and never leave the array: a printable character
    is appended while fewer than 79 are held, backspace and delete remove
    the last one, the log toggle character only toggles logging, other
    characters are ignored, and a line end passes exactly the line typed so
    far to cmd_execute, prints a new line, its output and the prompt, and
    empties the line (what the tokenizer overwrote in place is not part of a
    later line).  The port number and the first run flag are never
    changed. *)
Theorem console_char_edits_line c k :
  console_ok (state k) ->
  let k' := console_char func_run c k in
  console_ok (state k')
  /\ ttys_instance_id (state k') = ttys_instance_id (state k)
  /\ first_run_done (state k') = first_run_done (state k)
  /\ if (c =? 10) || (c =? 13) then
       let r := cmd_execute func_run (string_of_list_ascii (line (state k))) (cmds k) in
       line (state k') = [] /\ cmds k' = world r
       /\ printed k' = printed k ++ Printf nl :: out r ++ [Printf PROMPT]
       /\ called k' = called k ++ calls r
     else
       line (state k') = edit c (line (state k)) /\ called k' = called k
       /\ cmds k' = (if c =? LOG_TOGGLE_CHAR then log_toggle_active (cmds k) else cmds k).
Proof.
  intros Hok k'. subst k'. destruct ((c =? 10) || (c =? 13)) eqn:Hc.
  - destruct (console_char_line_end c k Hc Hok)
      as (H1 & H2 & H3 & H4 & H5 & H6 & H7). auto 10.
  - destruct (console_char_edit c k Hc Hok) as (H1 & H2 & H3 & H4 & H5 & H6).
    auto 10.
Qed.

Lemma console_char_echo c k :
  isprint c = true ->
  num_cmd_bfr_chars (state k) < CONSOLE_CMD_BFR_SIZE - 1 ->
  printed (console_char func_run c k)
  = printed k ++ [Printf (String (char_of c) EmptyString)].
Proof.
  intros Hp Hroom. unfold isprint in Hp. unfold console_char, LOG_TOGGLE_CHAR.
  destruct (Z.eqb_spec c 10); [lia|]. destruct (Z.eqb_spec c 13); [lia|].
  destruct (Z.eqb_spec c 8); [lia|]. destruct (Z.eqb_spec c 127); [lia|].
  destruct (Z.eqb_spec c 12); [lia|]. cbn [orb].
  unfold isprint. rewrite Hp.
  destruct (Z.ltb_spec (num_cmd_bfr_chars (state k)) (CONSOLE_CMD_BFR_SIZE - 1)); [|lia].
  reflexivity.
Qed.

Lemma console_chars_typed s : forall k,
  console_ok (state k) ->
  Forall (fun c => isprint c = true) s ->
  num_cmd_bfr_chars (state k) + Z.of_nat (length s) <= CONSOLE_CMD_BFR_SIZE - 1 ->
  let k' := console_chars func_run s k in
  console_ok (state k')
  /\ line (state k') = line (state k) ++ (char_of <$> s)
  /\ cmds k' = cmds k /\ called k' = called k
  /\ printed k'
     = printed k ++ ((fun c => Printf (String (char_of c) EmptyString)) <$> s)
  /\ first_run_done (state k') = first_run_done (state k).
Proof.
  induction s as [|c s IH]; intros k Hok Hs Hroom.
  - cbn. rewrite !app_nil_r. auto 10.
  - apply Forall_cons in Hs as [Hc Hs]. cbn [length] in Hroom.
    assert (Hll : Z.of_nat (length (line (state k))) = num_cmd_bfr_chars (state k)).
    { destruct Hok as (Hlen & Hnum & _). unfold line, CONSOLE_CMD_BFR_SIZE in *.
      rewrite length_take. lia. }
    assert (Hne : (c =? 10) || (c =? 13) = false).
    { unfold isprint in Hc. destruct (Z.eqb_spec c 10); [lia|].
      destruct (Z.eqb_spec c 13); [lia|]. reflexivity. }
    destruct (console_char_edit c k Hne Hok) as (Hok1 & Hl1 & _ & Hf1 & Hcal1 & Hcmd1).
    pose proof (console_char_echo c k Hc ltac:(lia)) as Hpr1.
    assert (Hed : edit c (line (state k)) = line (state k) ++ [char_of c]).
    { unfold edit, LOG_TOGGLE_CHAR. unfold isprint in Hc.
      destruct (Z.eqb_spec c 8); [lia|]. destruct (Z.eqb_spec c 127); [lia|].
      destruct (Z.eqb_spec c 12); [lia|]. cbn [orb]. unfold isprint. rewrite Hc.
      rewrite Hll.
      destruct (Z.ltb_spec (num_cmd_bfr_chars (state k)) (CONSOLE_CMD_BFR_SIZE - 1));
        [reflexivity|lia]. }
    assert (Htog : (c =? LOG_TOGGLE_CHAR) = false).
    { unfold isprint in Hc. unfold LOG_TOGGLE_CHAR. destruct (Z.eqb_spec c 12); [lia|].
      reflexivity. }
    rewrite Htog in Hcmd1. rewrite Hed in Hl1.
    assert (Hn1 : num_cmd_bfr_chars (state (console_char func_run c k))
                  = num_cmd_bfr_chars (state k) + 1).
    { assert (Hlen1 : Z.of_nat (length (line (state (console_char func_run c k))))
                      = num_cmd_bfr_chars (state (console_char func_run c k))).
      { destruct Hok1 as (Hlen & Hnum & _). unfold line, CONSOLE_CMD_BFR_SIZE in *.
        rewrite length_take. lia. }
      rewrite Hl1, length_app in Hlen1. cbn [length] in Hlen1. lia. }
    destruct (IH (console_char func_run c k) Hok1 Hs ltac:(lia))
      as (H1 & H2 & H3 & H4 & H5 & H6).
    unfold console_chars in *. cbn [foldl]. rewrite fmap_cons.
    rewrite H2, H3, H4, H5, H6, Hl1, Hcmd1, Hcal1, Hpr1, Hf1, <- !app_assoc. auto 10.
Qed.

Lemma console_chars_line s e k :
  console_ok (state k) ->
  num_cmd_bfr_chars (state k) = 0 ->
  Forall (fun c => isprint c = true) s ->
  Z.of_nat (length s) <= CONSOLE_CMD_BFR_SIZE - 1 ->
  (e =? 10) || (e =? 13) = true ->
  let k' := console_chars func_run (s ++ [e]) k in
  let r := cmd_execute func_run (string_of_list_ascii (char_of <$> s)) (cmds k) in
  cmds k' = world r
  /\ printed k'
     = printed k ++ ((fun c => Printf (String (char_of c) EmptyString)) <$> s)
       ++ Printf nl :: out r ++ [Printf PROMPT]
  /\ called k' = called k ++ calls r
  /\ num_cmd_bfr_chars (state k') = 0
  /\ first_run_done (state k') = first_run_done (state k)
  /\ console_ok (state k').
Proof.
  intros Hok Hnum Hs Hlen He k' r. subst k' r.
  unfold console_chars. rewrite foldl_app. cbn [foldl]. fold (console_chars func_run s k).
  destruct (console_chars_typed s k Hok Hs ltac:(lia))
    as (Hok1 & Hl1 & Hc1 & Hcal1 & Hp1 & Hf1).
  destruct (console_char_line_end e (console_chars func_run s k) He Hok1)
    as (Hok2 & Hl2 & _ & Hf2 & Hc2 & Hp2 & Hcal2).
  assert (Hl0 : line (state k) = []).
  { unfold line. rewrite Hnum. reflexivity. }
  rewrite Hl1, Hl0, Hc1 in *. cbn [app] in *.
  rewrite Hc2, Hp2, Hcal2, Hp1, Hcal1, Hf2, Hf1, <- !app_assoc.
  repeat split; auto; try apply Hok2.
  destruct Hok2 as (Hlen2 & Hnum2 & _). unfold line, CONSOLE_CMD_BFR_SIZE in *.
  apply (f_equal length) in Hl2. rewrite length_take in Hl2. cbn [length] in Hl2. lia.
Qed.

(** X30.  With an empty line buffer, when the calls of ttys_getc deliver a
    printable line of at most 79 characters, then a carriage return or line
    feed, and then report no character, one console_run returns 0, having
    printed the prompt if this is the first run, echoed each character,
    printed a new line, executed the line with cmd_execute (its effects,
    output and handler calls are those of cmd_execute on that line) and
    printed the prompt; afterwards the line buffer is empty and the first
    run is recorded as done. *)
Theorem console_line_executes c0 k s e :
  console_ok (state k) ->
  num_cmd_bfr_chars (state k) = 0 ->
  Forall (fun c => isprint c = true) s ->
  Z.of_nat (length s) <= CONSOLE_CMD_BFR_SIZE - 1 ->
  (e =? 10) || (e =? 13) = true ->
  exists k',
    console_run func_run (getc_results (s ++ [e])) c0 k = Some (0, k')
    /\ let r := cmd_execute func_run (string_of_list_ascii (char_of <$> s)) (cmds k) in
       cmds k' = world r
       /\ printed k'
          = printed k ++ (if first_run_done (state k) then [] else [Printf PROMPT])
            ++ ((fun c => Printf (String (char_of c) EmptyString)) <$> s)
            ++ Printf nl :: out r ++ [Printf PROMPT]
       /\ called k' = called k ++ calls r
       /\ num_cmd_bfr_chars (state k') = 0
       /\ first_run_done (state k') = true
       /\ console_ok (state k').
Proof.
  intros Hok Hnum Hs Hlen He.
  unfold console_run, getc_results.
  rewrite console_run_loop_results.
  eexists. split; [reflexivity|].
  destruct (first_run_done (state k)) eqn:Hfirst.
  - destruct (console_chars_line s e k Hok Hnum Hs Hlen He)
      as (H1 & H2 & H3 & H4 & H5 & H6).
    rewrite Hfirst in H5. cbn [app]. auto 10.
  - set (k1 := printf PROMPT (set_console_state (set_first_run_done true (state k)) k)).
    destruct (console_chars_line s e k1) as (H1 & H2 & H3 & H4 & H5 & H6);
      try assumption.
    rewrite H1, H2, H3. subst k1. cbn [printf set_console_state cmds printed called].
    rewrite <- !app_assoc. auto 10.
Qed.

End Run.

Lemma console_ok_typing : console_ok (state typing_console).
Proof.
  split; [reflexivity|]. split; [unfold CONSOLE_CMD_BFR_SIZE; simpl; lia|].
  exact (Forall_nil_2 _).
Qed.

Lemma console_ok_fresh : console_ok (state fresh_console).
Proof.
  split; [reflexivity|]. split; [unfold CONSOLE_CMD_BFR_SIZE; simpl; lia|].
  exact (Forall_nil_2 _).
Qed.

Lemma console_char_edits_line_witness :
  line (state (console_char echo_func 65 typing_console)) = [char_of 65]
  /\ called (console_char echo_func 65 typing_console) = []
  /\ first_run_done (state (console_char echo_func 65 typing_console)) = true.
Proof.
  pose proof (console_char_edits_line echo_func 65 typing_console console_ok_typing) as H.
  cbv zeta in H. destruct H as (_ & _ & H0 & H).
  cbn [Z.eqb Pos.eqb orb] in H. destruct H as (H1 & H2 & _).
  exact (conj H1 (conj H2 H0)).
Defined.

Lemma console_line_executes_witness :
  (exists k',
      console_run echo_func
        [(1, Some 116); (1, Some 109); (1, Some 114); (1, Some 32); (1, Some 115);
         (1, Some 116); (1, Some 97); (1, Some 116); (1, Some 117); (1, Some 115);
         (1, Some 13); (0, None)] 0 typing_console
      = Some (0, k')
      /\ cmds k' = demo_cmd
      /\ called k' = [mk_func_call 1 2 ["tmr"; "status"]%string]
      /\ num_cmd_bfr_chars (state k') = 0)
  /\ (exists k',
        console_run echo_func (getc_results (replicate 79 97 ++ [10])) 0 fresh_console
        = Some (0, k')
        /\ called k' = []
        /\ num_cmd_bfr_chars (state k') = 0
        /\ first_run_done (state k') = true).
Proof.
  split.
  - destruct (console_line_executes echo_func 0 typing_console
                [116; 109; 114; 32; 115; 116; 97; 116; 117; 115] 13)
      as (k' & H1 & H2 & _ & H4 & H5 & _).
    + apply console_ok_typing.
    + reflexivity.
    + repeat constructor.
    + unfold CONSOLE_CMD_BFR_SIZE. simpl. lia.
    + reflexivity.
    + exists k'. split; [exact H1|]. split; [exact H2|]. split; [exact H4|exact H5].
  - destruct (console_line_executes echo_func 0 fresh_console (replicate 79 97) 10)
      as (k' & H1 & _ & _ & H4 & H5 & H6 & _).
    + apply console_ok_fresh.
    + reflexivity.
    + vm_compute. repeat constructor.
    + vm_compute. discriminate.
    + reflexivity.
    + exists k'. split; [exact H1|]. split; [exact H4|]. split; [exact H5|exact H6].
Defined.

End ConsoleProofs.
